(** * upb message accessors (upb/message/internal/accessors.h)

    A shallow embedding of the field-access layer of upb messages: hasbit and
    oneof-case arithmetic, the fixed-width value transcoder, the getters,
    setters and clearers of plain fields and of extensions, and the lazy
    creation of map fields.

    Conventions of the embedding.
    - A memory region is seen from its base pointer, one [Z] per byte, holding
      the byte's unsigned pattern.  The accessors are handed bare pointers
      ([upb_Message*], [const void*]) and never know a region's size, so a
      region is a total function of the byte offset.
    - A pointer into a region is the pair of the region and a byte offset; a
      function that writes through a pointer returns the region it wrote.
    - Multi-byte integers are read and written in little-endian byte order,
      and the data model is the 64-bit one: pointers and [size_t] take 8
      bytes, a [upb_StringView] is the 16-byte pair of a data pointer and a
      size (the [zero[16]] buffers of the source are of that size).
    - [UPB_ASSERT] and [UPB_ASSUME] are checked: a failing assertion ends the
      call with [Fault]. *)

From Stdlib Require Import ZArith List Bool Lia PeanoNat.
Import ListNotations.
Local Open Scope Z_scope.

(** ** Raw memory *)

Definition bytes := nat -> Z.

Definition zero_bytes : bytes := fun _ => 0.

Definition bytes_of_list (l : list Z) : bytes := fun a => nth a l 0.

(** The [n] bytes of [b] from offset [ofs] on. *)
Definition load (b : bytes) (ofs n : nat) : list Z :=
  map (fun i => b (ofs + i)%nat) (seq 0 n).

(** [*(char* )(b + ofs) = v]. *)
Definition poke (b : bytes) (ofs : nat) (v : Z) : bytes :=
  fun a => if (a =? ofs)%nat then v else b a.

(** [memcpy(to + to_ofs, from + from_ofs, n)], returning the region written. *)
Definition memcpy (to : bytes) (to_ofs : nat) (from : bytes) (from_ofs n : nat)
  : bytes :=
  fun a =>
    if ((to_ofs <=? a) && (a <? to_ofs + n))%nat
    then from (from_ofs + (a - to_ofs))%nat
    else to a.

(** [memcmp(a + a_ofs, b + b_ofs, n)]: the sign of the first difference, the
    bytes compared as unsigned chars. *)
Fixpoint memcmp (a : bytes) (a_ofs : nat) (b : bytes) (b_ofs n : nat) : Z :=
  match n with
  | O => 0
  | S n' =>
      if a a_ofs <? b b_ofs then -1
      else if b b_ofs <? a a_ofs then 1
      else memcmp a (S a_ofs) b (S b_ofs) n'
  end.

(** Little-endian integers. *)
Fixpoint le_decode (l : list Z) : Z :=
  match l with
  | [] => 0
  | b :: r => b + 256 * le_decode r
  end.

Fixpoint le_encode (n : nat) (v : Z) : list Z :=
  match n with
  | O => []
  | S k => v mod 256 :: le_encode k (v / 256)
  end.

(** Reading and writing an unsigned integer of [n] bytes at [b + ofs]; the
    write keeps the low [8 * n] bits of [v]. *)
Definition load_uint (b : bytes) (ofs n : nat) : Z := le_decode (load b ofs n).

Definition store_uint (b : bytes) (ofs n : nat) (v : Z) : bytes :=
  memcpy b ofs (bytes_of_list (le_encode n v)) 0 n.

(** ** Assertions *)

Inductive result (A : Type) : Type :=
| Ok (a : A)
| Fault.
Arguments Ok {A} a.
Arguments Fault {A}.

Definition bind {A B : Type} (r : result A) (k : A -> result B) : result B :=
  match r with
  | Ok a => k a
  | Fault => Fault
  end.

Notation "x <- e ;; k" := (bind e (fun x => k))
  (at level 61, e at next level, right associativity).
Notation "e ;;; k" := (bind e (fun _ => k))
  (at level 61, right associativity).

Definition UPB_ASSERT (b : bool) : result unit :=
  if b then Ok tt else Fault.

Definition UPB_ASSUME (b : bool) : result unit := UPB_ASSERT b.

(** ** Field descriptors *)

Inductive upb_FieldRep : Type :=
| kUpb_FieldRep_1Byte
| kUpb_FieldRep_4Byte
| kUpb_FieldRep_StringView
| kUpb_FieldRep_8Byte.

(** Modelled from the spec: the field descriptor [upb_MiniTableField], which
    upb/mini_table/internal/field.h declares; the sources at hand only use
    it.  Its attributes are those of the spec's external interface: the
    field number (unsigned, 32 bits), the byte offset of the value in the
    message (unsigned), the presence encoding (signed: positive is a hasbit
    index, negative is the complement of the byte offset of a oneof case
    slot, zero is implicit presence), the representation class, the
    extension flag, and whether the field is map-shaped. *)
Record upb_MiniTableField : Type := {
  number : Z;
  offset : nat;
  presence : Z;
  rep : upb_FieldRep;
  is_extension : bool;
  is_map : bool
}.

(** Modelled from the spec: an extension descriptor wraps a field descriptor
    plus an identity used as the lookup key.  The descriptors are compared
    as pointers; [ext_id] is the descriptor's address. *)
Record upb_MiniTableExtension : Type := {
  field : upb_MiniTableField;
  ext_id : nat
}.

(** Modelled from the spec: the representation class of a descriptor. *)
Definition _upb_MiniTableField_GetRep (f : upb_MiniTableField) : upb_FieldRep :=
  rep f.

(** Modelled from the spec: the extension flag of a descriptor. *)
Definition upb_MiniTableField_IsExtension (f : upb_MiniTableField) : bool :=
  is_extension f.

(** Modelled from the spec: [has] on a plain field requires presence <> 0;
    for an extension the spec states no requirement, the presence of an
    extension being the existence of its entry. *)
Definition upb_MiniTableField_HasPresence (f : upb_MiniTableField) : bool :=
  if upb_MiniTableField_IsExtension f then true else negb (presence f =? 0).

(** Modelled from the spec: the string view is a fixed-size struct of a data
    pointer and a size, which upb/base/string_view.h declares.  In the 64-bit
    data model it takes 16 bytes, the size of the zero buffers the source
    copies a cleared value of this class from, with the [size] member at
    offset 8. *)
Definition sizeof_upb_StringView : nat := 16.
Definition offsetof_upb_StringView_size : nat := 8.
Definition sizeof_size_t : nat := 8.
Definition sizeof_pointer : nat := 8.

(** The number of bytes a value of a representation class takes: what
    [_upb_MiniTable_CopyFieldData] copies. *)
Definition rep_width (r : upb_FieldRep) : nat :=
  match r with
  | kUpb_FieldRep_1Byte => 1
  | kUpb_FieldRep_4Byte => 4
  | kUpb_FieldRep_8Byte => 8
  | kUpb_FieldRep_StringView => sizeof_upb_StringView
  end.

(** ** Messages *)

(** Modelled from the spec: an extension entry is the pair of a descriptor
    reference and a raw value; [ext] is the descriptor's address and [data]
    the value's bytes. *)
Record upb_Message_Extension : Type := {
  ext : nat;
  data : bytes
}.

(** [sizeof(upb_Message_Extension)]: a pointer and a value of up to 16
    bytes. *)
Definition sizeof_upb_Message_Extension : nat := 24.

(** Modelled from the spec: the arena-owned block the internal header of a
    message refers to.  The extension entries lie at the byte offsets
    [ext_begin], [ext_begin + sizeof(upb_Message_Extension)], ... below
    [size]; [ext_mem o] is the entry stored at byte offset [o]. *)
Record upb_Message_InternalData : Type := {
  size : nat;
  ext_begin : nat;
  ext_mem : nat -> upb_Message_Extension
}.

(** A message: the internal header in front of the message pointer
    ([internal] is [None] for a null [in->internal]) and the field storage
    behind it, addressed from the message pointer. *)
Record upb_Message : Type := {
  internal : option upb_Message_InternalData;
  mem : bytes
}.

Definition with_mem (msg : upb_Message) (b : bytes) : upb_Message :=
  {| internal := internal msg; mem := b |}.

Definition with_internal (msg : upb_Message) (i : upb_Message_InternalData)
  : upb_Message :=
  {| internal := Some i; mem := mem msg |}.

(** ** Hasbit access *)

Definition _upb_hasbit_ofs (idx : nat) : nat := (idx / 8)%nat.

(** [1 << (idx % 8)], a char: its bit pattern. *)
Definition _upb_hasbit_mask (idx : nat) : Z :=
  Z.shiftl 1 (Z.of_nat (idx mod 8)) mod 256.

Definition _upb_hasbit (msg : upb_Message) (idx : nat) : bool :=
  negb (Z.land (mem msg (_upb_hasbit_ofs idx)) (_upb_hasbit_mask idx) =? 0).

Definition _upb_sethas (msg : upb_Message) (idx : nat) : upb_Message :=
  with_mem msg
    (poke (mem msg) (_upb_hasbit_ofs idx)
       (Z.lor (mem msg (_upb_hasbit_ofs idx)) (_upb_hasbit_mask idx) mod 256)).

Definition _upb_clearhas (msg : upb_Message) (idx : nat) : upb_Message :=
  with_mem msg
    (poke (mem msg) (_upb_hasbit_ofs idx)
       (Z.land (mem msg (_upb_hasbit_ofs idx))
          (Z.lnot (_upb_hasbit_mask idx)) mod 256)).

Definition _upb_Message_Hasidx (f : upb_MiniTableField) : result nat :=
  UPB_ASSERT (0 <? presence f) ;;;
  Ok (Z.to_nat (presence f)).

Definition _upb_hasbit_field (msg : upb_Message) (f : upb_MiniTableField)
  : result bool :=
  idx <- _upb_Message_Hasidx f ;;
  Ok (_upb_hasbit msg idx).

Definition _upb_sethas_field (msg : upb_Message) (f : upb_MiniTableField)
  : result upb_Message :=
  idx <- _upb_Message_Hasidx f ;;
  Ok (_upb_sethas msg idx).

(** ** Oneof case access *)

Definition _upb_oneofcase_ofs (f : upb_MiniTableField) : result nat :=
  UPB_ASSERT (presence f <? 0) ;;;
  Ok (Z.to_nat (Z.lnot (presence f))).

(** The pointer to the case slot: its byte offset in the message. *)
Definition _upb_oneofcase_field (f : upb_MiniTableField) : result nat :=
  _upb_oneofcase_ofs f.

Definition _upb_getoneofcase_field (msg : upb_Message) (f : upb_MiniTableField)
  : result Z :=
  p <- _upb_oneofcase_field f ;;
  Ok (load_uint (mem msg) p 4).

Definition _upb_MiniTableField_InOneOf (f : upb_MiniTableField) : bool :=
  presence f <? 0.

(** [(char* )msg + field->offset]: the byte offset in the message. *)
Definition _upb_MiniTableField_GetPtr (f : upb_MiniTableField) : nat := offset f.

Definition _upb_MiniTableField_GetConstPtr (f : upb_MiniTableField) : nat :=
  offset f.

Definition _upb_Message_SetPresence (msg : upb_Message)
  (f : upb_MiniTableField) : result upb_Message :=
  if 0 <? presence f then _upb_sethas_field msg f
  else if _upb_MiniTableField_InOneOf f then
    p <- _upb_oneofcase_field f ;;
    Ok (with_mem msg (store_uint (mem msg) p 4 (number f)))
  else Ok msg.

(** ** The transcoder *)

(** [sv->size] of the [upb_StringView] at [b]. *)
Definition upb_StringView_size (b : bytes) : Z :=
  load_uint b offsetof_upb_StringView_size sizeof_size_t.

Definition _upb_MiniTable_ValueIsNonZero (default_val : bytes)
  (f : upb_MiniTableField) : bool :=
  let zero := zero_bytes in
  match _upb_MiniTableField_GetRep f with
  | kUpb_FieldRep_1Byte => negb (memcmp zero 0 default_val 0 1 =? 0)
  | kUpb_FieldRep_4Byte => negb (memcmp zero 0 default_val 0 4 =? 0)
  | kUpb_FieldRep_8Byte => negb (memcmp zero 0 default_val 0 8 =? 0)
  | kUpb_FieldRep_StringView => negb (upb_StringView_size default_val =? 0)
  end.

Definition _upb_MiniTable_CopyFieldData (to : bytes) (to_ofs : nat)
  (from : bytes) (from_ofs : nat) (f : upb_MiniTableField) : bytes :=
  match _upb_MiniTableField_GetRep f with
  | kUpb_FieldRep_1Byte => memcpy to to_ofs from from_ofs 1
  | kUpb_FieldRep_4Byte => memcpy to to_ofs from from_ofs 4
  | kUpb_FieldRep_8Byte => memcpy to to_ofs from from_ofs 8
  | kUpb_FieldRep_StringView =>
      memcpy to to_ofs from from_ofs sizeof_upb_StringView
  end.

(** ** Plain fields *)

Definition _upb_Message_HasNonExtensionField (msg : upb_Message)
  (f : upb_MiniTableField) : result bool :=
  UPB_ASSERT (upb_MiniTableField_HasPresence f) ;;;
  UPB_ASSUME (negb (upb_MiniTableField_IsExtension f)) ;;;
  if _upb_MiniTableField_InOneOf f then
    c <- _upb_getoneofcase_field msg f ;;
    Ok (c =? number f)
  else _upb_hasbit_field msg f.

(** The result is the region [val] points to, after the call.  The guard
    evaluates left to right and stops early, as [||] and [&&] do: the field
    is asked for its presence only when it is in a oneof or the default is
    not zero. *)
Definition _upb_Message_GetNonExtensionField (msg : upb_Message)
  (f : upb_MiniTableField) (default_val val : bytes) : result bytes :=
  UPB_ASSUME (negb (upb_MiniTableField_IsExtension f)) ;;;
  if _upb_MiniTableField_InOneOf f
     || _upb_MiniTable_ValueIsNonZero default_val f
  then
    has <- _upb_Message_HasNonExtensionField msg f ;;
    if negb has
    then Ok (_upb_MiniTable_CopyFieldData val 0 default_val 0 f)
    else Ok (_upb_MiniTable_CopyFieldData val 0 (mem msg)
               (_upb_MiniTableField_GetConstPtr f) f)
  else Ok (_upb_MiniTable_CopyFieldData val 0 (mem msg)
             (_upb_MiniTableField_GetConstPtr f) f).

Definition _upb_Message_SetNonExtensionField (msg : upb_Message)
  (f : upb_MiniTableField) (val : bytes) : result upb_Message :=
  UPB_ASSUME (negb (upb_MiniTableField_IsExtension f)) ;;;
  msg1 <- _upb_Message_SetPresence msg f ;;
  Ok (with_mem msg1
        (_upb_MiniTable_CopyFieldData (mem msg1) (_upb_MiniTableField_GetPtr f)
           val 0 f)).

(** The early [return] of the oneof branch leaves the message as it is; the
    other paths fall through to the zero fill. *)
Definition _upb_Message_ClearNonExtensionField (msg : upb_Message)
  (f : upb_MiniTableField) : result upb_Message :=
  let zero_fill (m : upb_Message) :=
    let zeros := zero_bytes in
    with_mem m
      (_upb_MiniTable_CopyFieldData (mem m) (_upb_MiniTableField_GetPtr f)
         zeros 0 f) in
  if 0 <? presence f then
    idx <- _upb_Message_Hasidx f ;;
    Ok (zero_fill (_upb_clearhas msg idx))
  else if _upb_MiniTableField_InOneOf f then
    oneof_case <- _upb_oneofcase_field f ;;
    if negb (load_uint (mem msg) oneof_case 4 =? number f) then Ok msg
    else Ok (zero_fill (with_mem msg (store_uint (mem msg) oneof_case 4 0)))
  else Ok (zero_fill msg).

(** ** The arena *)

(** Modelled from the spec: the arena is an opaque capability,
    allocate(byteSize) -> pointer | failure.  The model is an oracle:
    [arena_supply] lists the addresses the coming requests are answered
    with, one per request, an address that is null or does not fit a
    pointer standing for a failed request, and an empty supply for an
    exhausted arena.  [arena_maps] is the trace of the calls of the map
    constructor on this arena, latest first: key size, value size and the
    reference returned. *)
Record upb_Arena : Type := {
  arena_supply : list Z;
  arena_maps : list (nat * nat * Z)
}.

(** An address a successful request is answered with: not null, and fitting
    a pointer. *)
Definition valid_address (p : Z) : bool := (0 <? p) && (p <? 2 ^ 64).

(** Modelled from the spec: allocate(byteSize) -> pointer | failure; 0 is
    the null pointer of a refused request.  The oracle does not look at the
    size asked for. *)
Definition upb_Arena_Malloc (a : upb_Arena) (n : nat) : Z * upb_Arena :=
  match arena_supply a with
  | [] => (0, a)
  | p :: rest =>
      (if valid_address p then p else 0,
       {| arena_supply := rest; arena_maps := arena_maps a |})
  end.

(** ** Extensions *)

(** Modelled from the spec: lookup(message, extDescriptor) -> entryRef |
    none.  The [n] entries of the window are visited from its front, at the
    byte offsets [p], [p + sizeof(upb_Message_Extension)], ...; the result is
    the byte offset of the first entry that refers to the descriptor [e]. *)
Fixpoint find_extension (m : nat -> upb_Message_Extension) (e p n : nat)
  : option nat :=
  match n with
  | O => None
  | S n' =>
      if (ext (m p) =? e)%nat then Some p
      else find_extension m e (p + sizeof_upb_Message_Extension)%nat n'
  end.

(** The number of entries of the window [ext_begin, size). *)
Definition extension_count (i : upb_Message_InternalData) : nat :=
  ((size i - ext_begin i) / sizeof_upb_Message_Extension)%nat.

(** Modelled from the spec: [_upb_Message_Getext], the lookup on a message;
    [None] is the null pointer, [Some p] the entry at byte offset [p] of the
    internal block. *)
Definition _upb_Message_Getext (msg : upb_Message) (e : upb_MiniTableExtension)
  : option nat :=
  match internal msg with
  | None => None
  | Some i => find_extension (ext_mem i) (ext_id e) (ext_begin i)
                (extension_count i)
  end.

Definition null_extension : upb_Message_Extension :=
  {| ext := 0%nat; data := zero_bytes |}.

(** [*p] for an entry pointer [p] of the message. *)
Definition extension_at (msg : upb_Message) (p : nat) : upb_Message_Extension :=
  match internal msg with
  | None => null_extension
  | Some i => ext_mem i p
  end.

(** [*p = x] for an entry pointer [p] of the message. *)
Definition put_extension (msg : upb_Message) (p : nat)
  (x : upb_Message_Extension) : upb_Message :=
  match internal msg with
  | None => msg
  | Some i =>
      with_internal msg
        {| size := size i;
           ext_begin := ext_begin i;
           ext_mem := fun o => if (o =? p)%nat then x else ext_mem i o |}
  end.

(** Modelled from the spec: the extension-array collaborator makes room for
    [need] more bytes in front of the window, backed by the arena.  A message
    without a block gets one; a block whose window starts too low is moved to
    a larger one, its entries keeping their distance to the end; how much a
    block grows is the collaborator's business, the model grows it by the
    room asked for.  A refused request changes nothing in the message. *)
Definition realloc_internal (msg : upb_Message) (need : nat) (a : upb_Arena)
  : bool * upb_Message * upb_Arena :=
  match internal msg with
  | None =>
      let '(p, a') := upb_Arena_Malloc a need in
      if p =? 0 then (false, msg, a')
      else (true,
            with_internal msg
              {| size := need; ext_begin := need;
                 ext_mem := fun _ => null_extension |},
            a')
  | Some i =>
      if (ext_begin i <? need)%nat then
        let '(p, a') := upb_Arena_Malloc a (size i + need) in
        if p =? 0 then (false, msg, a')
        else (true,
              with_internal msg
                {| size := (size i + need)%nat;
                   ext_begin := (ext_begin i + need)%nat;
                   ext_mem := fun o => ext_mem i (o - need)%nat |},
              a')
      else (true, msg, a)
  end.

(** Modelled from the spec: getOrCreate(message, extDescriptor, arena) looks
    the entry up; if absent it asks for a new slot in front of the window and
    returns it, zeroed and referring to the descriptor; it returns a null
    reference when the allocation fails, and then the message is as it
    was. *)
Definition _upb_Message_GetOrCreateExtension (msg : upb_Message)
  (e : upb_MiniTableExtension) (a : upb_Arena)
  : option nat * upb_Message * upb_Arena :=
  match _upb_Message_Getext msg e with
  | Some p => (Some p, msg, a)
  | None =>
      let '(ok, msg1, a1) :=
        realloc_internal msg sizeof_upb_Message_Extension a in
      if ok then
        match internal msg1 with
        | None => (None, msg, a1)
        | Some i =>
            let b := (ext_begin i - sizeof_upb_Message_Extension)%nat in
            let i' := {| size := size i; ext_begin := b;
                         ext_mem := ext_mem i |} in
            (Some b,
             put_extension (with_internal msg1 i') b
               {| ext := ext_id e; data := zero_bytes |},
             a1)
        end
      else (None, msg, a1)
  end.

Definition _upb_Message_HasExtensionField (msg : upb_Message)
  (e : upb_MiniTableExtension) : result bool :=
  UPB_ASSERT (upb_MiniTableField_HasPresence (field e)) ;;;
  Ok (match _upb_Message_Getext msg e with Some _ => true | None => false end).

Definition _upb_Message_GetExtensionField (msg : upb_Message)
  (mt_ext : upb_MiniTableExtension) (default_val val : bytes) : result bytes :=
  UPB_ASSUME (upb_MiniTableField_IsExtension (field mt_ext)) ;;;
  match _upb_Message_Getext msg mt_ext with
  | Some p =>
      Ok (_upb_MiniTable_CopyFieldData val 0 (data (extension_at msg p)) 0
            (field mt_ext))
  | None => Ok (_upb_MiniTable_CopyFieldData val 0 default_val 0 (field mt_ext))
  end.

(** The arena pointer may be null: [a] is [None] then.  The result is the
    returned flag, the message and the arena after the call. *)
Definition _upb_Message_SetExtensionField (msg : upb_Message)
  (mt_ext : upb_MiniTableExtension) (val : bytes) (a : option upb_Arena)
  : result (bool * upb_Message * option upb_Arena) :=
  match a with
  | None => Fault
  | Some ar =>
      let '(p, msg1, ar1) := _upb_Message_GetOrCreateExtension msg mt_ext ar in
      match p with
      | None => Ok (false, msg1, Some ar1)
      | Some p =>
          let x := extension_at msg1 p in
          Ok (true,
              put_extension msg1 p
                {| ext := ext x;
                   data := _upb_MiniTable_CopyFieldData (data x) 0 val 0
                             (field mt_ext) |},
              Some ar1)
      end
  end.

Definition _upb_Message_ClearExtensionField (msg : upb_Message)
  (ext_l : upb_MiniTableExtension) : upb_Message :=
  match internal msg with
  | None => msg
  | Some i =>
      let base := ext_begin i in
      match _upb_Message_Getext msg ext_l with
      | Some p =>
          let msg1 := put_extension msg p (extension_at msg base) in
          match internal msg1 with
          | None => msg1
          | Some i1 =>
              with_internal msg1
                {| size := size i1;
                   ext_begin :=
                     (ext_begin i1 + sizeof_upb_Message_Extension)%nat;
                   ext_mem := ext_mem i1 |}
          end
      | None => msg
      end
  end.

(** ** The unified accessors *)

(** A [const upb_MiniTableField*] points to a descriptor of a message's field
    table or to the [field] member that opens an extension descriptor; the
    cast to [upb_MiniTableExtension*] is defined for the latter only. *)
Inductive field_ptr : Type :=
| plain_field (f : upb_MiniTableField)
| extension_field (e : upb_MiniTableExtension).

Definition deref (fp : field_ptr) : upb_MiniTableField :=
  match fp with
  | plain_field f => f
  | extension_field e => field e
  end.

Definition as_extension (fp : field_ptr) : result upb_MiniTableExtension :=
  match fp with
  | plain_field _ => Fault
  | extension_field e => Ok e
  end.

Definition _upb_Message_GetField (msg : upb_Message) (fp : field_ptr)
  (default_val val : bytes) : result bytes :=
  if upb_MiniTableField_IsExtension (deref fp) then
    e <- as_extension fp ;;
    _upb_Message_GetExtensionField msg e default_val val
  else _upb_Message_GetNonExtensionField msg (deref fp) default_val val.

Definition _upb_Message_SetField (msg : upb_Message) (fp : field_ptr)
  (val : bytes) (a : option upb_Arena)
  : result (bool * upb_Message * option upb_Arena) :=
  if upb_MiniTableField_IsExtension (deref fp) then
    e <- as_extension fp ;;
    _upb_Message_SetExtensionField msg e val a
  else
    msg1 <- _upb_Message_SetNonExtensionField msg (deref fp) val ;;
    Ok (true, msg1, a).

(** ** Map fields *)

(** Modelled from the spec: the descriptor identifies a map-shaped field; a
    map field value is a reference stored like any other pointer-shaped
    field, so its representation class is the pointer-sized one. *)
Definition _upb_MiniTableField_CheckIsMap (f : upb_MiniTableField)
  : result unit :=
  UPB_ASSUME (match _upb_MiniTableField_GetRep f with
              | kUpb_FieldRep_8Byte => true
              | _ => false
              end) ;;;
  UPB_ASSUME (is_map f).

(** Modelled from the spec: the reserved placeholder a stored reference may
    not be.  A stored reference is a tagged pointer; the placeholder is told
    from a real map by the tag, the lowest bit of the word. *)
Definition upb_TaggedMessagePtr_IsEmpty (p : Z) : bool := Z.testbit p 0.

(** Modelled from the spec: construct(arena, keySize, valueSize) ->
    mapReference, null when the arena refuses.  Every call is recorded in
    the arena's trace. *)
Definition _upb_Map_New (a : upb_Arena) (key_size val_size : nat)
  : Z * upb_Arena :=
  let '(p, a') := upb_Arena_Malloc a (key_size + val_size) in
  (p, {| arena_supply := arena_supply a';
         arena_maps := (key_size, val_size, p) :: arena_maps a' |}).

(** The pointer-sized local a getter fills: its value. *)
Definition load_pointer (b : bytes) (ofs : nat) : Z :=
  load_uint b ofs sizeof_pointer.

Definition store_pointer (b : bytes) (ofs : nat) (p : Z) : bytes :=
  store_uint b ofs sizeof_pointer p.

(** The body under [#ifndef NDEBUG] is part of the model.  The local
    [tagged] is not initialised in the source; the getter overwrites it. *)
Definition _upb_Message_AssertMapIsUntagged (msg : upb_Message)
  (f : upb_MiniTableField) : result unit :=
  _upb_MiniTableField_CheckIsMap f ;;;
  let default_val := store_pointer zero_bytes 0 0 in
  let tagged := zero_bytes in
  tagged <- _upb_Message_GetNonExtensionField msg f default_val tagged ;;
  UPB_ASSERT (negb (upb_TaggedMessagePtr_IsEmpty (load_pointer tagged 0))).

(** The result is the returned reference (0 for null), the message and the
    arena after the call. *)
Definition _upb_Message_GetOrCreateMutableMap (msg : upb_Message)
  (f : upb_MiniTableField) (key_size val_size : nat) (arena : upb_Arena)
  : result (Z * upb_Message * upb_Arena) :=
  _upb_MiniTableField_CheckIsMap f ;;;
  _upb_Message_AssertMapIsUntagged msg f ;;;
  let map := store_pointer zero_bytes 0 0 in
  let default_map_value := store_pointer zero_bytes 0 0 in
  map <- _upb_Message_GetNonExtensionField msg f default_map_value map ;;
  if load_pointer map 0 =? 0 then
    let '(p, arena1) := _upb_Map_New arena key_size val_size in
    let map := store_pointer map 0 p in
    _upb_MiniTableField_CheckIsMap f ;;;
    msg1 <- _upb_Message_SetNonExtensionField msg f map ;;
    Ok (load_pointer map 0, msg1, arena1)
  else Ok (load_pointer map 0, msg, arena).

(** ** Layouts, tables and operations: the vocabulary of the properties *)

(** [out] is [val] with the value of [f]'s width at [src + src_ofs] copied to
    its front. *)
Definition holds_copy_of (out val src : bytes) (src_ofs : nat)
  (f : upb_MiniTableField) : Prop :=
  load out 0 (rep_width (rep f)) = load src src_ofs (rep_width (rep f))
  /\ forall a, (rep_width (rep f) <= a)%nat -> out a = val a.

(** The byte ranges [a, a + n) and [b, b + k) do not meet. *)
Definition apart (a n b k : nat) : bool := ((a + n <=? b) || (b + k <=? a))%nat.

(** The presence bookkeeping of a field lies outside the storage of its
    value: the hasbit byte of a hasbit field, the case slot of a oneof
    member. *)
Definition presence_apart (f : upb_MiniTableField) : bool :=
  if 0 <? presence f then
    apart (_upb_hasbit_ofs (Z.to_nat (presence f))) 1
      (offset f) (rep_width (rep f))
  else if presence f <? 0 then
    apart (Z.to_nat (Z.lnot (presence f))) 4 (offset f) (rep_width (rep f))
  else true.

(** The byte offset of the case slot of a oneof member. *)
Definition case_slot (f : upb_MiniTableField) : nat :=
  Z.to_nat (Z.lnot (presence f)).

(** The case a message holds for the oneof of member [f]. *)
Definition case_of (msg : upb_Message) (f : upb_MiniTableField) : Z :=
  load_uint (mem msg) (case_slot f) 4.

(** The case slot of the oneof member [f] is respected by the field [g]:
    neither the storage of [g]'s value nor its hasbit byte meets the slot,
    and the case slot of [g], if it has one, is the same slot or lies
    elsewhere. *)
Definition slot_respected (f g : upb_MiniTableField) : bool :=
  if presence f <? 0 then
    apart (case_slot f) 4 (offset g) (rep_width (rep g))
    && (if 0 <? presence g then
          apart (case_slot f) 4 (_upb_hasbit_ofs (Z.to_nat (presence g))) 1
        else if presence g <? 0 then
          (presence g =? presence f)
          || apart (case_slot f) 4 (case_slot g) 4
        else true)
  else true.

Fixpoint distinct (l : list Z) : bool :=
  match l with
  | [] => true
  | x :: r => negb (existsb (Z.eqb x) r) && distinct r
  end.

(** A field table as the table builder lays it out: plain fields, with
    field numbers that are positive, fit 32 bits and differ from each other,
    and case slots that every field of the table respects. *)
Definition wf_table (T : list upb_MiniTableField) : bool :=
  forallb (fun f =>
             negb (is_extension f)
             && (0 <? number f) && (number f <? 2 ^ 32)
             && forallb (slot_respected f) T) T
  && distinct (map number T).

(** The operations of the accessor layer that return a message. *)
Inductive accessor_op : Type :=
| op_set (f : upb_MiniTableField) (val : bytes)
| op_clear (f : upb_MiniTableField)
| op_set_extension (e : upb_MiniTableExtension) (val : bytes)
    (a : option upb_Arena)
| op_clear_extension (e : upb_MiniTableExtension)
| op_get_or_create_map (f : upb_MiniTableField) (key_size val_size : nat)
    (a : upb_Arena).

Definition run (o : accessor_op) (msg : upb_Message) : result upb_Message :=
  match o with
  | op_set f val => _upb_Message_SetNonExtensionField msg f val
  | op_clear f => _upb_Message_ClearNonExtensionField msg f
  | op_set_extension e val a =>
      r <- _upb_Message_SetExtensionField msg e val a ;;
      Ok (snd (fst r))
  | op_clear_extension e => Ok (_upb_Message_ClearExtensionField msg e)
  | op_get_or_create_map f key_size val_size a =>
      r <- _upb_Message_GetOrCreateMutableMap msg f key_size val_size a ;;
      Ok (snd (fst r))
  end.

Fixpoint run_all (os : list accessor_op) (msg : upb_Message)
  : result upb_Message :=
  match os with
  | [] => Ok msg
  | o :: r => msg1 <- run o msg ;; run_all r msg1
  end.

(** The plain field an operation is given, if any. *)
Definition op_field (o : accessor_op) : option upb_MiniTableField :=
  match o with
  | op_set f _ | op_clear f | op_get_or_create_map f _ _ _ => Some f
  | op_set_extension _ _ _ | op_clear_extension _ => None
  end.

(** The operation is one on a message of the type with table [T]. *)
Definition op_of_table (T : list upb_MiniTableField) (o : accessor_op) : Prop :=
  match op_field o with
  | Some f => In f T
  | None => True
  end.

(** The operation is given a member of the oneof of [f]. *)
Definition op_in_oneof_of (f : upb_MiniTableField) (o : accessor_op) : bool :=
  match op_field o with
  | Some g => presence g =? presence f
  | None => false
  end.

(** A message as it is created: no internal block, all bytes zero. *)
Definition fresh_message : upb_Message :=
  {| internal := None; mem := zero_bytes |}.

(** Every case slot of the message holds 0 or the number of a member of its
    oneof, and no other field of the table has that number. *)
Definition case_slots_valid (T : list upb_MiniTableField) (msg : upb_Message)
  : Prop :=
  forall f, In f T -> presence f < 0 ->
    case_of msg f = 0
    \/ exists g, In g T /\ presence g = presence f
                 /\ number g = case_of msg f
                 /\ forall g', In g' T -> number g' = case_of msg f -> g' = g.

Ltac bind_inv H :=
  match type of H with
  | bind ?e _ = Ok _ =>
      let E := fresh "E" in
      destruct e eqn:E; [cbn [bind] in H | discriminate H]
  end.

(** The descriptor references of the entries of the window, front first. *)
Definition window_ids (i : upb_Message_InternalData) : list nat :=
  map (fun k => ext (ext_mem i (ext_begin i + k * sizeof_upb_Message_Extension)))
    (seq 0 (extension_count i)).

(** At most one entry of the message refers to a given extension
    descriptor. *)
Definition extensions_unique (msg : upb_Message) : Prop :=
  match internal msg with
  | None => True
  | Some i => NoDup (window_ids i)
  end.

(** The block after the entry at byte offset [p] was removed: the front entry
    is copied over it and the window starts one entry later. *)
Definition cleared_window (i : upb_Message_InternalData) (p : nat)
  : upb_Message_InternalData :=
  {| size := size i;
     ext_begin := (ext_begin i + sizeof_upb_Message_Extension)%nat;
     ext_mem := fun o => if (o =? p)%nat then ext_mem i (ext_begin i)
                         else ext_mem i o |}.

(** The index, in the window before, of the entry that is at index [j] of the
    window after the entry of index [k] was removed. *)
Definition moved (k j : nat) : nat := if (S j =? k)%nat then O else S j.

(** The reference the map initialiser reads from the field: the stored one,
    or null for a oneof member that is not the active one. *)
Definition map_reference (msg : upb_Message) (f : upb_MiniTableField) : Z :=
  if _upb_MiniTableField_InOneOf f && negb (case_of msg f =? number f) then 0
  else load_pointer (mem msg) (offset f).

(** A plain field laid out as the table builder does: the presence
    bookkeeping outside the value's storage, the number positive and fitting
    32 bits. *)
Definition wf_field (f : upb_MiniTableField) : bool :=
  negb (is_extension f) && presence_apart f
  && (0 <? number f) && (number f <? 2 ^ 32).

(** The bytes of the message a plain setter or clearer of [f] may write:
    the storage of the value, the hasbit byte of a hasbit field, the case
    slot of a oneof member. *)
Definition field_footprint (f : upb_MiniTableField) (a : nat) : bool :=
  ((offset f <=? a) && (a <? offset f + rep_width (rep f)))%nat
  || ((0 <? presence f)
      && (a =? _upb_hasbit_ofs (Z.to_nat (presence f)))%nat)
  || ((presence f <? 0)
      && ((case_slot f <=? a) && (a <? case_slot f + 4))%nat).

(** Two results of a getter hold the same bytes, or both calls stopped at an
    assertion. *)
Definition same_bytes (r r' : result bytes) : Prop :=
  match r, r' with
  | Ok b, Ok b' => forall a, b a = b' a
  | Fault, Fault => True
  | _, _ => False
  end.

(** The fields [f] and [g] of a table do not share anything: their values
    are stored apart, the presence bookkeeping of each lies outside the
    storage of the other, and they have hasbits of different indices, or
    case slots that do not meet, or a hasbit byte and a case slot that do
    not meet. *)
Definition fields_apart (f g : upb_MiniTableField) : bool :=
  apart (offset f) (rep_width (rep f)) (offset g) (rep_width (rep g))
  && (if 0 <? presence f then
        apart (_upb_hasbit_ofs (Z.to_nat (presence f))) 1
          (offset g) (rep_width (rep g))
      else if presence f <? 0 then
        apart (case_slot f) 4 (offset g) (rep_width (rep g))
      else true)
  && (if 0 <? presence g then
        apart (_upb_hasbit_ofs (Z.to_nat (presence g))) 1
          (offset f) (rep_width (rep f))
      else if presence g <? 0 then
        apart (case_slot g) 4 (offset f) (rep_width (rep f))
      else true)
  && (if 0 <? presence f then
        if 0 <? presence g then negb (presence f =? presence g)
        else if presence g <? 0 then
          apart (case_slot g) 4 (_upb_hasbit_ofs (Z.to_nat (presence f))) 1
        else true
      else if presence f <? 0 then
        if 0 <? presence g then
          apart (case_slot f) 4 (_upb_hasbit_ofs (Z.to_nat (presence g))) 1
        else if presence g <? 0 then
          apart (case_slot f) 4 (case_slot g) 4
        else true
      else true).

(** The window of the message's extensions starts inside its block. *)
Definition window_in_block (msg : upb_Message) : Prop :=
  match internal msg with
  | None => True
  | Some i => (ext_begin i <= size i)%nat
  end.

Ltac nat_cases :=
  repeat match goal with
         | |- context [(?a <=? ?b)%nat] => destruct (Nat.leb_spec a b)
         | |- context [(?a <? ?b)%nat] => destruct (Nat.ltb_spec a b)
         | |- context [(?a =? ?b)%nat] => destruct (Nat.eqb_spec a b)
         end;
  cbn [andb orb negb].

(** Two buffers hold the same value of a representation class: the same
    bytes of the class's width; for the string-view class also two views of
    length 0, which are the zero value whatever their data pointer holds. *)
Definition same_value (r : upb_FieldRep) (a b : bytes) : Prop :=
  match r with
  | kUpb_FieldRep_StringView =>
      upb_StringView_size a = upb_StringView_size b
      /\ (upb_StringView_size b <> 0 ->
          load a 0 sizeof_upb_StringView = load b 0 sizeof_upb_StringView)
  | _ => load a 0 (rep_width r) = load b 0 (rep_width r)
  end.

(** * Properties *)

(** ** Memory *)

Lemma load_length (b : bytes) (ofs n : nat) : length (load b ofs n) = n.
Proof. unfold load. now rewrite length_map, length_seq. Qed.

Lemma load_nth (b : bytes) (ofs n i : nat) :
  (i < n)%nat -> nth i (load b ofs n) 0 = b (ofs + i)%nat.
Proof.
  intros Hi. unfold load.
  rewrite (nth_indep _ 0 ((fun i => b (ofs + i)%nat) O)) by
    (rewrite length_map, length_seq; exact Hi).
  rewrite (map_nth (fun i => b (ofs + i)%nat)), seq_nth by exact Hi.
  reflexivity.
Qed.

Lemma load_ext (b b' : bytes) (ofs ofs' n : nat) :
  (forall i, (i < n)%nat -> b (ofs + i)%nat = b' (ofs' + i)%nat) ->
  load b ofs n = load b' ofs' n.
Proof.
  intros H. unfold load. apply map_ext_in. intros i Hi.
  apply in_seq in Hi. apply H. lia.
Qed.

Lemma load_eq_inv (b b' : bytes) (ofs ofs' n i : nat) :
  load b ofs n = load b' ofs' n -> (i < n)%nat ->
  b (ofs + i)%nat = b' (ofs' + i)%nat.
Proof.
  intros H Hi. rewrite <- (load_nth b ofs n i Hi), H. now apply load_nth.
Qed.

Lemma memcpy_inside (to : bytes) (to_ofs : nat) (from : bytes)
  (from_ofs n a : nat) :
  (to_ofs <= a < to_ofs + n)%nat ->
  memcpy to to_ofs from from_ofs n a = from (from_ofs + (a - to_ofs))%nat.
Proof.
  intros [H1 H2]. unfold memcpy.
  apply Nat.leb_le in H1. apply Nat.ltb_lt in H2. now rewrite H1, H2.
Qed.

Lemma memcpy_outside (to : bytes) (to_ofs : nat) (from : bytes)
  (from_ofs n a : nat) :
  (a < to_ofs \/ to_ofs + n <= a)%nat ->
  memcpy to to_ofs from from_ofs n a = to a.
Proof.
  intros H. unfold memcpy.
  destruct (Nat.leb_spec to_ofs a); destruct (Nat.ltb_spec a (to_ofs + n));
    simpl; try reflexivity; lia.
Qed.

Lemma load_memcpy_same (to : bytes) (to_ofs : nat) (from : bytes)
  (from_ofs n : nat) :
  load (memcpy to to_ofs from from_ofs n) to_ofs n = load from from_ofs n.
Proof.
  apply load_ext. intros i Hi. rewrite memcpy_inside by lia.
  f_equal. lia.
Qed.

Lemma load_memcpy_disjoint (to : bytes) (to_ofs : nat) (from : bytes)
  (from_ofs n ofs k : nat) :
  (ofs + k <= to_ofs \/ to_ofs + n <= ofs)%nat ->
  load (memcpy to to_ofs from from_ofs n) ofs k = load to ofs k.
Proof.
  intros H. apply load_ext. intros i Hi. apply memcpy_outside. lia.
Qed.

Lemma poke_same (b : bytes) (ofs : nat) (v : Z) : poke b ofs v ofs = v.
Proof. unfold poke. now rewrite Nat.eqb_refl. Qed.

Lemma poke_other (b : bytes) (ofs a : nat) (v : Z) :
  a <> ofs -> poke b ofs v a = b a.
Proof. intros H. unfold poke. apply Nat.eqb_neq in H. now rewrite H. Qed.

Lemma load_poke_disjoint (b : bytes) (p : nat) (v : Z) (ofs k : nat) :
  (p < ofs \/ ofs + k <= p)%nat -> load (poke b p v) ofs k = load b ofs k.
Proof.
  intros H. apply load_ext. intros i Hi. apply poke_other. lia.
Qed.

Lemma load_zero_bytes (ofs n : nat) : load zero_bytes ofs n = repeat 0 n.
Proof.
  apply (nth_ext _ _ 0 0).
  - now rewrite load_length, repeat_length.
  - intros i Hi. rewrite load_length in Hi. rewrite load_nth by exact Hi.
    unfold zero_bytes. symmetry. apply nth_repeat.
Qed.

Lemma load_bytes_of_list (l : list Z) : load (bytes_of_list l) 0 (length l) = l.
Proof.
  apply (nth_ext _ _ 0 0).
  - apply load_length.
  - intros i Hi. rewrite load_length in Hi. now rewrite load_nth.
Qed.

Lemma le_encode_length (n : nat) (v : Z) : length (le_encode n v) = n.
Proof. revert v. induction n as [|n IH]; intros v; simpl; auto. Qed.

Lemma le_decode_encode (n : nat) (v : Z) :
  le_decode (le_encode n v) = v mod 2 ^ (8 * Z.of_nat n).
Proof.
  revert v. induction n as [|n IH]; intros v.
  - simpl. now rewrite Z.mod_1_r.
  - cbn [le_encode le_decode]. rewrite IH.
    replace (8 * Z.of_nat (S n)) with (8 + 8 * Z.of_nat n) by lia.
    rewrite Z.pow_add_r by lia.
    change (2 ^ 8) with 256.
    rewrite Z.rem_mul_r by lia. reflexivity.
Qed.

Lemma load_store_uint (b : bytes) (ofs n : nat) (v : Z) :
  load (store_uint b ofs n v) ofs n = le_encode n v.
Proof.
  unfold store_uint. rewrite load_memcpy_same.
  pose proof (load_bytes_of_list (le_encode n v)) as H.
  now rewrite le_encode_length in H.
Qed.

Lemma load_uint_store_uint (b : bytes) (ofs n : nat) (v : Z) :
  load_uint (store_uint b ofs n v) ofs n = v mod 2 ^ (8 * Z.of_nat n).
Proof. unfold load_uint. now rewrite load_store_uint, le_decode_encode. Qed.

Lemma store_uint_outside (b : bytes) (ofs n : nat) (v : Z) (a : nat) :
  (a < ofs \/ ofs + n <= a)%nat -> store_uint b ofs n v a = b a.
Proof. apply memcpy_outside. Qed.

Lemma memcmp_zero_iff (a : bytes) (a_ofs : nat) (b : bytes) (b_ofs n : nat) :
  memcmp a a_ofs b b_ofs n = 0 <->
  forall i, (i < n)%nat -> a (a_ofs + i)%nat = b (b_ofs + i)%nat.
Proof.
  revert a_ofs b_ofs. induction n as [|n IH]; intros a_ofs b_ofs; simpl.
  - split; [intros _ i Hi; lia | reflexivity].
  - destruct (Z.ltb_spec (a a_ofs) (b b_ofs)) as [H1|H1].
    + split; [discriminate|]. intros H. specialize (H O ltac:(lia)).
      rewrite !Nat.add_0_r in H. lia.
    + destruct (Z.ltb_spec (b b_ofs) (a a_ofs)) as [H2|H2].
      * split; [discriminate|]. intros H. specialize (H O ltac:(lia)).
        rewrite !Nat.add_0_r in H. lia.
      * rewrite IH. split; intros H i Hi.
        -- destruct i as [|i].
           ++ rewrite !Nat.add_0_r. lia.
           ++ specialize (H i ltac:(lia)).
              now rewrite <- !Nat.add_succ_comm.
        -- specialize (H (S i) ltac:(lia)).
           now rewrite <- !Nat.add_succ_comm in H.
Qed.

(** ** Hasbits *)

Lemma hasbit_mask_pow2 (idx : nat) :
  _upb_hasbit_mask idx = 2 ^ Z.of_nat (idx mod 8).
Proof.
  unfold _upb_hasbit_mask. rewrite Z.shiftl_1_l.
  pose proof (Nat.mod_upper_bound idx 8 ltac:(lia)) as Hb.
  apply Z.mod_small. split; [apply Z.pow_nonneg; lia|].
  change 256 with (2 ^ 8). apply Z.pow_lt_mono_r; lia.
Qed.

Lemma hasbit_testbit (msg : upb_Message) (idx : nat) :
  _upb_hasbit msg idx =
  Z.testbit (mem msg (_upb_hasbit_ofs idx)) (Z.of_nat (idx mod 8)).
Proof.
  unfold _upb_hasbit. rewrite hasbit_mask_pow2.
  set (b := mem msg (_upb_hasbit_ofs idx)). set (k := Z.of_nat (idx mod 8)).
  assert (Hk : 0 <= k) by (unfold k; lia).
  destruct (Z.testbit b k) eqn:Hb.
  - apply negb_true_iff, Z.eqb_neq. intros H.
    assert (Ht : Z.testbit (Z.land b (2 ^ k)) k = true).
    { rewrite Z.land_spec, Hb, Z.pow2_bits_true by lia. reflexivity. }
    rewrite H in Ht. now rewrite Z.bits_0 in Ht.
  - apply negb_false_iff, Z.eqb_eq. apply Z.bits_inj'. intros n Hn.
    rewrite Z.land_spec, Z.bits_0, Z.pow2_bits_eqb by lia.
    destruct (Z.eqb_spec k n) as [->|Hne].
    + now rewrite Hb.
    + apply andb_false_r.
Qed.

Lemma sethas_byte_bits (b : Z) (j k : Z) :
  0 <= j < 8 -> 0 <= k < 8 ->
  Z.testbit (Z.lor b (2 ^ j) mod 256) k = Z.testbit b k || (j =? k).
Proof.
  intros Hj Hk. change 256 with (2 ^ 8).
  rewrite Z.mod_pow2_bits_low by lia.
  now rewrite Z.lor_spec, Z.pow2_bits_eqb by lia.
Qed.

Lemma clearhas_byte_bits (b : Z) (j k : Z) :
  0 <= j < 8 -> 0 <= k < 8 ->
  Z.testbit (Z.land b (Z.lnot (2 ^ j)) mod 256) k
  = Z.testbit b k && negb (j =? k).
Proof.
  intros Hj Hk. change 256 with (2 ^ 8).
  rewrite Z.mod_pow2_bits_low by lia.
  now rewrite Z.land_spec, Z.lnot_spec, Z.pow2_bits_eqb by lia.
Qed.

Lemma mod8_bound (idx : nat) : 0 <= Z.of_nat (idx mod 8) < 8.
Proof. pose proof (Nat.mod_upper_bound idx 8 ltac:(lia)). lia. Qed.

Lemma hasbit_sethas_same (msg : upb_Message) (idx : nat) :
  _upb_hasbit (_upb_sethas msg idx) idx = true.
Proof.
  rewrite hasbit_testbit. unfold _upb_sethas. cbn [mem with_mem].
  rewrite poke_same, hasbit_mask_pow2.
  rewrite sethas_byte_bits by apply mod8_bound.
  rewrite Z.eqb_refl. apply orb_true_r.
Qed.

Lemma hasbit_clearhas_same (msg : upb_Message) (idx : nat) :
  _upb_hasbit (_upb_clearhas msg idx) idx = false.
Proof.
  rewrite hasbit_testbit. unfold _upb_clearhas. cbn [mem with_mem].
  rewrite poke_same, hasbit_mask_pow2.
  rewrite clearhas_byte_bits by apply mod8_bound.
  rewrite Z.eqb_refl. apply andb_false_r.
Qed.

(** ** The transcoder *)

Lemma CopyFieldData_memcpy (to : bytes) (to_ofs : nat) (from : bytes)
  (from_ofs : nat) (f : upb_MiniTableField) :
  _upb_MiniTable_CopyFieldData to to_ofs from from_ofs f
  = memcpy to to_ofs from from_ofs (rep_width (rep f)).
Proof.
  unfold _upb_MiniTable_CopyFieldData, _upb_MiniTableField_GetRep.
  now destruct (rep f).
Qed.

Lemma CopyFieldData_holds_copy (val src : bytes) (src_ofs : nat)
  (f : upb_MiniTableField) :
  holds_copy_of (_upb_MiniTable_CopyFieldData val 0 src src_ofs f) val src
    src_ofs f.
Proof.
  rewrite CopyFieldData_memcpy. split.
  - apply load_memcpy_same.
  - intros a Ha. apply memcpy_outside. lia.
Qed.

Lemma memcmp_zero_nonzero (d : bytes) (n : nat) :
  negb (memcmp zero_bytes 0 d 0 n =? 0) = true
  <-> exists i, (i < n)%nat /\ d i <> 0.
Proof.
  rewrite negb_true_iff, Z.eqb_neq, memcmp_zero_iff. split.
  - intros H.
    assert (Hdec : forall k, (forall i, (i < k)%nat -> d i = 0)
                          \/ exists i, (i < k)%nat /\ d i <> 0).
    { induction k as [|k [IH|[i [Hi Hd]]]].
      - left. intros i Hi. lia.
      - destruct (Z.eq_dec (d k) 0) as [Hk|Hk].
        + left. intros i Hi. destruct (Nat.eq_dec i k) as [->|Hne]; auto.
          apply IH. lia.
        + right. exists k. split; [lia|exact Hk].
      - right. exists i. split; [lia|exact Hd]. }
    destruct (Hdec n) as [Hz|Hnz]; [|exact Hnz].
    exfalso. apply H. intros i Hi. unfold zero_bytes. simpl.
    symmetry. now apply Hz.
  - intros [i [Hi Hd]] H. apply Hd. specialize (H i Hi).
    unfold zero_bytes in H. simpl in H. now symmetry.
Qed.

(** C9.  [_upb_MiniTable_ValueIsNonZero]: for the 1-byte, 4-byte and 8-byte
    classes the value is non-zero exactly when one of its bytes of that width
    is not zero; for the string-view class exactly when the size member is
    not zero, whatever the bytes of the data pointer (offsets 0 to 7) are. *)
Theorem ValueIsNonZero_by_class (default_val : bytes) (f : upb_MiniTableField) :
  match rep f with
  | kUpb_FieldRep_StringView =>
      _upb_MiniTable_ValueIsNonZero default_val f
      = negb (upb_StringView_size default_val =? 0)
      /\ (forall other : bytes,
             load other 8 8 = load default_val 8 8 ->
             _upb_MiniTable_ValueIsNonZero other f
             = _upb_MiniTable_ValueIsNonZero default_val f)
  | r =>
      _upb_MiniTable_ValueIsNonZero default_val f = true
      <-> exists i, (i < rep_width r)%nat /\ default_val i <> 0
  end.
Proof.
  unfold _upb_MiniTable_ValueIsNonZero, _upb_MiniTableField_GetRep.
  destruct (rep f); cbn [rep_width]; try apply memcmp_zero_nonzero.
  split; [reflexivity|].
  intros other H. unfold upb_StringView_size, load_uint.
  unfold offsetof_upb_StringView_size, sizeof_size_t. now rewrite H.
Qed.

(** A string view of length 0 with a data pointer that is not null is the
    zero value; one byte of length makes it non-zero. *)
Example ValueIsNonZero_empty_view :
  let f := {| number := 1; offset := 0; presence := 0;
              rep := kUpb_FieldRep_StringView;
              is_extension := false; is_map := false |} in
  _upb_MiniTable_ValueIsNonZero
    (bytes_of_list [0x10; 0x20; 0; 0; 0; 0; 0; 0; 0; 0; 0; 0; 0; 0; 0; 0]) f
  = false
  /\ _upb_MiniTable_ValueIsNonZero
       (bytes_of_list [0; 0; 0; 0; 0; 0; 0; 0; 0; 0; 1; 0; 0; 0; 0; 0]) f
     = true.
Proof. split; reflexivity. Qed.

(** ** Presence *)

Lemma SetPresence_hasbit (msg : upb_Message) (f : upb_MiniTableField) :
  0 < presence f ->
  _upb_Message_SetPresence msg f
  = Ok (_upb_sethas msg (Z.to_nat (presence f))).
Proof.
  intros H. unfold _upb_Message_SetPresence, _upb_sethas_field,
    _upb_Message_Hasidx.
  apply Z.ltb_lt in H. rewrite H. reflexivity.
Qed.

Lemma SetPresence_oneof (msg : upb_Message) (f : upb_MiniTableField) :
  presence f < 0 ->
  _upb_Message_SetPresence msg f
  = Ok (with_mem msg
          (store_uint (mem msg) (Z.to_nat (Z.lnot (presence f))) 4 (number f))).
Proof.
  intros H. unfold _upb_Message_SetPresence, _upb_MiniTableField_InOneOf,
    _upb_oneofcase_field, _upb_oneofcase_ofs.
  destruct (Z.ltb_spec 0 (presence f)); [lia|].
  apply Z.ltb_lt in H. rewrite H. reflexivity.
Qed.

Lemma SetPresence_implicit (msg : upb_Message) (f : upb_MiniTableField) :
  presence f = 0 -> _upb_Message_SetPresence msg f = Ok msg.
Proof.
  intros H. unfold _upb_Message_SetPresence, _upb_MiniTableField_InOneOf.
  now rewrite H.
Qed.

(** C8.  [_upb_Message_SetPresence]: with a positive presence it sets the
    hasbit of that index, the bit [1 << (presence % 8)] of the byte at offset
    [presence / 8], and changes no other bit of the message; with a negative
    presence it writes the field number into the 4 bytes of the case slot at
    offset [~presence] and changes no other byte; with presence 0 it leaves
    the message as it is. *)
Theorem SetPresence_by_presence (msg : upb_Message) (f : upb_MiniTableField) :
  (0 < presence f ->
   let idx := Z.to_nat (presence f) in
   exists msg',
     _upb_Message_SetPresence msg f = Ok msg'
     /\ internal msg' = internal msg
     /\ _upb_hasbit msg' idx = true
     /\ mem msg' (idx / 8)%nat
        = Z.lor (mem msg (idx / 8)%nat) (Z.shiftl 1 (Z.of_nat (idx mod 8)))
          mod 256
     /\ Z.testbit (mem msg' (idx / 8)%nat) (Z.of_nat (idx mod 8)) = true
     /\ (forall k, 0 <= k < 8 -> k <> Z.of_nat (idx mod 8) ->
           Z.testbit (mem msg' (idx / 8)%nat) k
           = Z.testbit (mem msg (idx / 8)%nat) k)
     /\ (forall a, a <> (idx / 8)%nat -> mem msg' a = mem msg a))
  /\ (presence f < 0 ->
      let slot := Z.to_nat (Z.lnot (presence f)) in
      exists msg',
        _upb_Message_SetPresence msg f = Ok msg'
        /\ internal msg' = internal msg
        /\ load (mem msg') slot 4 = le_encode 4 (number f)
        /\ _upb_getoneofcase_field msg' f = Ok (number f mod 2 ^ 32)
        /\ (forall a, (a < slot \/ slot + 4 <= a)%nat -> mem msg' a = mem msg a))
  /\ (presence f = 0 -> _upb_Message_SetPresence msg f = Ok msg).
Proof.
  split; [|split].
  - intros H idx. exists (_upb_sethas msg idx).
    split; [now apply SetPresence_hasbit|].
    split; [reflexivity|].
    split; [apply hasbit_sethas_same|].
    unfold _upb_sethas, _upb_hasbit_ofs. cbn [mem with_mem].
    rewrite poke_same, hasbit_mask_pow2, <- Z.shiftl_1_l.
    split; [reflexivity|]. rewrite Z.shiftl_1_l.
    split; [|split].
    + rewrite sethas_byte_bits by apply mod8_bound.
      rewrite Z.eqb_refl. apply orb_true_r.
    + intros k Hk Hne. rewrite sethas_byte_bits by (apply mod8_bound || lia).
      destruct (Z.eqb_spec (Z.of_nat (idx mod 8)) k); [lia|].
      apply orb_false_r.
    + intros a Ha. now apply poke_other.
  - intros H slot. eexists. split; [now apply SetPresence_oneof|].
    split; [reflexivity|]. cbn [mem with_mem]. fold slot.
    split; [apply load_store_uint|]. split.
    + unfold _upb_getoneofcase_field, _upb_oneofcase_field, _upb_oneofcase_ofs.
      apply Z.ltb_lt in H. rewrite H. cbn [UPB_ASSERT bind mem with_mem].
      fold slot. now rewrite load_uint_store_uint.
    + intros a Ha. now apply store_uint_outside.
  - apply SetPresence_implicit.
Qed.

(** The three cases on concrete descriptors: hasbit 10 (bit 2 of byte 1),
    case slot at offset 4 (presence [-5]), and implicit presence. *)
Lemma SetPresence_by_presence_witness :
  let msg := {| internal := None;
                mem := bytes_of_list [0; 1; 0; 0; 0; 0; 0; 0] |} in
  let fd p := {| number := 10; offset := 8; presence := p;
                 rep := kUpb_FieldRep_4Byte;
                 is_extension := false; is_map := false |} in
  (exists msg', _upb_Message_SetPresence msg (fd 10) = Ok msg'
                /\ load (mem msg') 0 8 = [0; 5; 0; 0; 0; 0; 0; 0])
  /\ (exists msg', _upb_Message_SetPresence msg (fd (-5)) = Ok msg'
                   /\ load (mem msg') 0 8 = [0; 1; 0; 0; 10; 0; 0; 0])
  /\ _upb_Message_SetPresence msg (fd 0) = Ok msg.
Proof.
  intros msg fd.
  destruct (SetPresence_by_presence msg (fd 10)) as [H1 _].
  destruct (SetPresence_by_presence msg (fd (-5))) as [_ [H2 _]].
  destruct (SetPresence_by_presence msg (fd 0)) as [_ [_ H3]].
  split; [|split].
  - destruct (H1 ltac:(simpl; lia)) as [m [E _]].
    exists m. split; [exact E|].
    vm_compute in E. injection E as <-. reflexivity.
  - destruct (H2 ltac:(simpl; lia)) as [m [E _]].
    exists m. split; [exact E|].
    vm_compute in E. injection E as <-. reflexivity.
  - apply H3. reflexivity.
Defined.

(** ** Plain fields: has and get *)

Lemma HasNonExtensionField_oneof (msg : upb_Message) (f : upb_MiniTableField) :
  is_extension f = false -> presence f < 0 ->
  _upb_Message_HasNonExtensionField msg f
  = Ok (load_uint (mem msg) (Z.to_nat (Z.lnot (presence f))) 4 =? number f).
Proof.
  intros He Hp.
  unfold _upb_Message_HasNonExtensionField, upb_MiniTableField_HasPresence,
    upb_MiniTableField_IsExtension, _upb_MiniTableField_InOneOf,
    _upb_getoneofcase_field, _upb_oneofcase_field, _upb_oneofcase_ofs.
  rewrite He. destruct (Z.eqb_spec (presence f) 0); [lia|].
  apply Z.ltb_lt in Hp. rewrite Hp. reflexivity.
Qed.

Lemma HasNonExtensionField_hasbit (msg : upb_Message) (f : upb_MiniTableField) :
  is_extension f = false -> 0 < presence f ->
  _upb_Message_HasNonExtensionField msg f
  = Ok (_upb_hasbit msg (Z.to_nat (presence f))).
Proof.
  intros He Hp.
  unfold _upb_Message_HasNonExtensionField, upb_MiniTableField_HasPresence,
    upb_MiniTableField_IsExtension, _upb_MiniTableField_InOneOf,
    _upb_hasbit_field, _upb_Message_Hasidx.
  rewrite He. destruct (Z.eqb_spec (presence f) 0); [lia|].
  destruct (Z.ltb_spec (presence f) 0); [lia|].
  apply Z.ltb_lt in Hp. rewrite Hp. reflexivity.
Qed.

Lemma HasNonExtensionField_total (msg : upb_Message) (f : upb_MiniTableField) :
  is_extension f = false -> presence f <> 0 ->
  exists has, _upb_Message_HasNonExtensionField msg f = Ok has.
Proof.
  intros He Hp. destruct (Z.lt_trichotomy (presence f) 0) as [H|[H|H]].
  - eexists. now apply HasNonExtensionField_oneof.
  - contradiction.
  - eexists. apply HasNonExtensionField_hasbit; [exact He|lia].
Qed.

Lemma InOneOf_presence (f : upb_MiniTableField) :
  _upb_MiniTableField_InOneOf f = true -> presence f <> 0.
Proof. unfold _upb_MiniTableField_InOneOf. intros H%Z.ltb_lt. lia. Qed.

(** The getter, case by case. *)
Lemma GetNonExtensionField_unguarded (msg : upb_Message)
  (f : upb_MiniTableField) (default_val val : bytes) :
  is_extension f = false ->
  _upb_MiniTableField_InOneOf f
  || _upb_MiniTable_ValueIsNonZero default_val f = false ->
  _upb_Message_GetNonExtensionField msg f default_val val
  = Ok (_upb_MiniTable_CopyFieldData val 0 (mem msg) (offset f) f).
Proof.
  intros He Hc. unfold _upb_Message_GetNonExtensionField,
    upb_MiniTableField_IsExtension. rewrite He, Hc. reflexivity.
Qed.

Lemma GetNonExtensionField_guarded (msg : upb_Message)
  (f : upb_MiniTableField) (default_val val : bytes) (has : bool) :
  is_extension f = false ->
  _upb_MiniTableField_InOneOf f
  || _upb_MiniTable_ValueIsNonZero default_val f = true ->
  _upb_Message_HasNonExtensionField msg f = Ok has ->
  _upb_Message_GetNonExtensionField msg f default_val val
  = Ok (if has
        then _upb_MiniTable_CopyFieldData val 0 (mem msg) (offset f) f
        else _upb_MiniTable_CopyFieldData val 0 default_val 0 f).
Proof.
  intros He Hc Hh. unfold _upb_Message_GetNonExtensionField,
    upb_MiniTableField_IsExtension. rewrite He, Hc, Hh.
  cbn [negb UPB_ASSUME UPB_ASSERT bind]. now destruct has.
Qed.

(** C1.  [_upb_Message_GetNonExtensionField] on a plain field whose default,
    when it is not zero, comes with a presence that is not 0: the call
    returns, and [val] receives the default when the field is in a oneof or
    the default is not zero, and the field is not set; in every other case it
    receives the bytes stored at the field's offset. *)
Theorem GetNonExtensionField_default_or_stored (msg : upb_Message)
  (f : upb_MiniTableField) (default_val val : bytes) :
  upb_MiniTableField_IsExtension f = false ->
  (_upb_MiniTable_ValueIsNonZero default_val f = true -> presence f <> 0) ->
  exists out,
    _upb_Message_GetNonExtensionField msg f default_val val = Ok out
    /\ ((_upb_MiniTableField_InOneOf f
         || _upb_MiniTable_ValueIsNonZero default_val f = true
         /\ _upb_Message_HasNonExtensionField msg f = Ok false
         /\ out = _upb_MiniTable_CopyFieldData val 0 default_val 0 f
         /\ holds_copy_of out val default_val 0 f)
        \/ ((_upb_MiniTableField_InOneOf f
             || _upb_MiniTable_ValueIsNonZero default_val f = false
             \/ _upb_Message_HasNonExtensionField msg f = Ok true)
            /\ out = _upb_MiniTable_CopyFieldData val 0 (mem msg) (offset f) f
            /\ holds_copy_of out val (mem msg) (offset f) f)).
Proof.
  unfold upb_MiniTableField_IsExtension. intros He Hpre.
  destruct (_upb_MiniTableField_InOneOf f
            || _upb_MiniTable_ValueIsNonZero default_val f) eqn:Hc.
  - assert (Hp : presence f <> 0).
    { apply orb_true_iff in Hc. destruct Hc as [Hc|Hc].
      - now apply InOneOf_presence.
      - now apply Hpre. }
    destruct (HasNonExtensionField_total msg f He Hp) as [has Hh].
    eexists. split; [now apply (GetNonExtensionField_guarded _ _ _ _ has)|].
    destruct has.
    + right. split; [now right|]. split; [reflexivity|].
      apply CopyFieldData_holds_copy.
    + left. split; [reflexivity|]. split; [exact Hh|]. split; [reflexivity|].
      apply CopyFieldData_holds_copy.
  - eexists. split; [now apply GetNonExtensionField_unguarded|].
    right. split; [now left|]. split; [reflexivity|].
    apply CopyFieldData_holds_copy.
Qed.

(** A 4-byte field with hasbit 1 at offset 4, default 5: unset, the getter
    hands out the default. *)
Lemma GetNonExtensionField_default_or_stored_witness :
  let f := {| number := 1; offset := 4; presence := 1;
              rep := kUpb_FieldRep_4Byte;
              is_extension := false; is_map := false |} in
  let msg := {| internal := None;
                mem := bytes_of_list [0; 0; 0; 0; 9; 9; 9; 9] |} in
  exists out,
    _upb_Message_GetNonExtensionField msg f (bytes_of_list [5; 0; 0; 0])
      zero_bytes = Ok out
    /\ load out 0 4 = [5; 0; 0; 0].
Proof.
  intros f msg.
  destruct (GetNonExtensionField_default_or_stored msg f
              (bytes_of_list [5; 0; 0; 0]) zero_bytes)
    as [out [E _]].
  - reflexivity.
  - intros _. simpl. lia.
  - exists out. split; [exact E|].
    vm_compute in E. injection E as <-. reflexivity.
Defined.

(** ** Plain fields: clear *)

Lemma ClearNonExtensionField_hasbit (msg : upb_Message)
  (f : upb_MiniTableField) :
  0 < presence f ->
  _upb_Message_ClearNonExtensionField msg f
  = Ok (with_mem (_upb_clearhas msg (Z.to_nat (presence f)))
          (_upb_MiniTable_CopyFieldData
             (mem (_upb_clearhas msg (Z.to_nat (presence f)))) (offset f)
             zero_bytes 0 f)).
Proof.
  intros H. unfold _upb_Message_ClearNonExtensionField, _upb_Message_Hasidx.
  apply Z.ltb_lt in H. rewrite H. reflexivity.
Qed.

Lemma ClearNonExtensionField_oneof (msg : upb_Message)
  (f : upb_MiniTableField) :
  presence f < 0 ->
  let slot := Z.to_nat (Z.lnot (presence f)) in
  _upb_Message_ClearNonExtensionField msg f
  = Ok (if load_uint (mem msg) slot 4 =? number f
        then with_mem msg
               (_upb_MiniTable_CopyFieldData
                  (store_uint (mem msg) slot 4 0) (offset f) zero_bytes 0 f)
        else msg).
Proof.
  intros H slot.
  unfold _upb_Message_ClearNonExtensionField, _upb_MiniTableField_InOneOf,
    _upb_oneofcase_field, _upb_oneofcase_ofs.
  destruct (Z.ltb_spec 0 (presence f)); [lia|].
  apply Z.ltb_lt in H. rewrite H. cbn [UPB_ASSERT bind]. fold slot.
  now destruct (load_uint (mem msg) slot 4 =? number f).
Qed.

Lemma ClearNonExtensionField_implicit (msg : upb_Message)
  (f : upb_MiniTableField) :
  presence f = 0 ->
  _upb_Message_ClearNonExtensionField msg f
  = Ok (with_mem msg
          (_upb_MiniTable_CopyFieldData (mem msg) (offset f) zero_bytes 0 f)).
Proof.
  intros H. unfold _upb_Message_ClearNonExtensionField,
    _upb_MiniTableField_InOneOf. now rewrite H.
Qed.

(** C2.  Clearing a member of a oneof that is not the active one (the case
    slot does not hold its number) returns the very message it was given:
    the case slot, the member's storage and every other byte are as
    before. *)
Theorem ClearNonExtensionField_inactive_member (msg : upb_Message)
  (f : upb_MiniTableField) (c : Z) :
  presence f < 0 ->
  _upb_getoneofcase_field msg f = Ok c ->
  c <> number f ->
  _upb_Message_ClearNonExtensionField msg f = Ok msg.
Proof.
  intros Hp Hc Hne. rewrite (ClearNonExtensionField_oneof msg f Hp).
  unfold _upb_getoneofcase_field, _upb_oneofcase_field, _upb_oneofcase_ofs in Hc.
  pose proof Hp as Hp'. apply Z.ltb_lt in Hp'. rewrite Hp' in Hc.
  cbn [UPB_ASSERT bind] in Hc. injection Hc as Hc. rewrite Hc.
  destruct (Z.eqb_spec c (number f)); [contradiction|reflexivity].
Qed.

(** Member 11 of a oneof whose case slot (offset 0) holds 10, the storage
    (offset 4) being member 10's live value. *)
Lemma ClearNonExtensionField_inactive_member_witness :
  let f := {| number := 11; offset := 4; presence := -1;
              rep := kUpb_FieldRep_4Byte;
              is_extension := false; is_map := false |} in
  let msg := {| internal := None;
                mem := bytes_of_list [10; 0; 0; 0; 7; 7; 7; 7] |} in
  _upb_getoneofcase_field msg f = Ok 10
  /\ _upb_Message_ClearNonExtensionField msg f = Ok msg.
Proof.
  intros f msg. split; [reflexivity|].
  apply (ClearNonExtensionField_inactive_member msg f 10).
  - simpl. lia.
  - reflexivity.
  - simpl. lia.
Defined.

(** ** Layout of a descriptor *)

Lemma apart_spec (a n b k : nat) :
  apart a n b k = true <-> (a + n <= b \/ b + k <= a)%nat.
Proof.
  unfold apart. rewrite orb_true_iff, !Nat.leb_le. reflexivity.
Qed.

Lemma hasbit_same_byte (m m' : upb_Message) (idx : nat) :
  mem m' (_upb_hasbit_ofs idx) = mem m (_upb_hasbit_ofs idx) ->
  _upb_hasbit m' idx = _upb_hasbit m idx.
Proof. intros H. unfold _upb_hasbit. now rewrite H. Qed.

Lemma holds_copy_of_same_source (out val src src' : bytes) (o o' : nat)
  (f : upb_MiniTableField) :
  holds_copy_of out val src o f ->
  load src o (rep_width (rep f)) = load src' o' (rep_width (rep f)) ->
  holds_copy_of out val src' o' f.
Proof. intros [H1 H2] H. split; [now rewrite H1|exact H2]. Qed.

Lemma InOneOf_false (f : upb_MiniTableField) :
  0 <= presence f -> _upb_MiniTableField_InOneOf f = false.
Proof. intros H. unfold _upb_MiniTableField_InOneOf. now apply Z.ltb_ge. Qed.

(** Reading a plain field that is set gives the stored bytes, whatever the
    default. *)
Lemma GetNonExtensionField_when_set (msg : upb_Message)
  (f : upb_MiniTableField) (default_val val : bytes) :
  is_extension f = false ->
  _upb_Message_HasNonExtensionField msg f = Ok true ->
  _upb_Message_GetNonExtensionField msg f default_val val
  = Ok (_upb_MiniTable_CopyFieldData val 0 (mem msg) (offset f) f).
Proof.
  intros He Hh.
  destruct (_upb_MiniTableField_InOneOf f
            || _upb_MiniTable_ValueIsNonZero default_val f) eqn:Hc.
  - now rewrite (GetNonExtensionField_guarded _ _ _ _ true).
  - now apply GetNonExtensionField_unguarded.
Qed.

Lemma SetNonExtensionField_unfold (msg msg1 : upb_Message)
  (f : upb_MiniTableField) (val : bytes) :
  is_extension f = false ->
  _upb_Message_SetPresence msg f = Ok msg1 ->
  _upb_Message_SetNonExtensionField msg f val
  = Ok (with_mem msg1
          (_upb_MiniTable_CopyFieldData (mem msg1) (offset f) val 0 f)).
Proof.
  intros He Hs. unfold _upb_Message_SetNonExtensionField,
    upb_MiniTableField_IsExtension. rewrite He, Hs. reflexivity.
Qed.

Lemma ValueIsNonZero_false_zero (d : bytes) (f : upb_MiniTableField) :
  rep f <> kUpb_FieldRep_StringView ->
  _upb_MiniTable_ValueIsNonZero d f = false ->
  load d 0 (rep_width (rep f)) = repeat 0 (rep_width (rep f)).
Proof.
  intros Hr Hz. rewrite <- (load_zero_bytes 0). symmetry.
  apply load_ext. apply memcmp_zero_iff.
  unfold _upb_MiniTable_ValueIsNonZero, _upb_MiniTableField_GetRep in Hz.
  destruct (rep f); try contradiction; cbn [rep_width];
    now apply negb_false_iff, Z.eqb_eq in Hz.
Qed.

(** The bytes a hasbit field reads as.  After a set the field is set and the
    getter hands out the value written; after a clear the field is not set,
    its storage is all zero, and the getter hands out the bytes of the
    default when the default is not zero, and otherwise the all-zero bytes
    of the field's width, which are the bytes of the default in the 1-byte,
    4-byte and 8-byte classes. *)
Lemma hasbit_field_set_then_clear_bytes (msg : upb_Message)
  (f : upb_MiniTableField) (v default_val val : bytes) :
  upb_MiniTableField_IsExtension f = false ->
  0 < presence f ->
  presence_apart f = true ->
  (exists m1 out,
      _upb_Message_SetNonExtensionField msg f v = Ok m1
      /\ _upb_Message_HasNonExtensionField m1 f = Ok true
      /\ _upb_Message_GetNonExtensionField m1 f default_val val = Ok out
      /\ holds_copy_of out val v 0 f)
  /\ (exists m2 out,
         _upb_Message_ClearNonExtensionField msg f = Ok m2
         /\ _upb_Message_HasNonExtensionField m2 f = Ok false
         /\ load (mem m2) (offset f) (rep_width (rep f))
            = repeat 0 (rep_width (rep f))
         /\ _upb_Message_GetNonExtensionField m2 f default_val val = Ok out
         /\ (if _upb_MiniTable_ValueIsNonZero default_val f
             then holds_copy_of out val default_val 0 f
             else holds_copy_of out val zero_bytes 0 f)
         /\ (rep f <> kUpb_FieldRep_StringView ->
             holds_copy_of out val default_val 0 f)).
Proof.
  unfold upb_MiniTableField_IsExtension. intros He Hp Hl.
  unfold presence_apart in Hl. pose proof Hp as Hp'.
  apply Z.ltb_lt in Hp'. rewrite Hp' in Hl. apply apart_spec in Hl.
  set (idx := Z.to_nat (presence f)) in *.
  set (w := rep_width (rep f)) in *.
  split.
  - pose (m0 := _upb_sethas msg idx).
    pose (m1 := with_mem m0
                  (_upb_MiniTable_CopyFieldData (mem m0) (offset f) v 0 f)).
    assert (Hh : _upb_Message_HasNonExtensionField m1 f = Ok true).
    { rewrite HasNonExtensionField_hasbit by assumption. f_equal. fold idx.
      rewrite <- (hasbit_sethas_same msg idx). apply hasbit_same_byte.
      unfold m1. cbn [mem with_mem]. rewrite CopyFieldData_memcpy.
      apply memcpy_outside. fold w. lia. }
    exists m1. eexists.
    split; [apply SetNonExtensionField_unfold;
            [exact He | now apply SetPresence_hasbit]|].
    split; [exact Hh|].
    split; [now apply GetNonExtensionField_when_set|].
    eapply holds_copy_of_same_source; [apply CopyFieldData_holds_copy|].
    unfold m1. cbn [mem with_mem]. rewrite CopyFieldData_memcpy.
    apply load_memcpy_same.
  - pose (m0 := _upb_clearhas msg idx).
    pose (m2 := with_mem m0
                  (_upb_MiniTable_CopyFieldData (mem m0) (offset f)
                     zero_bytes 0 f)).
    assert (Hh : _upb_Message_HasNonExtensionField m2 f = Ok false).
    { rewrite HasNonExtensionField_hasbit by assumption. f_equal. fold idx.
      rewrite <- (hasbit_clearhas_same msg idx). apply hasbit_same_byte.
      unfold m2. cbn [mem with_mem]. rewrite CopyFieldData_memcpy.
      apply memcpy_outside. fold w. lia. }
    assert (Hz : load (mem m2) (offset f) w = load zero_bytes 0 w).
    { unfold m2. cbn [mem with_mem]. rewrite CopyFieldData_memcpy.
      apply load_memcpy_same. }
    assert (Hio : _upb_MiniTableField_InOneOf f = false)
      by (apply InOneOf_false; lia).
    exists m2.
    destruct (_upb_MiniTable_ValueIsNonZero default_val f) eqn:Hnz.
    + eexists. split; [now apply ClearNonExtensionField_hasbit|].
      split; [exact Hh|]. split; [now rewrite Hz, load_zero_bytes|].
      split; [apply (GetNonExtensionField_guarded _ _ _ _ false);
              [exact He | now rewrite Hio, Hnz | exact Hh]|].
      split; [apply CopyFieldData_holds_copy|].
      intros _. apply CopyFieldData_holds_copy.
    + eexists. split; [now apply ClearNonExtensionField_hasbit|].
      split; [exact Hh|]. split; [now rewrite Hz, load_zero_bytes|].
      split; [apply GetNonExtensionField_unguarded;
              [exact He | now rewrite Hio, Hnz]|].
      assert (H0 : holds_copy_of
                     (_upb_MiniTable_CopyFieldData val 0 (mem m2) (offset f) f)
                     val zero_bytes 0 f).
      { eapply holds_copy_of_same_source; [apply CopyFieldData_holds_copy|].
        exact Hz. }
      split; [exact H0|].
      intros Hr. eapply holds_copy_of_same_source; [exact H0|].
      fold w. rewrite load_zero_bytes. symmetry.
      now apply ValueIsNonZero_false_zero.
Qed.

Lemma same_value_of_copy (out val src : bytes) (f : upb_MiniTableField) :
  holds_copy_of out val src 0 f -> same_value (rep f) out src.
Proof.
  intros [H _]. unfold same_value.
  destruct (rep f); cbn [rep_width] in H; try exact H.
  split; [|intros _; exact H].
  unfold upb_StringView_size, load_uint. f_equal.
  apply load_ext. intros i Hi.
  unfold offsetof_upb_StringView_size, sizeof_size_t, sizeof_upb_StringView in *.
  apply (load_eq_inv out src 0 0 16 (8 + i) H). lia.
Qed.

Lemma same_value_of_zero (out val d : bytes) (f : upb_MiniTableField) :
  _upb_MiniTable_ValueIsNonZero d f = false ->
  holds_copy_of out val zero_bytes 0 f -> same_value (rep f) out d.
Proof.
  intros Hz Hc. destruct (rep f) eqn:Hr.
  1,2,4: rewrite <- Hr; apply (same_value_of_copy out val);
    apply (holds_copy_of_same_source out val zero_bytes d 0 0 f Hc);
    rewrite load_zero_bytes; symmetry;
    apply ValueIsNonZero_false_zero; [congruence|exact Hz].
  unfold _upb_MiniTable_ValueIsNonZero, _upb_MiniTableField_GetRep in Hz.
  rewrite Hr in Hz. apply negb_false_iff, Z.eqb_eq in Hz.
  cbn [same_value]. rewrite Hz. split; [|intros H; now elim H].
  destruct Hc as [Hc _]. rewrite Hr in Hc. cbn [rep_width] in Hc.
  unfold upb_StringView_size, load_uint.
  replace (load out offsetof_upb_StringView_size sizeof_size_t)
    with (load zero_bytes 8 8); [reflexivity|].
  apply load_ext. intros i Hi.
  unfold offsetof_upb_StringView_size, sizeof_size_t, sizeof_upb_StringView in *.
  symmetry. apply (load_eq_inv out zero_bytes 0 0 16 (8 + i) Hc). lia.
Qed.

(** C4.  A plain field with a hasbit, the hasbit byte lying outside the
    field's storage as the table builder lays it out.  After a set, [has]
    is true and the getter hands out the value written.  After a clear,
    [has] is false, the bytes of the field's storage are all zero, and the
    getter hands out the default value: the bytes of the default when the
    default is not zero, and the zero value of the class otherwise, which
    is the default byte for byte in the 1-byte, 4-byte and 8-byte classes
    and the view of length 0 in the string-view class. *)
Theorem hasbit_field_set_then_clear (msg : upb_Message)
  (f : upb_MiniTableField) (v default_val val : bytes) :
  upb_MiniTableField_IsExtension f = false ->
  0 < presence f ->
  presence_apart f = true ->
  (exists m1 out,
      _upb_Message_SetNonExtensionField msg f v = Ok m1
      /\ _upb_Message_HasNonExtensionField m1 f = Ok true
      /\ _upb_Message_GetNonExtensionField m1 f default_val val = Ok out
      /\ holds_copy_of out val v 0 f
      /\ same_value (rep f) out v)
  /\ (exists m2 out,
         _upb_Message_ClearNonExtensionField msg f = Ok m2
         /\ _upb_Message_HasNonExtensionField m2 f = Ok false
         /\ load (mem m2) (offset f) (rep_width (rep f))
            = repeat 0 (rep_width (rep f))
         /\ _upb_Message_GetNonExtensionField m2 f default_val val = Ok out
         /\ same_value (rep f) out default_val
         /\ (_upb_MiniTable_ValueIsNonZero default_val f = true ->
             holds_copy_of out val default_val 0 f)
         /\ (rep f <> kUpb_FieldRep_StringView ->
             holds_copy_of out val default_val 0 f)).
Proof.
  intros He Hp Hl.
  destruct (hasbit_field_set_then_clear_bytes msg f v default_val val He Hp Hl)
    as [[m1 [o1 [S1 [S2 [S3 S4]]]]] [m2 [o2 [C1 [C2 [C3 [C4 [C5 C6]]]]]]]].
  split.
  - exists m1, o1. repeat (split; [assumption|]).
    now apply (same_value_of_copy o1 val).
  - exists m2, o2. repeat (split; [assumption|]).
    destruct (_upb_MiniTable_ValueIsNonZero default_val f) eqn:Hnz.
    + split; [now apply (same_value_of_copy o2 val)|].
      split; [intros _; exact C5|exact C6].
    + split; [now apply (same_value_of_zero o2 val)|].
      split; [discriminate|exact C6].
Qed.

(** A 4-byte field at offset 4 with hasbit 1 (bit 1 of byte 0): the value 9
    is written and read back, and after the clear the default 5 is read.  A
    string view at offset 8 with the same hasbit, cleared and read with an
    empty default whose data pointer is not null: the view read is of
    length 0, as the default is. *)
Lemma hasbit_field_set_then_clear_witness :
  let f := {| number := 1; offset := 4; presence := 1;
              rep := kUpb_FieldRep_4Byte;
              is_extension := false; is_map := false |} in
  let s := {| number := 1; offset := 8; presence := 1;
              rep := kUpb_FieldRep_StringView;
              is_extension := false; is_map := false |} in
  let msg := {| internal := None; mem := zero_bytes |} in
  let empty := bytes_of_list [1] in
  (exists m1 out,
      _upb_Message_SetNonExtensionField msg f (bytes_of_list [9; 0; 0; 0])
      = Ok m1
      /\ load (mem m1) 0 8 = [2; 0; 0; 0; 9; 0; 0; 0]
      /\ _upb_Message_GetNonExtensionField m1 f (bytes_of_list [5; 0; 0; 0])
           zero_bytes = Ok out
      /\ load out 0 4 = [9; 0; 0; 0])
  /\ (exists m2 out,
         _upb_Message_ClearNonExtensionField msg f = Ok m2
         /\ _upb_Message_GetNonExtensionField m2 f (bytes_of_list [5; 0; 0; 0])
              zero_bytes = Ok out
         /\ load out 0 4 = [5; 0; 0; 0])
  /\ (exists m2 out,
         _upb_Message_ClearNonExtensionField msg s = Ok m2
         /\ _upb_Message_GetNonExtensionField m2 s empty zero_bytes = Ok out
         /\ upb_StringView_size out = upb_StringView_size empty
         /\ upb_StringView_size empty = 0).
Proof.
  intros f s msg empty.
  destruct (hasbit_field_set_then_clear msg f (bytes_of_list [9; 0; 0; 0])
              (bytes_of_list [5; 0; 0; 0]) zero_bytes)
    as [[m1 [o1 [E1 [_ [G1 _]]]]] [m2 [o2 [E2 [_ [_ [G2 _]]]]]]].
  - reflexivity.
  - simpl. lia.
  - reflexivity.
  - destruct (hasbit_field_set_then_clear msg s zero_bytes empty zero_bytes)
      as [_ [m3 [o3 [E3 [_ [_ [G3 [[V3 _] _]]]]]]]].
    + reflexivity.
    + simpl. lia.
    + reflexivity.
    + split; [|split].
      * exists m1, o1. split; [exact E1|].
        vm_compute in E1. injection E1 as <-.
        split; [reflexivity|]. split; [exact G1|].
        vm_compute in G1. injection G1 as <-. reflexivity.
      * exists m2, o2. split; [exact E2|].
        vm_compute in E2. injection E2 as <-.
        split; [exact G2|].
        vm_compute in G2. injection G2 as <-. reflexivity.
      * exists m3, o3. split; [exact E3|]. split; [exact G3|].
        split; [exact V3|reflexivity].
Defined.

(** ** Well-formed tables *)

Lemma distinct_map_inj {A : Type} (h : A -> Z) (l : list A) (x y : A) :
  distinct (map h l) = true -> In x l -> In y l -> h x = h y -> x = y.
Proof.
  induction l as [|a l IH]; simpl; [contradiction|].
  intros Hd Hx Hy Hxy. apply andb_true_iff in Hd. destruct Hd as [Ha Hd].
  apply negb_true_iff in Ha.
  assert (Hfresh : forall z, In z l -> h a <> h z).
  { intros z Hz Heq.
    assert (existsb (Z.eqb (h a)) (map h l) = true) as Hex.
    { apply existsb_exists. exists (h z). split.
      - now apply in_map.
      - now apply Z.eqb_eq. }
    congruence. }
  destruct Hx as [->|Hx], Hy as [->|Hy]; auto.
  - exfalso. now apply (Hfresh y).
  - exfalso. apply (Hfresh x Hx). now symmetry.
Qed.

Lemma wf_table_field (T : list upb_MiniTableField) (f : upb_MiniTableField) :
  wf_table T = true -> In f T ->
  is_extension f = false /\ 0 < number f < 2 ^ 32.
Proof.
  intros Hw Hf. unfold wf_table in Hw.
  apply andb_true_iff in Hw. destruct Hw as [Hw _].
  rewrite forallb_forall in Hw. specialize (Hw f Hf).
  rewrite !andb_true_iff in Hw. destruct Hw as [[[He H1] H2] _].
  apply negb_true_iff in He. apply Z.ltb_lt in H1, H2. auto.
Qed.

Lemma wf_table_slot (T : list upb_MiniTableField) (f g : upb_MiniTableField) :
  wf_table T = true -> In f T -> In g T -> slot_respected f g = true.
Proof.
  intros Hw Hf Hg. unfold wf_table in Hw.
  apply andb_true_iff in Hw. destruct Hw as [Hw _].
  rewrite forallb_forall in Hw. specialize (Hw f Hf).
  rewrite !andb_true_iff in Hw. destruct Hw as [_ Hs].
  rewrite forallb_forall in Hs. now apply Hs.
Qed.

Lemma wf_table_number_inj (T : list upb_MiniTableField)
  (f g : upb_MiniTableField) :
  wf_table T = true -> In f T -> In g T -> number f = number g -> f = g.
Proof.
  intros Hw. unfold wf_table in Hw.
  apply andb_true_iff in Hw. destruct Hw as [_ Hd].
  now apply distinct_map_inj.
Qed.

Lemma slot_respected_storage (f g : upb_MiniTableField) :
  slot_respected f g = true -> presence f < 0 ->
  apart (case_slot f) 4 (offset g) (rep_width (rep g)) = true.
Proof.
  unfold slot_respected. intros H Hp%Z.ltb_lt. rewrite Hp in H.
  now apply andb_true_iff in H.
Qed.

Lemma slot_respected_hasbit (f g : upb_MiniTableField) :
  slot_respected f g = true -> presence f < 0 -> 0 < presence g ->
  apart (case_slot f) 4 (_upb_hasbit_ofs (Z.to_nat (presence g))) 1 = true.
Proof.
  unfold slot_respected. intros H Hp%Z.ltb_lt Hg%Z.ltb_lt.
  rewrite Hp, Hg in H. now apply andb_true_iff in H.
Qed.

Lemma slot_respected_slot (f g : upb_MiniTableField) :
  slot_respected f g = true -> presence f < 0 -> presence g < 0 ->
  presence g <> presence f ->
  apart (case_slot f) 4 (case_slot g) 4 = true.
Proof.
  unfold slot_respected. intros H Hp%Z.ltb_lt Hg Hne.
  rewrite Hp in H. destruct (Z.ltb_spec 0 (presence g)); [lia|].
  apply Z.ltb_lt in Hg. rewrite Hg in H.
  apply andb_true_iff in H. destruct H as [_ H].
  apply orb_true_iff in H. destruct H as [H%Z.eqb_eq|H]; [contradiction|auto].
Qed.

(** ** What the plain setter and clearer write *)

Lemma load_store_uint_disjoint (b : bytes) (p n : nat) (v : Z) (s k : nat) :
  apart s k p n = true ->
  load (store_uint b p n v) s k = load b s k.
Proof.
  intros H%apart_spec. unfold store_uint. now apply load_memcpy_disjoint.
Qed.

Lemma load_CopyFieldData_disjoint (b : bytes) (g : upb_MiniTableField)
  (src : bytes) (so s k : nat) :
  apart s k (offset g) (rep_width (rep g)) = true ->
  load (_upb_MiniTable_CopyFieldData b (offset g) src so g) s k = load b s k.
Proof.
  intros H%apart_spec. rewrite CopyFieldData_memcpy.
  now apply load_memcpy_disjoint.
Qed.

Lemma load_poke_apart (b : bytes) (p : nat) (v : Z) (s k : nat) :
  apart s k p 1 = true -> load (poke b p v) s k = load b s k.
Proof. intros H%apart_spec. apply load_poke_disjoint. lia. Qed.

Lemma SetNonExtensionField_not_extension (m m' : upb_Message)
  (g : upb_MiniTableField) (v : bytes) :
  _upb_Message_SetNonExtensionField m g v = Ok m' -> is_extension g = false.
Proof.
  unfold _upb_Message_SetNonExtensionField, upb_MiniTableField_IsExtension.
  destruct (is_extension g); [discriminate|reflexivity].
Qed.

(** A range that meets neither the value's storage nor the presence
    bookkeeping of the field is not written by the setter. *)
Lemma SetNonExtensionField_frame (m m' : upb_Message)
  (g : upb_MiniTableField) (v : bytes) (s k : nat) :
  _upb_Message_SetNonExtensionField m g v = Ok m' ->
  apart s k (offset g) (rep_width (rep g)) = true ->
  (0 < presence g ->
   apart s k (_upb_hasbit_ofs (Z.to_nat (presence g))) 1 = true) ->
  (presence g < 0 -> apart s k (case_slot g) 4 = true) ->
  load (mem m') s k = load (mem m) s k.
Proof.
  intros Hs Hv Hh Hc.
  pose proof (SetNonExtensionField_not_extension _ _ _ _ Hs) as He.
  destruct (Z.lt_trichotomy (presence g) 0) as [Hp|[Hp|Hp]].
  - rewrite (SetNonExtensionField_unfold _ _ _ _ He (SetPresence_oneof m g Hp))
      in Hs.
    injection Hs as <-. cbn [mem with_mem].
    rewrite load_CopyFieldData_disjoint by exact Hv.
    apply load_store_uint_disjoint. now apply Hc.
  - rewrite (SetNonExtensionField_unfold _ _ _ _ He
               (SetPresence_implicit m g Hp)) in Hs.
    injection Hs as <-. cbn [mem with_mem].
    now apply load_CopyFieldData_disjoint.
  - rewrite (SetNonExtensionField_unfold _ _ _ _ He (SetPresence_hasbit m g Hp))
      in Hs.
    injection Hs as <-. unfold _upb_sethas. cbn [mem with_mem].
    rewrite load_CopyFieldData_disjoint by exact Hv.
    apply load_poke_apart. now apply Hh.
Qed.

Lemma SetNonExtensionField_internal (m m' : upb_Message)
  (g : upb_MiniTableField) (v : bytes) :
  _upb_Message_SetNonExtensionField m g v = Ok m' -> internal m' = internal m.
Proof.
  intros Hs.
  pose proof (SetNonExtensionField_not_extension _ _ _ _ Hs) as He.
  destruct (Z.lt_trichotomy (presence g) 0) as [Hp|[Hp|Hp]].
  - rewrite (SetNonExtensionField_unfold _ _ _ _ He (SetPresence_oneof m g Hp))
      in Hs. now injection Hs as <-.
  - rewrite (SetNonExtensionField_unfold _ _ _ _ He
               (SetPresence_implicit m g Hp)) in Hs. now injection Hs as <-.
  - rewrite (SetNonExtensionField_unfold _ _ _ _ He (SetPresence_hasbit m g Hp))
      in Hs. now injection Hs as <-.
Qed.

(** The setter of a oneof member leaves the member's number in the slot. *)
Lemma SetNonExtensionField_case (m m' : upb_Message)
  (g : upb_MiniTableField) (v : bytes) :
  _upb_Message_SetNonExtensionField m g v = Ok m' ->
  presence g < 0 ->
  apart (case_slot g) 4 (offset g) (rep_width (rep g)) = true ->
  case_of m' g = number g mod 2 ^ 32.
Proof.
  intros Hs Hp Ha.
  pose proof (SetNonExtensionField_not_extension _ _ _ _ Hs) as He.
  rewrite (SetNonExtensionField_unfold _ _ _ _ He (SetPresence_oneof m g Hp))
    in Hs.
  injection Hs as <-. unfold case_of, load_uint. cbn [mem with_mem].
  rewrite load_CopyFieldData_disjoint by exact Ha.
  fold (case_slot g). now rewrite load_store_uint, le_decode_encode.
Qed.

Lemma ClearNonExtensionField_frame (m m' : upb_Message)
  (g : upb_MiniTableField) (s k : nat) :
  _upb_Message_ClearNonExtensionField m g = Ok m' ->
  apart s k (offset g) (rep_width (rep g)) = true ->
  (0 < presence g ->
   apart s k (_upb_hasbit_ofs (Z.to_nat (presence g))) 1 = true) ->
  (presence g < 0 -> apart s k (case_slot g) 4 = true) ->
  load (mem m') s k = load (mem m) s k.
Proof.
  intros Hs Hv Hh Hc.
  destruct (Z.lt_trichotomy (presence g) 0) as [Hp|[Hp|Hp]].
  - rewrite (ClearNonExtensionField_oneof m g Hp) in Hs.
    injection Hs as <-.
    destruct (load_uint (mem m) (Z.to_nat (Z.lnot (presence g))) 4
              =? number g); [|reflexivity].
    cbn [mem with_mem]. rewrite load_CopyFieldData_disjoint by exact Hv.
    apply load_store_uint_disjoint. now apply Hc.
  - rewrite (ClearNonExtensionField_implicit m g Hp) in Hs.
    injection Hs as <-. cbn [mem with_mem].
    now apply load_CopyFieldData_disjoint.
  - rewrite (ClearNonExtensionField_hasbit m g Hp) in Hs.
    injection Hs as <-. unfold _upb_clearhas. cbn [mem with_mem].
    rewrite load_CopyFieldData_disjoint by exact Hv.
    apply load_poke_apart. now apply Hh.
Qed.

Lemma ClearNonExtensionField_internal (m m' : upb_Message)
  (g : upb_MiniTableField) :
  _upb_Message_ClearNonExtensionField m g = Ok m' -> internal m' = internal m.
Proof.
  intros Hs.
  destruct (Z.lt_trichotomy (presence g) 0) as [Hp|[Hp|Hp]].
  - rewrite (ClearNonExtensionField_oneof m g Hp) in Hs.
    injection Hs as <-.
    now destruct (load_uint (mem m) (Z.to_nat (Z.lnot (presence g))) 4
                  =? number g).
  - rewrite (ClearNonExtensionField_implicit m g Hp) in Hs.
    now injection Hs as <-.
  - rewrite (ClearNonExtensionField_hasbit m g Hp) in Hs.
    now injection Hs as <-.
Qed.

(** The clearer of a oneof member resets the slot when the member is the
    active one, and leaves it alone otherwise. *)
Lemma ClearNonExtensionField_case (m m' : upb_Message)
  (g : upb_MiniTableField) :
  _upb_Message_ClearNonExtensionField m g = Ok m' ->
  presence g < 0 ->
  apart (case_slot g) 4 (offset g) (rep_width (rep g)) = true ->
  case_of m' g = if case_of m g =? number g then 0 else case_of m g.
Proof.
  intros Hs Hp Ha. rewrite (ClearNonExtensionField_oneof m g Hp) in Hs.
  injection Hs as <-. unfold case_of. fold (case_slot g).
  destruct (load_uint (mem m) (case_slot g) 4 =? number g); [|reflexivity].
  unfold load_uint. cbn [mem with_mem].
  rewrite load_CopyFieldData_disjoint by exact Ha.
  now rewrite load_store_uint, le_decode_encode.
Qed.

(** ** The operations on extensions and maps leave the field storage alone *)

Lemma put_extension_mem (m : upb_Message) (p : nat)
  (x : upb_Message_Extension) : mem (put_extension m p x) = mem m.
Proof. unfold put_extension. now destruct (internal m). Qed.

Lemma realloc_internal_mem (m m1 : upb_Message) (need : nat)
  (a a1 : upb_Arena) (ok : bool) :
  realloc_internal m need a = (ok, m1, a1) -> mem m1 = mem m.
Proof.
  unfold realloc_internal. destruct (internal m) as [i|].
  - destruct (ext_begin i <? need)%nat.
    + destruct (upb_Arena_Malloc a (size i + need)) as [p a'].
      destruct (p =? 0); intros H; injection H as _ <- _; reflexivity.
    + intros H. now injection H as _ <- _.
  - destruct (upb_Arena_Malloc a need) as [p a'].
    destruct (p =? 0); intros H; injection H as _ <- _; reflexivity.
Qed.

Lemma GetOrCreateExtension_mem (m m1 : upb_Message)
  (e : upb_MiniTableExtension) (a a1 : upb_Arena) (p : option nat) :
  _upb_Message_GetOrCreateExtension m e a = (p, m1, a1) -> mem m1 = mem m.
Proof.
  unfold _upb_Message_GetOrCreateExtension.
  destruct (_upb_Message_Getext m e).
  - intros H. now injection H as _ <- _.
  - destruct (realloc_internal m sizeof_upb_Message_Extension a)
      as [[ok m2] a2] eqn:Hr.
    apply realloc_internal_mem in Hr. destruct ok.
    + destruct (internal m2) as [i|].
      * intros H. injection H as _ <- _.
        now rewrite put_extension_mem.
      * intros H. now injection H as _ <- _.
    + intros H. now injection H as _ <- _.
Qed.

Lemma SetExtensionField_mem (m m' : upb_Message) (e : upb_MiniTableExtension)
  (v : bytes) (a a' : option upb_Arena) (b : bool) :
  _upb_Message_SetExtensionField m e v a = Ok (b, m', a') -> mem m' = mem m.
Proof.
  unfold _upb_Message_SetExtensionField. destruct a as [ar|]; [|discriminate].
  destruct (_upb_Message_GetOrCreateExtension m e ar) as [[p m1] ar1] eqn:Hg.
  apply GetOrCreateExtension_mem in Hg.
  destruct p; intros H; injection H as _ <- _.
  - now rewrite put_extension_mem.
  - exact Hg.
Qed.

Lemma ClearExtensionField_mem (m : upb_Message) (e : upb_MiniTableExtension) :
  mem (_upb_Message_ClearExtensionField m e) = mem m.
Proof.
  unfold _upb_Message_ClearExtensionField.
  destruct (internal m) as [i|] eqn:Hi; [|reflexivity].
  destruct (_upb_Message_Getext m e); [|reflexivity].
  destruct (internal (put_extension m n (extension_at m (ext_begin i))));
    cbn [mem with_internal]; apply put_extension_mem.
Qed.

(** The map initialiser returns the message it was given, or the one the
    plain setter makes of it. *)
Lemma GetOrCreateMutableMap_message (m m' : upb_Message)
  (f : upb_MiniTableField) (key_size val_size : nat) (a a' : upb_Arena)
  (p : Z) :
  _upb_Message_GetOrCreateMutableMap m f key_size val_size a = Ok (p, m', a') ->
  m' = m \/ exists val, _upb_Message_SetNonExtensionField m f val = Ok m'.
Proof.
  unfold _upb_Message_GetOrCreateMutableMap. intros H.
  bind_inv H. bind_inv H. bind_inv H.
  destruct (load_pointer a2 0 =? 0).
  - destruct (_upb_Map_New a key_size val_size) as [q a3].
    cbv beta iota in H. cbn [bind] in H.
    bind_inv H. injection H as _ <- _.
    right. eexists. eassumption.
  - injection H as _ <- _. now left.
Qed.

(** ** The oneof case slots *)

Lemma case_slot_same (f g : upb_MiniTableField) :
  presence g = presence f -> case_slot g = case_slot f.
Proof. unfold case_slot. now intros ->. Qed.

Lemma case_of_same_load (m m' : upb_Message) (f : upb_MiniTableField) :
  load (mem m') (case_slot f) 4 = load (mem m) (case_slot f) 4 ->
  case_of m' f = case_of m f.
Proof. unfold case_of, load_uint. now intros ->. Qed.

Lemma case_of_same_slot (m : upb_Message) (f g : upb_MiniTableField) :
  presence g = presence f -> case_of m g = case_of m f.
Proof. unfold case_of. intros H. now rewrite (case_slot_same f g H). Qed.

(** A plain setter or clearer on a field outside the oneof of [f] does not
    write the slot of [f]. *)
Lemma slot_apart_other_field (T : list upb_MiniTableField)
  (f g : upb_MiniTableField) :
  wf_table T = true -> In f T -> In g T -> presence f < 0 ->
  presence g <> presence f ->
  apart (case_slot f) 4 (offset g) (rep_width (rep g)) = true
  /\ (0 < presence g ->
      apart (case_slot f) 4 (_upb_hasbit_ofs (Z.to_nat (presence g))) 1 = true)
  /\ (presence g < 0 -> apart (case_slot f) 4 (case_slot g) 4 = true).
Proof.
  intros Hw Hf Hg Hp Hne. pose proof (wf_table_slot T f g Hw Hf Hg) as Hs.
  split; [now apply slot_respected_storage|]. split.
  - now apply slot_respected_hasbit.
  - intros Hgp. now apply slot_respected_slot.
Qed.

Lemma set_case_effect (T : list upb_MiniTableField) (m m' : upb_Message)
  (f g : upb_MiniTableField) (v : bytes) :
  wf_table T = true -> In f T -> In g T -> presence f < 0 ->
  _upb_Message_SetNonExtensionField m g v = Ok m' ->
  case_of m' f = if presence g =? presence f then number g else case_of m f.
Proof.
  intros Hw Hf Hg Hp Hs. destruct (Z.eqb_spec (presence g) (presence f)) as [E|E].
  - rewrite <- (case_of_same_slot m' f g E).
    rewrite (SetNonExtensionField_case m m' g v Hs).
    + apply Z.mod_small. pose proof (wf_table_field T g Hw Hg). lia.
    + lia.
    + apply slot_respected_storage; [|lia]. now apply (wf_table_slot T).
  - apply case_of_same_load.
    destruct (slot_apart_other_field T f g Hw Hf Hg Hp E) as [H1 [H2 H3]].
    now apply (SetNonExtensionField_frame m m' g v).
Qed.

Lemma clear_case_effect (T : list upb_MiniTableField) (m m' : upb_Message)
  (f g : upb_MiniTableField) :
  wf_table T = true -> In f T -> In g T -> presence f < 0 ->
  _upb_Message_ClearNonExtensionField m g = Ok m' ->
  case_of m' f
  = if (presence g =? presence f) && (case_of m f =? number g)
    then 0 else case_of m f.
Proof.
  intros Hw Hf Hg Hp Hs. destruct (Z.eqb_spec (presence g) (presence f)) as [E|E].
  - rewrite <- !(case_of_same_slot _ f g E). cbn [andb].
    apply (ClearNonExtensionField_case m m' g Hs); [lia|].
    apply slot_respected_storage; [|lia]. now apply (wf_table_slot T).
  - cbn [andb]. apply case_of_same_load.
    destruct (slot_apart_other_field T f g Hw Hf Hg Hp E) as [H1 [H2 H3]].
    now apply (ClearNonExtensionField_frame m m' g).
Qed.

(** What one operation does to the case slot of the oneof of [f]. *)
Lemma run_case_effect (T : list upb_MiniTableField) (o : accessor_op)
  (m m' : upb_Message) (f : upb_MiniTableField) :
  wf_table T = true -> op_of_table T o -> In f T -> presence f < 0 ->
  run o m = Ok m' ->
  case_of m' f = case_of m f
  \/ op_in_oneof_of f o = true
     /\ (case_of m' f = 0
         \/ exists g, op_field o = Some g /\ case_of m' f = number g).
Proof.
  intros Hw Ho Hf Hp Hr. destruct o as [g v|g|e v a|e|g ks vs a];
    cbn [run op_of_table op_field op_in_oneof_of] in *.
  - rewrite (set_case_effect T m m' f g v Hw Hf Ho Hp Hr).
    destruct (presence g =? presence f); [|now left].
    right. split; [reflexivity|]. right. now exists g.
  - rewrite (clear_case_effect T m m' f g Hw Hf Ho Hp Hr).
    destruct (presence g =? presence f); [|now left]. cbn [andb].
    destruct (case_of m f =? number g); [|now left].
    right. split; [reflexivity|]. now left.
  - bind_inv Hr. destruct a0 as [[b m1] a1]. injection Hr as <-.
    cbn [fst snd]. left. apply case_of_same_load.
    now rewrite (SetExtensionField_mem _ _ _ _ _ _ _ E).
  - injection Hr as <-. left. apply case_of_same_load.
    now rewrite ClearExtensionField_mem.
  - bind_inv Hr. destruct a0 as [[p m1] a1]. injection Hr as <-.
    cbn [fst snd].
    destruct (GetOrCreateMutableMap_message _ _ _ _ _ _ _ _ E) as [->|[v Hs]];
      [now left|].
    rewrite (set_case_effect T m m1 f g v Hw Hf Ho Hp Hs).
    destruct (presence g =? presence f); [|now left].
    right. split; [reflexivity|]. right. now exists g.
Qed.

Lemma case_slots_valid_fresh (T : list upb_MiniTableField) :
  case_slots_valid T fresh_message.
Proof. intros f _ _. now left. Qed.

Lemma case_slots_valid_run (T : list upb_MiniTableField) (o : accessor_op)
  (m m' : upb_Message) :
  wf_table T = true -> op_of_table T o -> run o m = Ok m' ->
  case_slots_valid T m -> case_slots_valid T m'.
Proof.
  intros Hw Ho Hr Hv f Hf Hp.
  destruct (run_case_effect T o m m' f Hw Ho Hf Hp Hr)
    as [E|[Hin [E|[g [Hg E]]]]].
  - rewrite E. now apply Hv.
  - now left.
  - right. exists g. unfold op_in_oneof_of in Hin. rewrite Hg in Hin.
    unfold op_of_table in Ho. rewrite Hg in Ho.
    split; [exact Ho|]. split; [now apply Z.eqb_eq|].
    split; [now symmetry|].
    intros g' Hg' Hn. apply (wf_table_number_inj T); auto. congruence.
Qed.

Lemma case_slots_valid_run_all (T : list upb_MiniTableField)
  (os : list accessor_op) (m m' : upb_Message) :
  wf_table T = true -> Forall (op_of_table T) os -> run_all os m = Ok m' ->
  case_slots_valid T m -> case_slots_valid T m'.
Proof.
  intros Hw Hos. revert m. induction Hos as [|o os Ho Hos IH]; intros m Hr Hv.
  - simpl in Hr. now injection Hr as <-.
  - cbn [run_all] in Hr. bind_inv Hr.
    apply (IH a Hr). now apply (case_slots_valid_run T o m a).
Qed.

(** C7.  On a message of a well-formed table, every case slot holds 0 or the
    number of exactly one member of its oneof: that holds for a fresh message
    and is kept by every sequence of operations.  The setter of a member
    leaves the member's number, which is not 0, in the slot; the clearer
    resets the slot to 0 when the member is the active one and leaves it
    alone otherwise; an operation that is not given a member of the oneof
    does not change the slot. *)
Theorem oneof_case_slot_invariant (T : list upb_MiniTableField) :
  wf_table T = true ->
  case_slots_valid T fresh_message
  /\ (forall os m m',
         Forall (op_of_table T) os -> case_slots_valid T m ->
         run_all os m = Ok m' -> case_slots_valid T m')
  /\ (forall m m' f v,
         In f T -> presence f < 0 ->
         _upb_Message_SetNonExtensionField m f v = Ok m' ->
         _upb_getoneofcase_field m' f = Ok (number f) /\ number f <> 0)
  /\ (forall m m' f,
         In f T -> presence f < 0 ->
         _upb_Message_ClearNonExtensionField m f = Ok m' ->
         case_of m' f = if case_of m f =? number f then 0 else case_of m f)
  /\ (forall o m m' f,
         op_of_table T o -> In f T -> presence f < 0 ->
         run o m = Ok m' -> op_in_oneof_of f o = false ->
         case_of m' f = case_of m f).
Proof.
  intros Hw. split; [apply case_slots_valid_fresh|]. split; [|split; [|split]].
  - intros os m m' Hos Hv Hr.
    now apply (case_slots_valid_run_all T os m m').
  - intros m m' f v Hf Hp Hs. pose proof (wf_table_field T f Hw Hf) as [_ Hn].
    split; [|lia].
    unfold _upb_getoneofcase_field, _upb_oneofcase_field, _upb_oneofcase_ofs.
    pose proof Hp as Hp'. apply Z.ltb_lt in Hp'. rewrite Hp'.
    cbn [UPB_ASSERT bind]. f_equal.
    pose proof (set_case_effect T m m' f f v Hw Hf Hf Hp Hs) as E.
    now rewrite Z.eqb_refl in E.
  - intros m m' f Hf Hp Hc.
    pose proof (clear_case_effect T m m' f f Hw Hf Hf Hp Hc) as E.
    now rewrite Z.eqb_refl in E.
  - intros o m m' f Ho Hf Hp Hr Hn.
    destruct (run_case_effect T o m m' f Hw Ho Hf Hp Hr) as [E|[Hin _]];
      [exact E|congruence].
Qed.

(** The oneof of the members B (number 10, a string view) and C (number 11,
    4 bytes), with the case slot at offset 0 and the shared storage at
    offset 8: B is set, then C is set, then C is cleared. *)
Lemma oneof_case_slot_invariant_witness :
  let B := {| number := 10; offset := 8; presence := -1;
              rep := kUpb_FieldRep_StringView;
              is_extension := false; is_map := false |} in
  let C := {| number := 11; offset := 8; presence := -1;
              rep := kUpb_FieldRep_4Byte;
              is_extension := false; is_map := false |} in
  wf_table [B; C] = true
  /\ (exists m1, run_all [op_set B (bytes_of_list [120])] fresh_message = Ok m1
                 /\ case_of m1 B = 10 /\ case_slots_valid [B; C] m1)
  /\ (exists m3,
         run_all [op_set B (bytes_of_list [120]);
                  op_set C (bytes_of_list [9]); op_clear C] fresh_message
         = Ok m3
         /\ case_of m3 B = 0 /\ case_slots_valid [B; C] m3).
Proof.
  intros B C.
  destruct (oneof_case_slot_invariant [B; C] eq_refl) as [H0 [H1 _]].
  split; [reflexivity|]. split.
  - eexists. split; [reflexivity|]. split; [reflexivity|].
    apply (H1 [op_set B (bytes_of_list [120])] fresh_message);
      [|exact H0|reflexivity].
    repeat (apply Forall_cons; [unfold op_of_table; simpl; now auto|]).
    apply Forall_nil.
  - eexists. split; [reflexivity|]. split; [reflexivity|].
    apply (H1 [op_set B (bytes_of_list [120]);
               op_set C (bytes_of_list [9]); op_clear C] fresh_message);
      [|exact H0|reflexivity].
    repeat (apply Forall_cons; [unfold op_of_table; simpl; now auto|]).
    apply Forall_nil.
Defined.

(** ** The window of extensions *)

Lemma sizeof_ext_pos : (0 < sizeof_upb_Message_Extension)%nat.
Proof. unfold sizeof_upb_Message_Extension. lia. Qed.

Lemma find_extension_some (m : nat -> upb_Message_Extension) (e p n q : nat) :
  find_extension m e p n = Some q ->
  exists k, (k < n)%nat /\ q = (p + k * sizeof_upb_Message_Extension)%nat
            /\ ext (m q) = e.
Proof.
  revert p. induction n as [|n IH]; intros p; simpl; [discriminate|].
  destruct (Nat.eqb_spec (ext (m p)) e) as [He|He].
  - intros H. injection H as <-. exists O. split; [lia|].
    split; [unfold sizeof_upb_Message_Extension; lia|exact He].
  - intros H. destruct (IH _ H) as [k [Hk [Hq Hm]]].
    exists (S k). split; [lia|]. split; [|exact Hm].
    unfold sizeof_upb_Message_Extension in *. lia.
Qed.

Lemma find_extension_none (m : nat -> upb_Message_Extension) (e p n : nat) :
  find_extension m e p n = None <->
  forall k, (k < n)%nat ->
            ext (m (p + k * sizeof_upb_Message_Extension)%nat) <> e.
Proof.
  revert p. induction n as [|n IH]; intros p; simpl.
  - split; [intros _ k Hk; lia|reflexivity].
  - destruct (Nat.eqb_spec (ext (m p)) e) as [He|He].
    + split; [discriminate|]. intros H. exfalso. apply (H O); [lia|].
      simpl. now rewrite Nat.add_0_r.
    + rewrite IH. split; intros H k Hk.
      * destruct k as [|k]; [simpl; now rewrite Nat.add_0_r|].
        specialize (H k ltac:(lia)).
        replace (p + S k * sizeof_upb_Message_Extension)%nat
          with (p + sizeof_upb_Message_Extension
                + k * sizeof_upb_Message_Extension)%nat by (unfold sizeof_upb_Message_Extension; lia).
        exact H.
      * specialize (H (S k) ltac:(lia)).
        replace (p + S k * sizeof_upb_Message_Extension)%nat
          with (p + sizeof_upb_Message_Extension
                + k * sizeof_upb_Message_Extension)%nat in H by (unfold sizeof_upb_Message_Extension; lia).
        exact H.
Qed.

Lemma find_extension_first (m : nat -> upb_Message_Extension) (e p n k : nat) :
  (k < n)%nat ->
  ext (m (p + k * sizeof_upb_Message_Extension)%nat) = e ->
  (forall j, (j < k)%nat ->
             ext (m (p + j * sizeof_upb_Message_Extension)%nat) <> e) ->
  find_extension m e p n = Some (p + k * sizeof_upb_Message_Extension)%nat.
Proof.
  revert p n. induction k as [|k IH]; intros p n Hk He Hfirst.
  - destruct n as [|n]; [lia|]. simpl in *. rewrite Nat.add_0_r in *.
    apply Nat.eqb_eq in He. now rewrite He.
  - destruct n as [|n]; [lia|]. cbn [find_extension].
    pose proof (Hfirst O ltac:(lia)) as H0. simpl in H0.
    rewrite Nat.add_0_r in H0. apply Nat.eqb_neq in H0. rewrite H0.
    replace (p + S k * sizeof_upb_Message_Extension)%nat
      with (p + sizeof_upb_Message_Extension
            + k * sizeof_upb_Message_Extension)%nat in * by (unfold sizeof_upb_Message_Extension; lia).
    apply IH; [lia|exact He|].
    intros j Hj. specialize (Hfirst (S j) ltac:(lia)).
    replace (p + S j * sizeof_upb_Message_Extension)%nat
      with (p + sizeof_upb_Message_Extension
            + j * sizeof_upb_Message_Extension)%nat in Hfirst by (unfold sizeof_upb_Message_Extension; lia).
    exact Hfirst.
Qed.

(** In a window without duplicates an entry that refers to the descriptor is
    the one the lookup finds. *)
Lemma find_extension_unique (m : nat -> upb_Message_Extension) (e p n k : nat) :
  (forall j j', (j < n)%nat -> (j' < n)%nat ->
     ext (m (p + j * sizeof_upb_Message_Extension)%nat)
     = ext (m (p + j' * sizeof_upb_Message_Extension)%nat) -> j = j') ->
  (k < n)%nat ->
  ext (m (p + k * sizeof_upb_Message_Extension)%nat) = e ->
  find_extension m e p n = Some (p + k * sizeof_upb_Message_Extension)%nat.
Proof.
  intros Hu Hk He. apply find_extension_first; [exact Hk|exact He|].
  intros j Hj Hje. assert (j = k) by (apply Hu; [lia|lia|congruence]). lia.
Qed.

Lemma window_ids_nth (i : upb_Message_InternalData) (k : nat) :
  (k < extension_count i)%nat ->
  nth k (window_ids i) O
  = ext (ext_mem i (ext_begin i + k * sizeof_upb_Message_Extension)%nat).
Proof.
  intros Hk. unfold window_ids.
  set (h := fun k => ext (ext_mem i
                 (ext_begin i + k * sizeof_upb_Message_Extension)%nat)).
  rewrite (nth_indep _ O (h O)) by (now rewrite length_map, length_seq).
  rewrite (map_nth h), seq_nth by exact Hk. reflexivity.
Qed.

Lemma window_ids_length (i : upb_Message_InternalData) :
  length (window_ids i) = extension_count i.
Proof. unfold window_ids. now rewrite length_map, length_seq. Qed.

Lemma window_unique_iff (i : upb_Message_InternalData) :
  NoDup (window_ids i) <->
  forall j k, (j < extension_count i)%nat -> (k < extension_count i)%nat ->
    ext (ext_mem i (ext_begin i + j * sizeof_upb_Message_Extension)%nat)
    = ext (ext_mem i (ext_begin i + k * sizeof_upb_Message_Extension)%nat) ->
    j = k.
Proof.
  rewrite (NoDup_nth (window_ids i) O), window_ids_length.
  split; intros H j k Hj Hk E.
  - apply H; [exact Hj|exact Hk|]. now rewrite !window_ids_nth.
  - apply H; [exact Hj|exact Hk|]. now rewrite !window_ids_nth in E.
Qed.

(** ** Clearing an extension *)

Lemma ClearExtensionField_found (msg : upb_Message)
  (E : upb_MiniTableExtension) (i : upb_Message_InternalData) (p : nat) :
  internal msg = Some i -> _upb_Message_Getext msg E = Some p ->
  _upb_Message_ClearExtensionField msg E = with_internal msg (cleared_window i p).
Proof.
  intros Hi Hg. unfold _upb_Message_ClearExtensionField, put_extension,
    extension_at. rewrite Hi, Hg. reflexivity.
Qed.

Lemma cleared_window_count (i : upb_Message_InternalData) (p : nat) :
  (1 <= extension_count i)%nat ->
  extension_count (cleared_window i p) = (extension_count i - 1)%nat.
Proof.
  unfold extension_count. cbn [size ext_begin cleared_window].
  set (S := sizeof_upb_Message_Extension). intros Hn.
  assert (HS : (0 < S)%nat) by apply sizeof_ext_pos.
  assert (Hge : (S <= size i - ext_begin i)%nat).
  { destruct (Nat.lt_ge_cases (size i - ext_begin i) S) as [Hlt|Hge]; auto.
    rewrite (Nat.div_small _ _ Hlt) in Hn. lia. }
  replace (size i - ext_begin i)%nat
    with ((size i - (ext_begin i + S)) + 1 * S)%nat by lia.
  rewrite Nat.div_add by lia. lia.
Qed.

Lemma cleared_window_entry (i : upb_Message_InternalData) (k j : nat) :
  ext_mem (cleared_window i
             (ext_begin i + k * sizeof_upb_Message_Extension)%nat)
    (ext_begin (cleared_window i
                  (ext_begin i + k * sizeof_upb_Message_Extension)%nat)
     + j * sizeof_upb_Message_Extension)%nat
  = ext_mem i (ext_begin i + moved k j * sizeof_upb_Message_Extension)%nat.
Proof.
  cbn [ext_mem ext_begin cleared_window]. unfold moved.
  destruct (Nat.eqb_spec (S j) k) as [E|E].
  - subst k.
    replace (ext_begin i + sizeof_upb_Message_Extension
             + j * sizeof_upb_Message_Extension)%nat
      with (ext_begin i + S j * sizeof_upb_Message_Extension)%nat
      by (unfold sizeof_upb_Message_Extension; lia).
    rewrite Nat.eqb_refl. f_equal. simpl. lia.
  - replace (ext_begin i + sizeof_upb_Message_Extension
             + j * sizeof_upb_Message_Extension)%nat
      with (ext_begin i + S j * sizeof_upb_Message_Extension)%nat
      by (unfold sizeof_upb_Message_Extension; lia).
    destruct (Nat.eqb_spec
                (ext_begin i + S j * sizeof_upb_Message_Extension)%nat
                (ext_begin i + k * sizeof_upb_Message_Extension)%nat)
      as [E'|E']; [|reflexivity].
    exfalso. apply E. unfold sizeof_upb_Message_Extension in E'. lia.
Qed.

Lemma moved_bound (n k j : nat) :
  (k < n)%nat -> (j < n - 1)%nat -> (moved k j < n)%nat.
Proof. unfold moved. destruct (S j =? k)%nat; lia. Qed.

Lemma moved_not_removed (k j : nat) : moved k j <> k.
Proof. unfold moved. destruct (Nat.eqb_spec (S j) k); lia. Qed.

Lemma moved_inj (k j j' : nat) : moved k j = moved k j' -> j = j'.
Proof.
  unfold moved.
  destruct (Nat.eqb_spec (S j) k); destruct (Nat.eqb_spec (S j') k); lia.
Qed.

Lemma moved_onto (k k' : nat) :
  k' <> k -> exists j, moved k j = k' /\ (k' < k \/ S j = k')%nat
                       /\ (j < Nat.max k k')%nat.
Proof.
  intros Hne. destruct k' as [|k'].
  - exists (k - 1)%nat. unfold moved.
    destruct (Nat.eqb_spec (S (k - 1)) k); lia.
  - exists k'. unfold moved.
    destruct (Nat.eqb_spec (S k') k); lia.
Qed.

(** The window after a removal holds the entries of the window before, the
    removed one left out. *)
Lemma cleared_window_unique (i : upb_Message_InternalData) (k : nat) :
  (k < extension_count i)%nat ->
  NoDup (window_ids i) ->
  NoDup (window_ids
           (cleared_window i
              (ext_begin i + k * sizeof_upb_Message_Extension)%nat)).
Proof.
  intros Hk Hu. rewrite window_unique_iff in Hu. apply window_unique_iff.
  rewrite cleared_window_count by lia. intros j j' Hj Hj'.
  rewrite !cleared_window_entry. intros E.
  apply (moved_inj k). apply Hu; auto using moved_bound.
Qed.

Lemma cleared_window_lookup_none (i : upb_Message_InternalData) (k e : nat) :
  (k < extension_count i)%nat ->
  (forall k', (k' < extension_count i)%nat -> k' <> k ->
     ext (ext_mem i (ext_begin i + k' * sizeof_upb_Message_Extension)%nat)
     <> e) ->
  let i' := cleared_window i
              (ext_begin i + k * sizeof_upb_Message_Extension)%nat in
  find_extension (ext_mem i') e (ext_begin i') (extension_count i') = None.
Proof.
  intros Hk Hne i'. apply find_extension_none. intros j Hj.
  unfold i' in *. rewrite cleared_window_count in Hj by lia.
  rewrite cleared_window_entry.
  apply Hne; [now apply moved_bound|apply moved_not_removed].
Qed.

Lemma cleared_window_lookup_some (i : upb_Message_InternalData)
  (k k' e : nat) :
  (k < extension_count i)%nat -> (k' < extension_count i)%nat -> k' <> k ->
  NoDup (window_ids i) ->
  ext (ext_mem i (ext_begin i + k' * sizeof_upb_Message_Extension)%nat) = e ->
  let i' := cleared_window i
              (ext_begin i + k * sizeof_upb_Message_Extension)%nat in
  exists q,
    find_extension (ext_mem i') e (ext_begin i') (extension_count i') = Some q
    /\ ext_mem i' q
       = ext_mem i (ext_begin i + k' * sizeof_upb_Message_Extension)%nat.
Proof.
  intros Hk Hk' Hne Hu He i'.
  destruct (moved_onto k k' Hne) as [j [Hm [_ Hj]]].
  assert (Hj' : (j < extension_count i')%nat).
  { unfold i'. rewrite cleared_window_count by lia. lia. }
  exists (ext_begin i' + j * sizeof_upb_Message_Extension)%nat. split.
  - apply find_extension_unique; [|exact Hj'|].
    + apply window_unique_iff. unfold i'. now apply cleared_window_unique.
    + unfold i'. rewrite cleared_window_entry, Hm. exact He.
  - unfold i'. now rewrite cleared_window_entry, Hm.
Qed.

Lemma GetExtensionField_unfold (msg : upb_Message)
  (E : upb_MiniTableExtension) (d val : bytes) :
  is_extension (field E) = true ->
  _upb_Message_GetExtensionField msg E d val
  = Ok (match _upb_Message_Getext msg E with
        | Some p => _upb_MiniTable_CopyFieldData val 0
                      (data (extension_at msg p)) 0 (field E)
        | None => _upb_MiniTable_CopyFieldData val 0 d 0 (field E)
        end).
Proof.
  intros He. unfold _upb_Message_GetExtensionField,
    upb_MiniTableField_IsExtension. rewrite He. cbn [UPB_ASSUME UPB_ASSERT bind].
  now destruct (_upb_Message_Getext msg E).
Qed.

(** C3.  Clearing an extension whose entry is in the window of a message
    that holds at most one entry per descriptor.  The block after the call is
    the block before with the front entry copied over the entry found and
    the window starting one entry later, and the field storage is untouched;
    the extension is gone, so [has] is false and the getter hands out the
    default; the getter and [has] of every other extension descriptor give
    what they gave before; and the message still holds at most one entry per
    descriptor. *)
Theorem ClearExtensionField_removes_only_it (msg : upb_Message)
  (E : upb_MiniTableExtension) (p : nat) :
  extensions_unique msg ->
  upb_MiniTableField_IsExtension (field E) = true ->
  _upb_Message_Getext msg E = Some p ->
  let msg' := _upb_Message_ClearExtensionField msg E in
  (exists i i',
      internal msg = Some i /\ internal msg' = Some i'
      /\ size i' = size i
      /\ ext_begin i' = (ext_begin i + sizeof_upb_Message_Extension)%nat
      /\ ext_mem i' p = ext_mem i (ext_begin i)
      /\ (forall o, o <> p -> ext_mem i' o = ext_mem i o))
  /\ mem msg' = mem msg
  /\ _upb_Message_Getext msg' E = None
  /\ _upb_Message_HasExtensionField msg' E = Ok false
  /\ (forall d val,
         _upb_Message_GetExtensionField msg' E d val
         = Ok (_upb_MiniTable_CopyFieldData val 0 d 0 (field E)))
  /\ (forall E' d val,
         ext_id E' <> ext_id E ->
         _upb_Message_GetExtensionField msg' E' d val
         = _upb_Message_GetExtensionField msg E' d val
         /\ _upb_Message_HasExtensionField msg' E'
            = _upb_Message_HasExtensionField msg E')
  /\ extensions_unique msg'.
Proof.
  intros Hu He Hg msg'. unfold upb_MiniTableField_IsExtension in He.
  destruct (internal msg) as [i|] eqn:Hi;
    [|unfold _upb_Message_Getext in Hg; rewrite Hi in Hg; discriminate].
  unfold extensions_unique in Hu. rewrite Hi in Hu.
  pose proof Hg as Hf. unfold _upb_Message_Getext in Hf. rewrite Hi in Hf.
  destruct (find_extension_some _ _ _ _ _ Hf) as [k [Hk [Hp Hid]]].
  assert (Hmsg' : msg' = with_internal msg (cleared_window i p))
    by now apply ClearExtensionField_found.
  pose proof (proj1 (window_unique_iff i) Hu) as Hinj.
  assert (Hnone : _upb_Message_Getext msg' E = None).
  { rewrite Hmsg'. unfold _upb_Message_Getext. cbn [internal with_internal].
    rewrite Hp. apply cleared_window_lookup_none; [exact Hk|].
    intros k' Hk' Hne Hid'. apply Hne. apply Hinj; auto.
    rewrite Hid'. now rewrite <- Hp. }
  split; [|split; [|split; [|split; [|split; [|split]]]]].
  - exists i, (cleared_window i p). rewrite Hmsg'.
    cbn [internal with_internal size ext_begin ext_mem cleared_window].
    repeat split.
    + now rewrite Nat.eqb_refl.
    + intros o Ho. apply Nat.eqb_neq in Ho. now rewrite Ho.
  - now rewrite Hmsg'.
  - exact Hnone.
  - unfold _upb_Message_HasExtensionField, upb_MiniTableField_HasPresence,
      upb_MiniTableField_IsExtension. now rewrite He, Hnone.
  - intros d val. rewrite GetExtensionField_unfold by exact He.
    now rewrite Hnone.
  - intros E' d val Hne.
    assert (Hlook :
      match _upb_Message_Getext msg E' with
      | Some q => exists q', _upb_Message_Getext msg' E' = Some q'
                             /\ extension_at msg' q' = extension_at msg q
      | None => _upb_Message_Getext msg' E' = None
      end).
    { destruct (_upb_Message_Getext msg E') as [q|] eqn:Hq;
        unfold _upb_Message_Getext in Hq; rewrite Hi in Hq.
      - destruct (find_extension_some _ _ _ _ _ Hq) as [k' [Hk' [Hq' Hid']]].
        assert (Hkk : k' <> k).
        { intros ->. apply Hne. rewrite <- Hid, <- Hid'. now rewrite Hp, Hq'. }
        rewrite Hq' in Hid'.
        destruct (cleared_window_lookup_some i k k' (ext_id E') Hk Hk' Hkk Hu
                    Hid') as [q' [Hfind Hent]].
        exists q'. rewrite Hmsg'. unfold _upb_Message_Getext, extension_at.
        cbn [internal with_internal]. rewrite Hi, Hp, Hq'. auto.
      - rewrite Hmsg'. unfold _upb_Message_Getext.
        cbn [internal with_internal]. rewrite Hp.
        apply cleared_window_lookup_none; [exact Hk|].
        intros k' Hk' _. now apply (proj1 (find_extension_none _ _ _ _) Hq). }
    unfold _upb_Message_GetExtensionField, _upb_Message_HasExtensionField.
    destruct (_upb_Message_Getext msg E') as [q|].
    + destruct Hlook as [q' [-> ->]]. auto.
    + rewrite Hlook. auto.
  - rewrite Hmsg'. unfold extensions_unique. cbn [internal with_internal].
    rewrite Hp. now apply cleared_window_unique.
Qed.

(** A window of three extensions, the descriptors at addresses 1, 2 and 3;
    the one at address 2 is cleared: its entry, at byte offset 24, receives
    the copy of the front entry, the window starts at 24, and the extensions
    1 and 3 are still found. *)
Lemma ClearExtensionField_removes_only_it_witness :
  let fd := {| number := 100; offset := 0; presence := 0;
               rep := kUpb_FieldRep_4Byte;
               is_extension := true; is_map := false |} in
  let E n := {| field := fd; ext_id := n |} in
  let entry n := {| ext := n; data := bytes_of_list [Z.of_nat n; 0; 0; 0] |} in
  let msg :=
    {| internal :=
         Some {| size := 72; ext_begin := 0;
                 ext_mem := fun o => if (o =? 0)%nat then entry 1%nat
                                     else if (o =? 24)%nat then entry 2%nat
                                     else if (o =? 48)%nat then entry 3%nat
                                     else null_extension |};
       mem := zero_bytes |} in
  let msg' := _upb_Message_ClearExtensionField msg (E 2%nat) in
  extensions_unique msg
  /\ _upb_Message_Getext msg (E 2%nat) = Some 24%nat
  /\ _upb_Message_HasExtensionField msg' (E 2%nat) = Ok false
  /\ _upb_Message_Getext msg' (E 1%nat) = Some 24%nat
  /\ _upb_Message_Getext msg' (E 3%nat) = Some 48%nat
  /\ extensions_unique msg'.
Proof.
  intros fd E entry msg msg'.
  assert (Hu : extensions_unique msg).
  { unfold extensions_unique. cbn [internal msg].
    change (NoDup [1; 2; 3]%nat).
    repeat constructor; simpl; intuition discriminate. }
  destruct (ClearExtensionField_removes_only_it msg (E 2%nat) 24%nat Hu
              eq_refl eq_refl) as [_ [_ [_ [Hh [_ [_ Hu']]]]]].
  split; [exact Hu|]. split; [reflexivity|]. split; [exact Hh|].
  split; [reflexivity|]. split; [reflexivity|exact Hu'].
Defined.

(** ** The unified setter *)

Lemma SetNonExtensionField_total (msg : upb_Message) (f : upb_MiniTableField)
  (val : bytes) :
  is_extension f = false ->
  exists msg', _upb_Message_SetNonExtensionField msg f val = Ok msg'.
Proof.
  intros He. destruct (Z.lt_trichotomy (presence f) 0) as [Hp|[Hp|Hp]].
  - eexists. eapply SetNonExtensionField_unfold;
      [exact He|now apply SetPresence_oneof].
  - eexists. eapply SetNonExtensionField_unfold;
      [exact He|now apply SetPresence_implicit].
  - eexists. eapply SetNonExtensionField_unfold;
      [exact He|now apply SetPresence_hasbit].
Qed.

(** C5.  [_upb_Message_SetField] on a descriptor without the extension flag
    returns, and returns true, whatever the arena, a null one included.  On
    an extension descriptor, with an arena, it returns true exactly when
    [_upb_Message_GetOrCreateExtension] handed out an entry, found or
    created; when it returns false the message is the one it was given. *)
Theorem SetField_reports_allocation (msg : upb_Message) (fp : field_ptr)
  (val : bytes) :
  (upb_MiniTableField_IsExtension (deref fp) = false ->
   forall a, exists msg',
     _upb_Message_SetField msg fp val a = Ok (true, msg', a))
  /\ (forall e ar,
         fp = extension_field e ->
         upb_MiniTableField_IsExtension (field e) = true ->
         exists flag msg' ar',
           _upb_Message_SetField msg fp val (Some ar)
           = Ok (flag, msg', Some ar')
           /\ (flag = true <->
               exists p, fst (fst (_upb_Message_GetOrCreateExtension msg e ar))
                         = Some p)
           /\ (flag = false -> msg' = msg)).
Proof.
  split.
  - intros He a. unfold upb_MiniTableField_IsExtension in He.
    destruct (SetNonExtensionField_total msg (deref fp) val He) as [msg' Hs].
    exists msg'. unfold _upb_Message_SetField, upb_MiniTableField_IsExtension.
    now rewrite He, Hs.
  - intros e ar -> He.
    unfold _upb_Message_SetField, _upb_Message_SetExtensionField.
    cbn [deref as_extension bind]. rewrite He.
    destruct (_upb_Message_GetOrCreateExtension msg e ar) as [[p msg1] ar1]
      eqn:Hg.
    cbn [fst]. destruct p as [p|].
    + eexists. eexists. eexists. split; [reflexivity|].
      split; [split; eauto|discriminate].
    + exists false, msg1, ar1. split; [reflexivity|].
      split; [split; [discriminate|intros [p Hp]; discriminate]|].
      intros _. unfold _upb_Message_GetOrCreateExtension in Hg.
      destruct (_upb_Message_Getext msg e); [discriminate|].
      destruct (realloc_internal msg sizeof_upb_Message_Extension ar)
        as [[ok m2] a2].
      destruct ok; [destruct (internal m2); [discriminate|]|];
        now injection Hg as <- _.
Qed.

(** A plain field set with a null arena, and an extension set on an arena
    that is exhausted and on one that is not. *)
Lemma SetField_reports_allocation_witness :
  let f := {| number := 1; offset := 4; presence := 1;
              rep := kUpb_FieldRep_4Byte;
              is_extension := false; is_map := false |} in
  let e := {| field := {| number := 100; offset := 0; presence := 0;
                          rep := kUpb_FieldRep_4Byte;
                          is_extension := true; is_map := false |};
              ext_id := 7 |} in
  let empty := {| arena_supply := []; arena_maps := [] |} in
  let full := {| arena_supply := [4096]; arena_maps := [] |} in
  (exists msg', _upb_Message_SetField fresh_message (plain_field f)
                  (bytes_of_list [9]) None = Ok (true, msg', None))
  /\ _upb_Message_SetField fresh_message (extension_field e)
       (bytes_of_list [9]) (Some empty)
     = Ok (false, fresh_message, Some empty)
  /\ (exists msg' ar',
         _upb_Message_SetField fresh_message (extension_field e)
           (bytes_of_list [9]) (Some full) = Ok (true, msg', Some ar')
         /\ _upb_Message_HasExtensionField msg' e = Ok true).
Proof.
  intros f e empty full.
  destruct (SetField_reports_allocation fresh_message (plain_field f)
              (bytes_of_list [9])) as [H1 _].
  destruct (SetField_reports_allocation fresh_message (extension_field e)
              (bytes_of_list [9])) as [_ H2].
  split; [apply H1; reflexivity|]. split.
  - destruct (H2 e empty eq_refl eq_refl) as [flag [msg' [ar' [E [_ Hsame]]]]].
    destruct flag.
    + vm_compute in E. discriminate E.
    + rewrite E, (Hsame eq_refl). vm_compute in E. now injection E as _ <-.
  - eexists. eexists. split; reflexivity.
Defined.

(** ** Map fields *)

Lemma CheckIsMap_inv (f : upb_MiniTableField) (u : unit) :
  _upb_MiniTableField_CheckIsMap f = Ok u ->
  rep f = kUpb_FieldRep_8Byte /\ is_map f = true.
Proof.
  unfold _upb_MiniTableField_CheckIsMap, _upb_MiniTableField_GetRep.
  destruct (rep f); try discriminate. destruct (is_map f); [auto|discriminate].
Qed.

Lemma CheckIsMap_unit (f : upb_MiniTableField) (u : unit) :
  _upb_MiniTableField_CheckIsMap f = Ok u ->
  _upb_MiniTableField_CheckIsMap f = Ok tt.
Proof. now destruct u. Qed.

Lemma load_pointer_store_pointer (b : bytes) (ofs : nat) (p : Z) :
  0 <= p < 2 ^ 64 -> load_pointer (store_pointer b ofs p) ofs = p.
Proof.
  intros Hp. unfold load_pointer, store_pointer.
  rewrite load_uint_store_uint. now apply Z.mod_small.
Qed.

Lemma load_pointer_copy (b src : bytes) (to so : nat) (f : upb_MiniTableField) :
  rep f = kUpb_FieldRep_8Byte ->
  load_pointer (_upb_MiniTable_CopyFieldData b to src so f) to
  = load_pointer src so.
Proof.
  intros Hr. unfold load_pointer, load_uint, sizeof_pointer.
  rewrite CopyFieldData_memcpy, Hr. cbn [rep_width].
  now rewrite load_memcpy_same.
Qed.

Lemma null_default_is_zero (f : upb_MiniTableField) :
  rep f = kUpb_FieldRep_8Byte ->
  _upb_MiniTable_ValueIsNonZero (store_pointer zero_bytes 0 0) f = false.
Proof.
  intros Hr. unfold _upb_MiniTable_ValueIsNonZero, _upb_MiniTableField_GetRep.
  rewrite Hr. reflexivity.
Qed.

(** The getter of a map field, asked with a null default, hands out the
    reference [map_reference] describes. *)
Lemma GetNonExtensionField_map (msg : upb_Message) (f : upb_MiniTableField)
  (buf : bytes) :
  is_extension f = false -> rep f = kUpb_FieldRep_8Byte ->
  exists out,
    _upb_Message_GetNonExtensionField msg f (store_pointer zero_bytes 0 0) buf
    = Ok out
    /\ load_pointer out 0 = map_reference msg f.
Proof.
  intros He Hr. unfold map_reference.
  destruct (_upb_MiniTableField_InOneOf f) eqn:Hio.
  - assert (Hp : presence f < 0)
      by (unfold _upb_MiniTableField_InOneOf in Hio; now apply Z.ltb_lt).
    rewrite (GetNonExtensionField_guarded msg f _ buf
               (case_of msg f =? number f) He);
      [|now rewrite Hio|now apply HasNonExtensionField_oneof].
    eexists. split; [reflexivity|]. cbn [andb].
    destruct (case_of msg f =? number f); cbn [negb].
    + now apply load_pointer_copy.
    + rewrite load_pointer_copy by exact Hr.
      now apply load_pointer_store_pointer.
  - eexists. split.
    + apply GetNonExtensionField_unguarded; [exact He|].
      now rewrite Hio, null_default_is_zero.
    + cbn [andb]. now apply load_pointer_copy.
Qed.

Lemma AssertMapIsUntagged_ok (msg : upb_Message) (f : upb_MiniTableField) :
  is_extension f = false ->
  _upb_MiniTableField_CheckIsMap f = Ok tt ->
  upb_TaggedMessagePtr_IsEmpty (map_reference msg f) = false ->
  _upb_Message_AssertMapIsUntagged msg f = Ok tt.
Proof.
  intros He Hc Ht. destruct (CheckIsMap_inv f tt Hc) as [Hr _].
  unfold _upb_Message_AssertMapIsUntagged. rewrite Hc. cbn [bind].
  destruct (GetNonExtensionField_map msg f zero_bytes He Hr) as [out [-> Ho]].
  cbn [bind]. now rewrite Ho, Ht.
Qed.

Lemma Map_New_range (a : upb_Arena) (key_size val_size : nat) :
  0 <= fst (_upb_Map_New a key_size val_size) < 2 ^ 64.
Proof.
  unfold _upb_Map_New, upb_Arena_Malloc.
  destruct (arena_supply a) as [|q r]; cbn [fst]; [lia|].
  unfold valid_address. destruct (Z.ltb_spec 0 q); cbn [andb]; [|lia].
  destruct (Z.ltb_spec q (2 ^ 64)); lia.
Qed.

Lemma Map_New_trace (a : upb_Arena) (key_size val_size : nat) :
  arena_maps (snd (_upb_Map_New a key_size val_size))
  = (key_size, val_size, fst (_upb_Map_New a key_size val_size))
    :: arena_maps a.
Proof.
  unfold _upb_Map_New, upb_Arena_Malloc.
  now destruct (arena_supply a).
Qed.

(** The field holds a reference: the initialiser hands it out and changes
    neither the message nor the arena. *)
Lemma GetOrCreateMutableMap_found (msg : upb_Message) (f : upb_MiniTableField)
  (key_size val_size : nat) (a : upb_Arena) :
  is_extension f = false ->
  _upb_MiniTableField_CheckIsMap f = Ok tt ->
  map_reference msg f <> 0 ->
  upb_TaggedMessagePtr_IsEmpty (map_reference msg f) = false ->
  _upb_Message_GetOrCreateMutableMap msg f key_size val_size a
  = Ok (map_reference msg f, msg, a).
Proof.
  intros He Hc Hn Ht. destruct (CheckIsMap_inv f tt Hc) as [Hr _].
  unfold _upb_Message_GetOrCreateMutableMap.
  rewrite Hc, (AssertMapIsUntagged_ok msg f He Hc Ht). cbn [bind].
  destruct (GetNonExtensionField_map msg f (store_pointer zero_bytes 0 0) He Hr)
    as [out [-> Ho]].
  cbn [bind]. rewrite Ho. apply Z.eqb_neq in Hn. now rewrite Hn.
Qed.

(** The field holds no reference: the initialiser calls the constructor
    once, stores what it returns, a null reference included, and hands it
    out. *)
Lemma GetOrCreateMutableMap_absent (msg : upb_Message) (f : upb_MiniTableField)
  (key_size val_size : nat) (a : upb_Arena) :
  is_extension f = false ->
  _upb_MiniTableField_CheckIsMap f = Ok tt ->
  map_reference msg f = 0 ->
  exists msg1 val,
    _upb_Message_GetOrCreateMutableMap msg f key_size val_size a
    = Ok (fst (_upb_Map_New a key_size val_size), msg1,
          snd (_upb_Map_New a key_size val_size))
    /\ _upb_Message_SetNonExtensionField msg f val = Ok msg1
    /\ load_pointer (mem msg1) (offset f)
       = fst (_upb_Map_New a key_size val_size).
Proof.
  intros He Hc Hn. destruct (CheckIsMap_inv f tt Hc) as [Hr _].
  assert (Ht : upb_TaggedMessagePtr_IsEmpty (map_reference msg f) = false)
    by now rewrite Hn.
  unfold _upb_Message_GetOrCreateMutableMap.
  rewrite Hc, (AssertMapIsUntagged_ok msg f He Hc Ht). cbn [bind].
  destruct (GetNonExtensionField_map msg f (store_pointer zero_bytes 0 0) He Hr)
    as [out [-> Ho]].
  cbn [bind]. rewrite Ho, Hn. cbn [Z.eqb].
  pose proof (Map_New_range a key_size val_size) as Hrange.
  destruct (_upb_Map_New a key_size val_size) as [p a1]. cbn [fst snd] in *.
  cbn [bind].
  destruct (SetNonExtensionField_total msg f (store_pointer out 0 p) He)
    as [msg1 Hs].
  exists msg1, (store_pointer out 0 p).
  split; [rewrite Hs; cbn [bind];
          now rewrite load_pointer_store_pointer by exact Hrange|].
  split; [exact Hs|].
  destruct (Z.lt_trichotomy (presence f) 0) as [Hp|[Hp|Hp]].
  - rewrite (SetNonExtensionField_unfold _ _ _ _ He (SetPresence_oneof msg f Hp))
      in Hs. injection Hs as <-. cbn [mem with_mem].
    rewrite load_pointer_copy by exact Hr.
    now apply load_pointer_store_pointer.
  - rewrite (SetNonExtensionField_unfold _ _ _ _ He
               (SetPresence_implicit msg f Hp)) in Hs.
    injection Hs as <-. cbn [mem with_mem].
    rewrite load_pointer_copy by exact Hr.
    now apply load_pointer_store_pointer.
  - rewrite (SetNonExtensionField_unfold _ _ _ _ He (SetPresence_hasbit msg f Hp))
      in Hs. injection Hs as <-. cbn [mem with_mem].
    rewrite load_pointer_copy by exact Hr.
    now apply load_pointer_store_pointer.
Qed.

Lemma wf_field_inv (f : upb_MiniTableField) :
  wf_field f = true ->
  is_extension f = false /\ presence_apart f = true /\ 0 < number f < 2 ^ 32.
Proof.
  unfold wf_field. rewrite !andb_true_iff, negb_true_iff, !Z.ltb_lt. tauto.
Qed.

Lemma map_reference_stored_null (msg : upb_Message) (f : upb_MiniTableField) :
  load_pointer (mem msg) (offset f) = 0 -> map_reference msg f = 0.
Proof.
  intros H. unfold map_reference.
  now destruct (_upb_MiniTableField_InOneOf f
                && negb (case_of msg f =? number f)).
Qed.

Lemma map_reference_after_set (msg msg1 : upb_Message)
  (f : upb_MiniTableField) (val : bytes) :
  wf_field f = true ->
  _upb_Message_SetNonExtensionField msg f val = Ok msg1 ->
  map_reference msg1 f = load_pointer (mem msg1) (offset f).
Proof.
  intros Hw Hs. destruct (wf_field_inv f Hw) as [He [Ha Hn]].
  unfold map_reference.
  destruct (_upb_MiniTableField_InOneOf f) eqn:Hio; [|reflexivity].
  assert (Hp : presence f < 0)
    by (unfold _upb_MiniTableField_InOneOf in Hio; now apply Z.ltb_lt).
  rewrite (SetNonExtensionField_case msg msg1 f val Hs Hp).
  - rewrite Z.mod_small by lia. now rewrite Z.eqb_refl.
  - unfold presence_apart in Ha.
    destruct (Z.ltb_spec 0 (presence f)); [lia|].
    apply Z.ltb_lt in Hp. now rewrite Hp in Ha.
Qed.

(** C10.  The field holds a null reference and the constructor fails: the
    initialiser returns null and the field still holds null; called again
    with an arena on which the constructor succeeds, it calls the
    constructor, stores the reference and returns it. *)
Theorem GetOrCreateMutableMap_constructor_fails (msg : upb_Message)
  (f : upb_MiniTableField) (key_size val_size : nat) (a : upb_Arena) :
  upb_MiniTableField_IsExtension f = false ->
  _upb_MiniTableField_CheckIsMap f = Ok tt ->
  load_pointer (mem msg) (offset f) = 0 ->
  fst (_upb_Map_New a key_size val_size) = 0 ->
  exists msg1,
    _upb_Message_GetOrCreateMutableMap msg f key_size val_size a
    = Ok (0, msg1, snd (_upb_Map_New a key_size val_size))
    /\ load_pointer (mem msg1) (offset f) = 0
    /\ forall key_size' val_size' a',
         fst (_upb_Map_New a' key_size' val_size') <> 0 ->
         exists msg2,
           _upb_Message_GetOrCreateMutableMap msg1 f key_size' val_size' a'
           = Ok (fst (_upb_Map_New a' key_size' val_size'), msg2,
                 snd (_upb_Map_New a' key_size' val_size'))
           /\ load_pointer (mem msg2) (offset f)
              = fst (_upb_Map_New a' key_size' val_size')
           /\ arena_maps (snd (_upb_Map_New a' key_size' val_size'))
              = (key_size', val_size',
                 fst (_upb_Map_New a' key_size' val_size'))
                :: arena_maps a'.
Proof.
  unfold upb_MiniTableField_IsExtension. intros He Hc Hnull Hfail.
  destruct (GetOrCreateMutableMap_absent msg f key_size val_size a He Hc
              (map_reference_stored_null msg f Hnull))
    as [msg1 [val [Hcall [_ Hst]]]].
  rewrite Hfail in Hcall, Hst.
  exists msg1. split; [exact Hcall|]. split; [exact Hst|].
  intros key_size' val_size' a' Hok.
  destruct (GetOrCreateMutableMap_absent msg1 f key_size' val_size' a' He Hc
              (map_reference_stored_null msg1 f Hst))
    as [msg2 [val' [Hcall' [_ Hst']]]].
  exists msg2. split; [exact Hcall'|]. split; [exact Hst'|].
  apply Map_New_trace.
Qed.

(** A map field at offset 8 of a fresh message: an exhausted arena, then an
    arena that hands out the address 4096. *)
Lemma GetOrCreateMutableMap_constructor_fails_witness :
  let f := {| number := 3; offset := 8; presence := 0;
              rep := kUpb_FieldRep_8Byte;
              is_extension := false; is_map := true |} in
  let empty := {| arena_supply := []; arena_maps := [] |} in
  let full := {| arena_supply := [4096]; arena_maps := [] |} in
  exists msg1 a1,
    _upb_Message_GetOrCreateMutableMap fresh_message f 4 4 empty
    = Ok (0, msg1, a1)
    /\ load_pointer (mem msg1) 8 = 0
    /\ exists msg2 a2,
         _upb_Message_GetOrCreateMutableMap msg1 f 4 4 full
         = Ok (4096, msg2, a2)
         /\ load_pointer (mem msg2) 8 = 4096.
Proof.
  intros f empty full.
  destruct (GetOrCreateMutableMap_constructor_fails fresh_message f 4 4 empty
              eq_refl eq_refl eq_refl eq_refl) as [msg1 [H1 [H2 H3]]].
  exists msg1. eexists. split; [exact H1|]. split; [exact H2|].
  destruct (H3 4%nat 4%nat full) as [msg2 [H4 [H5 _]]].
  - discriminate.
  - exists msg2. eexists. split; [exact H4|exact H5].
Defined.

(** Two calls in a row of the map initialiser on a well laid out map field
    return the same reference, which is not null, and the second call
    changes neither the message nor the arena.  The trace of the arena
    grows by the one call of the constructor the first call makes when the
    field holds no reference. *)
Lemma GetOrCreateMutableMap_twice (msg : upb_Message)
  (f : upb_MiniTableField) (key_size val_size : nat) (a : upb_Arena) :
  wf_field f = true ->
  _upb_MiniTableField_CheckIsMap f = Ok tt ->
  upb_TaggedMessagePtr_IsEmpty (map_reference msg f) = false ->
  (map_reference msg f = 0 ->
   fst (_upb_Map_New a key_size val_size) <> 0
   /\ upb_TaggedMessagePtr_IsEmpty (fst (_upb_Map_New a key_size val_size))
      = false) ->
  exists p msg1 a1,
    _upb_Message_GetOrCreateMutableMap msg f key_size val_size a
    = Ok (p, msg1, a1)
    /\ p <> 0
    /\ (forall key_size' val_size' a2,
           _upb_Message_GetOrCreateMutableMap msg1 f key_size' val_size' a2
           = Ok (p, msg1, a2))
    /\ arena_maps a1
       = (if map_reference msg f =? 0 then [(key_size, val_size, p)] else [])
         ++ arena_maps a.
Proof.
  intros Hw Hc Ht Hok. destruct (wf_field_inv f Hw) as [He _].
  destruct (Z.eqb_spec (map_reference msg f) 0) as [Hz|Hnz].
  - destruct (Hok Hz) as [Hp Hpt].
    destruct (GetOrCreateMutableMap_absent msg f key_size val_size a He Hc Hz)
      as [msg1 [val [Hcall [Hs Hst]]]].
    pose proof (map_reference_after_set msg msg1 f val Hw Hs) as Href.
    rewrite Hst in Href.
    eexists. exists msg1. eexists. split; [exact Hcall|]. split; [exact Hp|].
    split; [|apply Map_New_trace].
    intros key_size' val_size' a2. rewrite <- Href.
    apply GetOrCreateMutableMap_found; auto; now rewrite Href.
  - exists (map_reference msg f), msg, a.
    split; [now apply GetOrCreateMutableMap_found|]. split; [exact Hnz|].
    split; [|reflexivity].
    intros key_size' val_size' a2. now apply GetOrCreateMutableMap_found.
Qed.

(** C6.  The map initialiser is idempotent.  On a well laid out map field
    that holds no map yet, with an arena on which the constructor succeeds
    and hands out a real map (a reference that is not null and not the
    reserved placeholder), two calls in a row return the same reference; the
    constructor is called exactly once over the two calls, by the first one:
    the second call finds the reference stored and leaves the message and
    the arena as they are. *)
Theorem GetOrCreateMutableMap_idempotent (msg : upb_Message)
  (f : upb_MiniTableField) (key_size val_size : nat) (a : upb_Arena) :
  wf_field f = true ->
  _upb_MiniTableField_CheckIsMap f = Ok tt ->
  map_reference msg f = 0 ->
  fst (_upb_Map_New a key_size val_size) <> 0 ->
  upb_TaggedMessagePtr_IsEmpty (fst (_upb_Map_New a key_size val_size))
  = false ->
  exists p msg1 a1,
    _upb_Message_GetOrCreateMutableMap msg f key_size val_size a
    = Ok (p, msg1, a1)
    /\ _upb_Message_GetOrCreateMutableMap msg1 f key_size val_size a1
       = Ok (p, msg1, a1)
    /\ p <> 0
    /\ p = fst (_upb_Map_New a key_size val_size)
    /\ load_pointer (mem msg1) (offset f) = p
    /\ arena_maps a1 = (key_size, val_size, p) :: arena_maps a
    /\ length (arena_maps a1) = S (length (arena_maps a)).
Proof.
  intros Hw Hc Hz Hp Hpt. destruct (wf_field_inv f Hw) as [He _].
  destruct (GetOrCreateMutableMap_absent msg f key_size val_size a He Hc Hz)
    as [msg1 [val [Hcall [Hs Hst]]]].
  pose proof (map_reference_after_set msg msg1 f val Hw Hs) as Href.
  rewrite Hst in Href.
  pose proof (Map_New_trace a key_size val_size) as Htr.
  eexists. exists msg1. eexists. split; [exact Hcall|].
  split; [|split; [exact Hp|split; [reflexivity|split; [exact Hst|
           split; [exact Htr|now rewrite Htr]]]]].
  rewrite <- Href at 1.
  apply GetOrCreateMutableMap_found; auto; now rewrite Href.
Qed.

(** A map field at offset 8 of a fresh message, the arena handing out the
    address 4096 and then 8192: the two calls return 4096 and one map is
    constructed. *)
Lemma GetOrCreateMutableMap_idempotent_witness :
  let f := {| number := 3; offset := 8; presence := 0;
              rep := kUpb_FieldRep_8Byte;
              is_extension := false; is_map := true |} in
  let a := {| arena_supply := [4096; 8192]; arena_maps := [] |} in
  exists msg1 a1,
    _upb_Message_GetOrCreateMutableMap fresh_message f 4 4 a
    = Ok (4096, msg1, a1)
    /\ _upb_Message_GetOrCreateMutableMap msg1 f 4 4 a1 = Ok (4096, msg1, a1)
    /\ arena_maps a1 = [(4%nat, 4%nat, 4096)].
Proof.
  intros f a.
  destruct (GetOrCreateMutableMap_idempotent fresh_message f 4 4 a
              eq_refl eq_refl eq_refl)
    as [p [msg1 [a1 [H1 [H2 [_ [Hp [_ [H3 _]]]]]]]]].
  - discriminate.
  - reflexivity.
  - assert (Hp' : p = 4096) by (rewrite Hp; reflexivity).
    subst p. exists msg1, a1. split; [exact H1|]. split; [exact H2|].
    exact H3.
Defined.

(** ** At most one entry per extension descriptor, on every message *)

Lemma window_ids_same (i i' : upb_Message_InternalData) :
  extension_count i' = extension_count i ->
  (forall k, (k < extension_count i)%nat ->
     ext (ext_mem i' (ext_begin i' + k * sizeof_upb_Message_Extension)%nat)
     = ext (ext_mem i (ext_begin i + k * sizeof_upb_Message_Extension)%nat)) ->
  window_ids i' = window_ids i.
Proof.
  intros Hc H. unfold window_ids. rewrite Hc. apply map_ext_in.
  intros k Hk. apply in_seq in Hk. apply H. lia.
Qed.

Lemma put_extension_unique (msg : upb_Message) (p : nat)
  (x : upb_Message_Extension) :
  ext x = ext (extension_at msg p) ->
  extensions_unique msg -> extensions_unique (put_extension msg p x).
Proof.
  unfold extensions_unique, put_extension, extension_at.
  destruct (internal msg) as [i|] eqn:Hi; [|now rewrite Hi].
  cbn [internal with_internal]. intros Hx Hu.
  rewrite (window_ids_same i); [exact Hu|reflexivity|].
  intros k Hk. cbn [ext_mem ext_begin].
  destruct (Nat.eqb_spec (ext_begin i + k * sizeof_upb_Message_Extension) p)
    as [->|_]; [exact Hx|reflexivity].
Qed.

Lemma realloc_internal_window (msg m2 : upb_Message) (a a2 : upb_Arena) :
  realloc_internal msg sizeof_upb_Message_Extension a = (true, m2, a2) ->
  exists i2,
    internal m2 = Some i2
    /\ (sizeof_upb_Message_Extension <= ext_begin i2)%nat
    /\ window_ids i2 = match internal msg with
                       | Some i => window_ids i
                       | None => []
                       end.
Proof.
  unfold realloc_internal. destruct (internal msg) as [i|] eqn:Hi.
  - destruct (Nat.ltb_spec (ext_begin i) sizeof_upb_Message_Extension)
      as [Hlt|Hge].
    + destruct (upb_Arena_Malloc a (size i + sizeof_upb_Message_Extension))
        as [p a'].
      destruct (p =? 0); [discriminate|]. intros Hr. injection Hr as <- _.
      eexists. split; [reflexivity|]. cbn [ext_begin]. split; [lia|].
      apply window_ids_same.
      * unfold extension_count. cbn [size ext_begin]. f_equal. lia.
      * intros k _. cbn [ext_mem ext_begin]. do 2 f_equal. lia.
    + intros Hr. injection Hr as <- _. exists i. auto.
  - destruct (upb_Arena_Malloc a sizeof_upb_Message_Extension) as [p a'].
    destruct (p =? 0); [discriminate|]. intros Hr. injection Hr as <- _.
    eexists. split; [reflexivity|]. cbn [ext_begin]. split; [lia|].
    unfold window_ids, extension_count. cbn [size ext_begin].
    now rewrite Nat.sub_diag.
Qed.

(** A new entry in front of the window, for a descriptor the window does not
    refer to yet. *)
Lemma prepended_window_unique (i : upb_Message_InternalData)
  (x : upb_Message_Extension) :
  (sizeof_upb_Message_Extension <= ext_begin i)%nat ->
  NoDup (window_ids i) ->
  ~ In (ext x) (window_ids i) ->
  let b := (ext_begin i - sizeof_upb_Message_Extension)%nat in
  NoDup (window_ids
           {| size := size i; ext_begin := b;
              ext_mem := fun o => if (o =? b)%nat then x else ext_mem i o |}).
Proof.
  intros Hb Hu Hx b. set (i' := {| size := size i; ext_begin := b;
    ext_mem := fun o => if (o =? b)%nat then x else ext_mem i o |}).
  assert (HS : (0 < sizeof_upb_Message_Extension)%nat) by apply sizeof_ext_pos.
  assert (Hcount : (extension_count i' <= extension_count i + 1)%nat).
  { unfold extension_count. cbn [size ext_begin i'].
    rewrite <- (Nat.div_add _ 1 sizeof_upb_Message_Extension) by lia.
    apply Nat.Div0.div_le_mono. unfold b. lia. }
  assert (Hentry : forall j,
    ext (ext_mem i' (ext_begin i' + j * sizeof_upb_Message_Extension)%nat)
    = match j with
      | O => ext x
      | S j' => ext (ext_mem i
                       (ext_begin i + j' * sizeof_upb_Message_Extension)%nat)
      end).
  { intros j. cbn [ext_mem ext_begin i']. destruct j as [|j'].
    - simpl. rewrite Nat.add_0_r. now rewrite Nat.eqb_refl.
    - replace (b + S j' * sizeof_upb_Message_Extension)%nat
        with (ext_begin i + j' * sizeof_upb_Message_Extension)%nat
        by (unfold b, sizeof_upb_Message_Extension in *; lia).
      destruct (Nat.eqb_spec
                  (ext_begin i + j' * sizeof_upb_Message_Extension)%nat b)
        as [E|_]; [|reflexivity].
      unfold b, sizeof_upb_Message_Extension in *. lia. }
  assert (Hfresh : forall k, (k < extension_count i)%nat ->
    ext (ext_mem i (ext_begin i + k * sizeof_upb_Message_Extension)%nat)
    <> ext x).
  { intros k Hk E. apply Hx. rewrite <- E, <- window_ids_nth by exact Hk.
    apply nth_In. now rewrite window_ids_length. }
  rewrite window_unique_iff in Hu. apply window_unique_iff.
  intros j k Hj Hk. rewrite !Hentry.
  destruct j as [|j'], k as [|k']; intros E; auto.
  - exfalso. apply (Hfresh k'); [lia|]. now symmetry.
  - exfalso. apply (Hfresh j'); [lia|exact E].
  - f_equal. apply Hu; [lia|lia|exact E].
Qed.

Lemma Getext_none_not_in (msg : upb_Message) (e : upb_MiniTableExtension) :
  _upb_Message_Getext msg e = None ->
  ~ In (ext_id e) (match internal msg with
                   | Some i => window_ids i
                   | None => []
                   end).
Proof.
  unfold _upb_Message_Getext. destruct (internal msg) as [i|]; [|auto].
  intros Hn Hin. rewrite find_extension_none in Hn.
  apply (In_nth _ _ O) in Hin. destruct Hin as [k [Hk Hin]].
  rewrite window_ids_length in Hk. rewrite window_ids_nth in Hin by exact Hk.
  now apply (Hn k Hk).
Qed.

Lemma GetOrCreateExtension_unique (msg msg1 : upb_Message)
  (e : upb_MiniTableExtension) (a a1 : upb_Arena) (p : option nat) :
  _upb_Message_GetOrCreateExtension msg e a = (p, msg1, a1) ->
  extensions_unique msg -> extensions_unique msg1.
Proof.
  unfold _upb_Message_GetOrCreateExtension. intros H Hu.
  destruct (_upb_Message_Getext msg e) eqn:Hg.
  - now injection H as _ <- _.
  - destruct (realloc_internal msg sizeof_upb_Message_Extension a)
      as [[ok m2] a2] eqn:Hr.
    destruct ok; [|now injection H as _ <- _].
    destruct (realloc_internal_window _ _ _ _ Hr) as [i2 [Hi2 [Hb Hw]]].
    rewrite Hi2 in H. injection H as _ <- _.
    unfold extensions_unique, put_extension. cbn [internal with_internal].
    cbn [size ext_begin ext_mem].
    apply (prepended_window_unique i2
             {| ext := ext_id e; data := zero_bytes |} Hb).
    + rewrite Hw. unfold extensions_unique in Hu.
      destruct (internal msg); [exact Hu|constructor].
    + rewrite Hw. cbn [ext]. now apply Getext_none_not_in.
Qed.

Lemma extensions_unique_same_internal (m m' : upb_Message) :
  internal m' = internal m -> extensions_unique m -> extensions_unique m'.
Proof. unfold extensions_unique. now intros ->. Qed.

(** Every operation keeps the window free of duplicates. *)
Lemma extensions_unique_run (o : accessor_op) (m m' : upb_Message) :
  run o m = Ok m' -> extensions_unique m -> extensions_unique m'.
Proof.
  destruct o as [g v|g|e v a|e|g ks vs a]; cbn [run]; intros Hr Hu.
  - apply (extensions_unique_same_internal m); [|exact Hu].
    now apply (SetNonExtensionField_internal m m' g v).
  - apply (extensions_unique_same_internal m); [|exact Hu].
    now apply (ClearNonExtensionField_internal m m' g).
  - bind_inv Hr. destruct a0 as [[b m1] a1]. injection Hr as <-. cbn [fst snd].
    unfold _upb_Message_SetExtensionField in E.
    destruct a as [ar|]; [|discriminate].
    destruct (_upb_Message_GetOrCreateExtension m e ar) as [[p m2] ar2] eqn:Hg.
    pose proof (GetOrCreateExtension_unique _ _ _ _ _ _ Hg Hu) as Hu2.
    destruct p as [p|]; injection E as _ <- _; [|exact Hu2].
    now apply put_extension_unique.
  - injection Hr as <-. unfold _upb_Message_ClearExtensionField.
    destruct (internal m) as [i|] eqn:Hi; [|exact Hu].
    destruct (_upb_Message_Getext m e) as [p|] eqn:Hg; [|exact Hu].
    pose proof (ClearExtensionField_found m e i p Hi Hg) as Hc.
    unfold _upb_Message_ClearExtensionField in Hc. rewrite Hi, Hg in Hc.
    rewrite Hc. unfold extensions_unique in *. rewrite Hi in Hu.
    cbn [internal with_internal].
    unfold _upb_Message_Getext in Hg. rewrite Hi in Hg.
    destruct (find_extension_some _ _ _ _ _ Hg) as [k [Hk [-> _]]].
    now apply cleared_window_unique.
  - bind_inv Hr. destruct a0 as [[p m1] a1]. injection Hr as <-. cbn [fst snd].
    destruct (GetOrCreateMutableMap_message _ _ _ _ _ _ _ _ E) as [->|[v Hs]];
      [exact Hu|].
    apply (extensions_unique_same_internal m); [|exact Hu].
    now apply (SetNonExtensionField_internal m m1 g v).
Qed.

(** A message made from a fresh one by the operations of this layer holds at
    most one entry per extension descriptor. *)
Lemma extensions_unique_reachable (os : list accessor_op) (m : upb_Message) :
  run_all os fresh_message = Ok m -> extensions_unique m.
Proof.
  assert (H : forall m0, extensions_unique m0 ->
                         run_all os m0 = Ok m -> extensions_unique m).
  { induction os as [|o os IH]; intros m0 Hu Hr; cbn [run_all] in Hr.
    - now injection Hr as <-.
    - bind_inv Hr. apply (IH a); [|exact Hr].
      now apply (extensions_unique_run o m0 a). }
  apply H. exact I.
Qed.

(** * Further properties of the accessors *)

(** ** The hasbit bitmap *)

Lemma hasbit_index_split (i j : nat) :
  (i / 8 = j / 8 -> i mod 8 = j mod 8 -> i = j)%nat.
Proof.
  intros Hd Hm. rewrite (Nat.div_mod_eq i 8), (Nat.div_mod_eq j 8). lia.
Qed.

Lemma hasbit_sethas (msg : upb_Message) (idx j : nat) :
  _upb_hasbit (_upb_sethas msg idx) j = (j =? idx)%nat || _upb_hasbit msg j.
Proof.
  rewrite !hasbit_testbit. unfold _upb_sethas, _upb_hasbit_ofs.
  cbn [mem with_mem].
  destruct (Nat.eq_dec (j / 8) (idx / 8)) as [Hb|Hb].
  - rewrite Hb, poke_same, hasbit_mask_pow2.
    rewrite sethas_byte_bits by apply mod8_bound. rewrite orb_comm.
    f_equal. destruct (Nat.eqb_spec j idx) as [->|Hne].
    + apply Z.eqb_refl.
    + apply Z.eqb_neq. intros E. apply Hne.
      apply hasbit_index_split; [exact Hb|lia].
  - rewrite poke_other by exact Hb.
    destruct (Nat.eqb_spec j idx) as [->|_]; [contradiction|reflexivity].
Qed.

Lemma hasbit_clearhas (msg : upb_Message) (idx j : nat) :
  _upb_hasbit (_upb_clearhas msg idx) j
  = negb (j =? idx)%nat && _upb_hasbit msg j.
Proof.
  rewrite !hasbit_testbit. unfold _upb_clearhas, _upb_hasbit_ofs.
  cbn [mem with_mem].
  destruct (Nat.eq_dec (j / 8) (idx / 8)) as [Hb|Hb].
  - rewrite Hb, poke_same, hasbit_mask_pow2.
    rewrite clearhas_byte_bits by apply mod8_bound. rewrite andb_comm.
    f_equal. f_equal. destruct (Nat.eqb_spec j idx) as [->|Hne].
    + apply Z.eqb_refl.
    + apply Z.eqb_neq. intros E. apply Hne.
      apply hasbit_index_split; [exact Hb|lia].
  - rewrite poke_other by exact Hb.
    destruct (Nat.eqb_spec j idx) as [->|_]; [contradiction|reflexivity].
Qed.

(** X1.  The hasbits of a message behave as a set of indices: after
    [_upb_sethas] of an index exactly that index is added, after
    [_upb_clearhas] exactly that index is removed; the hasbit of every other
    index, in the same byte or elsewhere, reads as before. *)
Theorem hasbits_are_a_set (msg : upb_Message) (idx j : nat) :
  _upb_hasbit (_upb_sethas msg idx) j = (j =? idx)%nat || _upb_hasbit msg j
  /\ _upb_hasbit (_upb_clearhas msg idx) j
     = negb (j =? idx)%nat && _upb_hasbit msg j
  /\ _upb_hasbit (_upb_clearhas (_upb_sethas msg idx) idx) j
     = negb (j =? idx)%nat && _upb_hasbit msg j
  /\ _upb_hasbit (_upb_sethas (_upb_clearhas msg idx) idx) j
     = (j =? idx)%nat || _upb_hasbit msg j.
Proof.
  split; [apply hasbit_sethas|]. split; [apply hasbit_clearhas|]. split.
  - rewrite hasbit_clearhas, hasbit_sethas.
    now destruct (j =? idx)%nat.
  - rewrite hasbit_sethas, hasbit_clearhas.
    now destruct (j =? idx)%nat.
Qed.

(** ** The transcoder: the zero test and the copy agree on the width *)

Lemma memcmp_same_bytes (a : bytes) (a_ofs : nat) (b b' : bytes)
  (b_ofs b_ofs' n : nat) :
  (forall i, (i < n)%nat -> b (b_ofs + i)%nat = b' (b_ofs' + i)%nat) ->
  memcmp a a_ofs b b_ofs n = memcmp a a_ofs b' b_ofs' n.
Proof.
  revert a_ofs b_ofs b_ofs'. induction n as [|n IH];
    intros a_ofs b_ofs b_ofs' H; simpl; [reflexivity|].
  pose proof (H O ltac:(lia)) as H0. rewrite !Nat.add_0_r in H0.
  rewrite H0. rewrite (IH (S a_ofs) (S b_ofs) (S b_ofs')); [reflexivity|].
  intros i Hi. specialize (H (S i) ltac:(lia)).
  now rewrite <- !Nat.add_succ_comm in H.
Qed.

Lemma ValueIsNonZero_same_bytes (d d' : bytes) (f : upb_MiniTableField) :
  load d 0 (rep_width (rep f)) = load d' 0 (rep_width (rep f)) ->
  _upb_MiniTable_ValueIsNonZero d f = _upb_MiniTable_ValueIsNonZero d' f.
Proof.
  intros H. unfold _upb_MiniTable_ValueIsNonZero, _upb_MiniTableField_GetRep.
  destruct (rep f); cbn [rep_width] in H.
  1,2,4: do 2 f_equal; apply memcmp_same_bytes; intros i Hi;
    apply (load_eq_inv _ _ _ _ _ _ H Hi).
  unfold upb_StringView_size, load_uint. do 3 f_equal.
  apply load_ext. intros i Hi.
  unfold offsetof_upb_StringView_size, sizeof_size_t, sizeof_upb_StringView in *.
  apply (load_eq_inv d d' 0 0 16 (8 + i) H). lia.
Qed.

(** X2.  The zero test looks at no byte the copy does not carry: a value
    copied by [_upb_MiniTable_CopyFieldData] to the front of any buffer tests
    as the original does under [_upb_MiniTable_ValueIsNonZero], whatever the
    buffer held. *)
Theorem ValueIsNonZero_of_copy (to from : bytes) (f : upb_MiniTableField) :
  _upb_MiniTable_ValueIsNonZero (_upb_MiniTable_CopyFieldData to 0 from 0 f) f
  = _upb_MiniTable_ValueIsNonZero from f.
Proof.
  apply ValueIsNonZero_same_bytes. rewrite CopyFieldData_memcpy.
  apply load_memcpy_same.
Qed.

(** ** Plain fields: where the assertions stop a call *)

(** X3.  The assertions of the plain accessors.  A descriptor with the
    extension flag stops [has], the getter and the setter of plain fields.
    A plain field without presence (presence 0) stops [has]; its getter
    stops when the default is not zero, and otherwise hands out the stored
    bytes without asking for the presence. *)
Theorem plain_accessors_assertions (msg : upb_Message)
  (f : upb_MiniTableField) (default_val val v : bytes) :
  (upb_MiniTableField_IsExtension f = true ->
   _upb_Message_HasNonExtensionField msg f = Fault
   /\ _upb_Message_GetNonExtensionField msg f default_val val = Fault
   /\ _upb_Message_SetNonExtensionField msg f v = Fault)
  /\ (upb_MiniTableField_IsExtension f = false -> presence f = 0 ->
      _upb_Message_HasNonExtensionField msg f = Fault
      /\ (_upb_MiniTable_ValueIsNonZero default_val f = true ->
          _upb_Message_GetNonExtensionField msg f default_val val = Fault)
      /\ (_upb_MiniTable_ValueIsNonZero default_val f = false ->
          _upb_Message_GetNonExtensionField msg f default_val val
          = Ok (_upb_MiniTable_CopyFieldData val 0 (mem msg) (offset f) f))).
Proof.
  unfold upb_MiniTableField_IsExtension. split.
  - intros He.
    unfold _upb_Message_HasNonExtensionField, _upb_Message_GetNonExtensionField,
      _upb_Message_SetNonExtensionField, upb_MiniTableField_HasPresence,
      upb_MiniTableField_IsExtension.
    now rewrite He.
  - intros He Hp.
    assert (Hh : _upb_Message_HasNonExtensionField msg f = Fault).
    { unfold _upb_Message_HasNonExtensionField, upb_MiniTableField_HasPresence,
        upb_MiniTableField_IsExtension. now rewrite He, Hp. }
    assert (Hio : _upb_MiniTableField_InOneOf f = false)
      by (apply InOneOf_false; lia).
    split; [exact Hh|]. split; intros Hnz.
    + unfold _upb_Message_GetNonExtensionField, upb_MiniTableField_IsExtension.
      now rewrite He, Hio, Hnz, Hh.
    + apply GetNonExtensionField_unguarded; [exact He|now rewrite Hio, Hnz].
Qed.

(** A 4-byte field without presence at offset 4: with the default 5 the
    getter stops, with the default 0 it reads the stored 7. *)
Lemma plain_accessors_assertions_witness :
  let f := {| number := 1; offset := 4; presence := 0;
              rep := kUpb_FieldRep_4Byte;
              is_extension := false; is_map := false |} in
  let msg := {| internal := None;
                mem := bytes_of_list [0; 0; 0; 0; 7; 0; 0; 0] |} in
  _upb_Message_HasNonExtensionField msg f = Fault
  /\ _upb_Message_GetNonExtensionField msg f (bytes_of_list [5]) zero_bytes
     = Fault
  /\ exists out,
       _upb_Message_GetNonExtensionField msg f zero_bytes zero_bytes = Ok out
       /\ load out 0 4 = [7; 0; 0; 0].
Proof.
  intros f msg.
  destruct (plain_accessors_assertions msg f (bytes_of_list [5]) zero_bytes
              zero_bytes) as [_ H].
  destruct (H eq_refl eq_refl) as [H1 [H2 _]].
  destruct (plain_accessors_assertions msg f zero_bytes zero_bytes
              zero_bytes) as [_ H'].
  destruct (H' eq_refl eq_refl) as [_ [_ H3]].
  split; [exact H1|]. split; [apply H2; reflexivity|].
  eexists. split; [apply H3; reflexivity|reflexivity].
Defined.

(** ** Plain fields: the bytes a setter and a clearer write *)

Lemma footprint_false (f : upb_MiniTableField) (a : nat) :
  field_footprint f a = false ->
  (a < offset f \/ offset f + rep_width (rep f) <= a)%nat
  /\ (0 < presence f -> a <> _upb_hasbit_ofs (Z.to_nat (presence f)))
  /\ (presence f < 0 -> (a < case_slot f \/ case_slot f + 4 <= a)%nat).
Proof.
  unfold field_footprint. rewrite !orb_false_iff. intros [[H1 H2] H3].
  split; [|split].
  - revert H1. nat_cases; intros; try discriminate; lia.
  - intros Hp. apply Z.ltb_lt in Hp. rewrite Hp in H2. cbn [andb] in H2.
    now apply Nat.eqb_neq.
  - intros Hp. apply Z.ltb_lt in Hp. rewrite Hp in H3. cbn [andb] in H3.
    revert H3. nat_cases; intros; try discriminate; lia.
Qed.

Lemma load_one (b : bytes) (a : nat) : load b a 1 = [b a].
Proof. unfold load. simpl. now rewrite Nat.add_0_r. Qed.

(** X4.  A plain setter and a plain clearer write inside the footprint of
    their field only, that is the storage of the value, the hasbit byte and
    the case slot: every other byte of the message and the internal header
    are as before. *)
Theorem plain_writes_stay_in_footprint (msg msg' : upb_Message)
  (f : upb_MiniTableField) (v : bytes) :
  _upb_Message_SetNonExtensionField msg f v = Ok msg'
  \/ _upb_Message_ClearNonExtensionField msg f = Ok msg' ->
  internal msg' = internal msg
  /\ forall a, field_footprint f a = false -> mem msg' a = mem msg a.
Proof.
  intros H. split.
  - destruct H as [H|H].
    + now apply (SetNonExtensionField_internal msg msg' f v).
    + now apply (ClearNonExtensionField_internal msg msg' f).
  - intros a Ha. destruct (footprint_false f a Ha) as [H1 [H2 H3]].
    assert (E : load (mem msg') a 1 = load (mem msg) a 1).
    { destruct H as [H|H].
      - apply (SetNonExtensionField_frame msg msg' f v a 1 H).
        + apply apart_spec. lia.
        + intros Hp. apply apart_spec. specialize (H2 Hp). lia.
        + intros Hp. apply apart_spec. specialize (H3 Hp). lia.
      - apply (ClearNonExtensionField_frame msg msg' f a 1 H).
        + apply apart_spec. lia.
        + intros Hp. apply apart_spec. specialize (H2 Hp). lia.
        + intros Hp. apply apart_spec. specialize (H3 Hp). lia. }
    rewrite !load_one in E. now injection E.
Qed.

(** A 4-byte field at offset 4 with hasbit 9 (byte 1): the setter changes the
    bytes 1 and 4 to 7 and nothing else. *)
Lemma plain_writes_stay_in_footprint_witness :
  let f := {| number := 1; offset := 4; presence := 9;
              rep := kUpb_FieldRep_4Byte;
              is_extension := false; is_map := false |} in
  let msg := {| internal := None;
                mem := bytes_of_list [1; 1; 1; 1; 1; 1; 1; 1; 1; 1] |} in
  exists msg',
    _upb_Message_SetNonExtensionField msg f (bytes_of_list [9; 9; 9; 9])
    = Ok msg'
    /\ load (mem msg') 0 10 = [1; 3; 1; 1; 9; 9; 9; 9; 1; 1]
    /\ mem msg' 0%nat = mem msg 0%nat /\ mem msg' 8%nat = mem msg 8%nat.
Proof.
  intros f msg. eexists. split; [reflexivity|]. split; [reflexivity|].
  split;
    apply (plain_writes_stay_in_footprint msg _ f (bytes_of_list [9; 9; 9; 9])
             (or_introl eq_refl)); reflexivity.
Defined.

(** ** Plain fields: writing twice, clearing twice *)

Lemma lor_mod_idem (b k : Z) :
  Z.lor (Z.lor b k mod 256) k mod 256 = Z.lor b k mod 256.
Proof.
  change 256 with (2 ^ 8). apply Z.bits_inj'. intros n Hn.
  destruct (Z.lt_ge_cases n 8) as [Hlt|Hge].
  - rewrite !Z.mod_pow2_bits_low by lia.
    rewrite !Z.lor_spec, Z.mod_pow2_bits_low by lia. rewrite Z.lor_spec.
    now destruct (Z.testbit b n), (Z.testbit k n).
  - now rewrite !Z.mod_pow2_bits_high by lia.
Qed.

Lemma land_mod_idem (b k : Z) :
  Z.land (Z.land b k mod 256) k mod 256 = Z.land b k mod 256.
Proof.
  change 256 with (2 ^ 8). apply Z.bits_inj'. intros n Hn.
  destruct (Z.lt_ge_cases n 8) as [Hlt|Hge].
  - rewrite !Z.mod_pow2_bits_low by lia.
    rewrite !Z.land_spec, Z.mod_pow2_bits_low by lia. rewrite Z.land_spec.
    now destruct (Z.testbit b n), (Z.testbit k n).
  - now rewrite !Z.mod_pow2_bits_high by lia.
Qed.

(** X5.  The last write wins.  Setting a plain field to [v1] and then to
    [v2] leaves the message byte for byte as setting it to [v2] at once,
    whatever the presence mechanism and the layout of the field. *)
Theorem set_twice_is_set_last (msg : upb_Message) (f : upb_MiniTableField)
  (v1 v2 : bytes) :
  upb_MiniTableField_IsExtension f = false ->
  exists m1 m2 m2',
    _upb_Message_SetNonExtensionField msg f v1 = Ok m1
    /\ _upb_Message_SetNonExtensionField m1 f v2 = Ok m2
    /\ _upb_Message_SetNonExtensionField msg f v2 = Ok m2'
    /\ internal m2 = internal m2'
    /\ forall a, mem m2 a = mem m2' a.
Proof.
  unfold upb_MiniTableField_IsExtension. intros He.
  destruct (Z.lt_trichotomy (presence f) 0) as [Hp|[Hp|Hp]].
  - eexists. eexists. eexists.
    split; [apply (SetNonExtensionField_unfold _ _ _ _ He
                     (SetPresence_oneof _ f Hp))|].
    split; [apply (SetNonExtensionField_unfold _ _ _ _ He
                     (SetPresence_oneof _ f Hp))|].
    split; [apply (SetNonExtensionField_unfold _ _ _ _ He
                     (SetPresence_oneof _ f Hp))|].
    split; [reflexivity|]. intros a. cbn [mem with_mem].
    rewrite !CopyFieldData_memcpy. unfold store_uint, memcpy.
    nat_cases; reflexivity || lia.
  - eexists. eexists. eexists.
    split; [apply (SetNonExtensionField_unfold _ _ _ _ He
                     (SetPresence_implicit _ f Hp))|].
    split; [apply (SetNonExtensionField_unfold _ _ _ _ He
                     (SetPresence_implicit _ f Hp))|].
    split; [apply (SetNonExtensionField_unfold _ _ _ _ He
                     (SetPresence_implicit _ f Hp))|].
    split; [reflexivity|]. intros a. cbn [mem with_mem].
    rewrite !CopyFieldData_memcpy. unfold memcpy.
    nat_cases; reflexivity || lia.
  - eexists. eexists. eexists.
    split; [apply (SetNonExtensionField_unfold _ _ _ _ He
                     (SetPresence_hasbit _ f Hp))|].
    split; [apply (SetNonExtensionField_unfold _ _ _ _ He
                     (SetPresence_hasbit _ f Hp))|].
    split; [apply (SetNonExtensionField_unfold _ _ _ _ He
                     (SetPresence_hasbit _ f Hp))|].
    split; [reflexivity|]. intros a. unfold _upb_sethas. cbn [mem with_mem].
    rewrite !CopyFieldData_memcpy. unfold memcpy, poke.
    nat_cases; try reflexivity; try lia; apply lor_mod_idem.
Qed.

(** A 4-byte field at offset 0 with hasbit 33 (bit 1 of byte 4). *)
Lemma set_twice_is_set_last_witness :
  let f := {| number := 1; offset := 0; presence := 33;
              rep := kUpb_FieldRep_4Byte;
              is_extension := false; is_map := false |} in
  exists m1 m2 m2',
    _upb_Message_SetNonExtensionField fresh_message f (bytes_of_list [1; 2])
    = Ok m1
    /\ _upb_Message_SetNonExtensionField m1 f (bytes_of_list [3]) = Ok m2
    /\ _upb_Message_SetNonExtensionField fresh_message f (bytes_of_list [3])
       = Ok m2'
    /\ load (mem m2) 0 5 = [3; 0; 0; 0; 2]
    /\ load (mem m2') 0 5 = [3; 0; 0; 0; 2].
Proof.
  intros f.
  destruct (set_twice_is_set_last fresh_message f (bytes_of_list [1; 2])
              (bytes_of_list [3]) eq_refl)
    as [m1 [m2 [m2' [H1 [H2 [H3 [_ H4]]]]]]].
  exists m1, m2, m2'. split; [exact H1|]. split; [exact H2|].
  split; [exact H3|].
  assert (E : load (mem m2) 0 5 = load (mem m2') 0 5)
    by (apply load_ext; intros i _; apply H4).
  rewrite E. vm_compute in H3. injection H3 as <-. split; reflexivity.
Defined.

(** X6.  Clearing is idempotent.  A second clear of a plain field leaves
    the message byte for byte as the first left it, whatever the presence
    mechanism and the layout of the field. *)
Theorem clear_twice_is_clear (msg : upb_Message) (f : upb_MiniTableField) :
  exists m1 m2,
    _upb_Message_ClearNonExtensionField msg f = Ok m1
    /\ _upb_Message_ClearNonExtensionField m1 f = Ok m2
    /\ internal m2 = internal m1
    /\ forall a, mem m2 a = mem m1 a.
Proof.
  destruct (Z.lt_trichotomy (presence f) 0) as [Hp|[Hp|Hp]].
  - eexists. eexists.
    split; [apply (ClearNonExtensionField_oneof _ f Hp)|].
    split; [apply (ClearNonExtensionField_oneof _ f Hp)|].
    cbv zeta. fold (case_slot f).
    destruct (load_uint (mem msg) (case_slot f) 4 =? number f) eqn:Hact.
    + match goal with
      | |- context [if ?c then _ else _] => destruct c
      end; [|split; [reflexivity|intros a; reflexivity]].
      split; [reflexivity|]. intros a. cbn [mem with_mem].
      rewrite !CopyFieldData_memcpy. unfold store_uint, memcpy.
      unfold zero_bytes, bytes_of_list.
      nat_cases; reflexivity || lia.
    + rewrite Hact. split; [reflexivity|intros a; reflexivity].
  - eexists. eexists.
    split; [apply (ClearNonExtensionField_implicit _ f Hp)|].
    split; [apply (ClearNonExtensionField_implicit _ f Hp)|].
    split; [reflexivity|]. intros a. cbn [mem with_mem].
    rewrite !CopyFieldData_memcpy. unfold memcpy.
    nat_cases; reflexivity || lia.
  - eexists. eexists.
    split; [apply (ClearNonExtensionField_hasbit _ f Hp)|].
    split; [apply (ClearNonExtensionField_hasbit _ f Hp)|].
    split; [reflexivity|]. intros a. unfold _upb_clearhas. cbn [mem with_mem].
    rewrite !CopyFieldData_memcpy. unfold memcpy, poke.
    nat_cases; try reflexivity; try lia; apply land_mod_idem.
Qed.

(** ** Oneof members *)

Lemma presence_apart_oneof (f : upb_MiniTableField) :
  presence_apart f = true -> presence f < 0 ->
  apart (case_slot f) 4 (offset f) (rep_width (rep f)) = true.
Proof.
  unfold presence_apart. intros H Hp.
  destruct (Z.ltb_spec 0 (presence f)); [lia|].
  apply Z.ltb_lt in Hp. now rewrite Hp in H.
Qed.

Lemma HasNonExtensionField_case_of (msg : upb_Message)
  (f : upb_MiniTableField) :
  is_extension f = false -> presence f < 0 ->
  _upb_Message_HasNonExtensionField msg f = Ok (case_of msg f =? number f).
Proof. intros He Hp. now apply HasNonExtensionField_oneof. Qed.

Lemma GetNonExtensionField_oneof (msg : upb_Message)
  (f : upb_MiniTableField) (default_val val : bytes) :
  is_extension f = false -> presence f < 0 ->
  _upb_Message_GetNonExtensionField msg f default_val val
  = Ok (if case_of msg f =? number f
        then _upb_MiniTable_CopyFieldData val 0 (mem msg) (offset f) f
        else _upb_MiniTable_CopyFieldData val 0 default_val 0 f).
Proof.
  intros He Hp. apply GetNonExtensionField_guarded; [exact He| |].
  - unfold _upb_MiniTableField_InOneOf. apply Z.ltb_lt in Hp. now rewrite Hp.
  - now apply HasNonExtensionField_case_of.
Qed.

(** X7.  Setting a member of a oneof selects it.  After the setter the case
    slot holds the member's number, the member is set and reads as the value
    written; every other member of the oneof is not set and its getter hands
    out its own default byte for byte, although the storage the members
    share now holds the value of the member that was set. *)
Theorem oneof_set_selects_member (msg : upb_Message)
  (f g : upb_MiniTableField) (v default_val val : bytes) :
  upb_MiniTableField_IsExtension f = false ->
  upb_MiniTableField_IsExtension g = false ->
  presence f < 0 -> presence g = presence f ->
  0 <= number f < 2 ^ 32 -> number g <> number f ->
  presence_apart f = true ->
  exists m1 out,
    _upb_Message_SetNonExtensionField msg f v = Ok m1
    /\ _upb_getoneofcase_field m1 g = Ok (number f)
    /\ _upb_Message_HasNonExtensionField m1 f = Ok true
    /\ _upb_Message_GetNonExtensionField m1 f default_val val = Ok out
    /\ holds_copy_of out val v 0 f
    /\ _upb_Message_HasNonExtensionField m1 g = Ok false
    /\ _upb_Message_GetNonExtensionField m1 g default_val val
       = Ok (_upb_MiniTable_CopyFieldData val 0 default_val 0 g).
Proof.
  unfold upb_MiniTableField_IsExtension. intros Hef Heg Hp Hg Hn Hne Ha.
  destruct (SetNonExtensionField_total msg f v Hef) as [m1 Hs].
  pose proof (SetNonExtensionField_case msg m1 f v Hs Hp
                (presence_apart_oneof f Ha Hp)) as Hc.
  rewrite Z.mod_small in Hc by exact Hn.
  assert (Hcg : case_of m1 g = number f)
    by now rewrite (case_of_same_slot m1 f g Hg).
  assert (Hst : load (mem m1) (offset f) (rep_width (rep f))
                = load v 0 (rep_width (rep f))).
  { rewrite (SetNonExtensionField_unfold _ _ _ _ Hef (SetPresence_oneof msg f Hp))
      in Hs. injection Hs as <-. cbn [mem with_mem].
    rewrite CopyFieldData_memcpy. apply load_memcpy_same. }
  exists m1. eexists. split; [exact Hs|]. split.
  { unfold _upb_getoneofcase_field, _upb_oneofcase_field, _upb_oneofcase_ofs.
    assert (Hpg : (presence g <? 0) = true) by (apply Z.ltb_lt; lia).
    rewrite Hpg. cbn [UPB_ASSERT bind]. f_equal. exact Hcg. }
  split; [rewrite HasNonExtensionField_case_of by assumption;
          now rewrite Hc, Z.eqb_refl|].
  split; [rewrite GetNonExtensionField_oneof by assumption;
          now rewrite Hc, Z.eqb_refl|].
  split; [eapply holds_copy_of_same_source;
          [apply CopyFieldData_holds_copy|exact Hst]|].
  assert (Hng : (case_of m1 g =? number g) = false)
    by (rewrite Hcg; apply Z.eqb_neq; congruence).
  split.
  - rewrite HasNonExtensionField_case_of by (assumption || lia).
    now rewrite Hng.
  - rewrite GetNonExtensionField_oneof by (assumption || lia).
    now rewrite Hng.
Qed.

(** The oneof of B (number 10, a string view) and C (number 11, 4 bytes,
    default 7), case slot at offset 0, storage at offset 8: B is set. *)
Lemma oneof_set_selects_member_witness :
  let B := {| number := 10; offset := 8; presence := -1;
              rep := kUpb_FieldRep_StringView;
              is_extension := false; is_map := false |} in
  let C := {| number := 11; offset := 8; presence := -1;
              rep := kUpb_FieldRep_4Byte;
              is_extension := false; is_map := false |} in
  exists m1,
    _upb_Message_SetNonExtensionField fresh_message B
      (bytes_of_list [120; 121; 0; 0; 0; 0; 0; 0; 2]) = Ok m1
    /\ _upb_Message_HasNonExtensionField m1 C = Ok false
    /\ exists out,
         _upb_Message_GetNonExtensionField m1 C (bytes_of_list [7])
           zero_bytes = Ok out
         /\ load out 0 4 = [7; 0; 0; 0].
Proof.
  intros B C.
  destruct (oneof_set_selects_member fresh_message B C
              (bytes_of_list [120; 121; 0; 0; 0; 0; 0; 0; 2])
              (bytes_of_list [7]) zero_bytes)
    as [m1 [out [H1 [_ [_ [_ [_ [H2 H3]]]]]]]];
    try reflexivity; try (simpl; lia).
  exists m1. split; [exact H1|]. split; [exact H2|].
  eexists. split; [exact H3|reflexivity].
Defined.

(** X8.  Clearing the active member of a oneof.  The case slot is reset to
    0, the member's storage is zeroed, the member is not set any more, and
    its getter hands out the default byte for byte, a string view of length
    0 included. *)
Theorem oneof_clear_active_member (msg : upb_Message)
  (f : upb_MiniTableField) (default_val val : bytes) :
  upb_MiniTableField_IsExtension f = false ->
  presence f < 0 -> number f <> 0 ->
  presence_apart f = true ->
  _upb_getoneofcase_field msg f = Ok (number f) ->
  exists m2,
    _upb_Message_ClearNonExtensionField msg f = Ok m2
    /\ _upb_getoneofcase_field m2 f = Ok 0
    /\ load (mem m2) (offset f) (rep_width (rep f))
       = repeat 0 (rep_width (rep f))
    /\ _upb_Message_HasNonExtensionField m2 f = Ok false
    /\ _upb_Message_GetNonExtensionField m2 f default_val val
       = Ok (_upb_MiniTable_CopyFieldData val 0 default_val 0 f).
Proof.
  unfold upb_MiniTableField_IsExtension. intros He Hp Hn Ha Hact.
  assert (Hget : forall m, _upb_getoneofcase_field m f = Ok (case_of m f)).
  { intros m.
    unfold _upb_getoneofcase_field, _upb_oneofcase_field, _upb_oneofcase_ofs.
    pose proof Hp as Hp'. apply Z.ltb_lt in Hp'. now rewrite Hp'. }
  rewrite Hget in Hact. injection Hact as Hact.
  pose proof (ClearNonExtensionField_oneof msg f Hp) as Hc. cbv zeta in Hc.
  fold (case_slot f) in Hc. fold (case_of msg f) in Hc.
  rewrite Hact, Z.eqb_refl in Hc.
  eexists. split; [exact Hc|].
  pose proof (ClearNonExtensionField_case msg _ f Hc Hp
                (presence_apart_oneof f Ha Hp)) as Hc0.
  rewrite Hact, Z.eqb_refl in Hc0.
  assert (Hno : (0 =? number f) = false) by (apply Z.eqb_neq; congruence).
  split; [now rewrite Hget, Hc0|]. split.
  { cbn [mem with_mem]. rewrite CopyFieldData_memcpy, load_memcpy_same.
    apply load_zero_bytes. }
  split.
  - rewrite HasNonExtensionField_case_of by assumption. now rewrite Hc0, Hno.
  - rewrite GetNonExtensionField_oneof by assumption. now rewrite Hc0, Hno.
Qed.

(** Member B of the oneof above is the active one and holds a string view;
    it is cleared and read with an empty default whose pointer is not
    null. *)
Lemma oneof_clear_active_member_witness :
  let B := {| number := 10; offset := 8; presence := -1;
              rep := kUpb_FieldRep_StringView;
              is_extension := false; is_map := false |} in
  let msg := {| internal := None;
                mem := bytes_of_list [10; 0; 0; 0; 0; 0; 0; 0;
                                      120; 121; 0; 0; 0; 0; 0; 0;
                                      2; 0; 0; 0; 0; 0; 0; 0] |} in
  exists m2 out,
    _upb_Message_ClearNonExtensionField msg B = Ok m2
    /\ load (mem m2) 0 24 = repeat 0 24
    /\ _upb_Message_GetNonExtensionField m2 B (bytes_of_list [1]) zero_bytes
       = Ok out
    /\ load out 0 16 = [1; 0; 0; 0; 0; 0; 0; 0; 0; 0; 0; 0; 0; 0; 0; 0].
Proof.
  intros B msg.
  destruct (oneof_clear_active_member msg B (bytes_of_list [1]) zero_bytes)
    as [m2 [H1 [_ [_ [_ H2]]]]]; try reflexivity; try (simpl; lia).
  exists m2. eexists. split; [exact H1|].
  split; [vm_compute in H1; injection H1 as <-; reflexivity|].
  split; [exact H2|reflexivity].
Defined.

(** ** Fields without presence *)

(** X9.  A plain field without presence (presence 0), read with a zero
    default: the getter hands out what the setter wrote; after a clear it
    hands out the all-zero value; and setting the field to the all-zero
    value is the very same as clearing it. *)
Theorem implicit_field_round_trip (msg : upb_Message)
  (f : upb_MiniTableField) (v default_val val : bytes) :
  upb_MiniTableField_IsExtension f = false ->
  presence f = 0 ->
  _upb_MiniTable_ValueIsNonZero default_val f = false ->
  (exists m1 out,
      _upb_Message_SetNonExtensionField msg f v = Ok m1
      /\ _upb_Message_GetNonExtensionField m1 f default_val val = Ok out
      /\ holds_copy_of out val v 0 f)
  /\ (exists m2 out,
         _upb_Message_ClearNonExtensionField msg f = Ok m2
         /\ _upb_Message_GetNonExtensionField m2 f default_val val = Ok out
         /\ holds_copy_of out val zero_bytes 0 f)
  /\ _upb_Message_SetNonExtensionField msg f zero_bytes
     = _upb_Message_ClearNonExtensionField msg f.
Proof.
  unfold upb_MiniTableField_IsExtension. intros He Hp Hz.
  assert (Hio : _upb_MiniTableField_InOneOf f = false)
    by (apply InOneOf_false; lia).
  assert (Hget : forall m,
    _upb_Message_GetNonExtensionField m f default_val val
    = Ok (_upb_MiniTable_CopyFieldData val 0 (mem m) (offset f) f)).
  { intros m. apply GetNonExtensionField_unguarded; [exact He|].
    now rewrite Hio, Hz. }
  pose proof (SetNonExtensionField_unfold msg msg f v He
                (SetPresence_implicit msg f Hp)) as Hs.
  pose proof (SetNonExtensionField_unfold msg msg f zero_bytes He
                (SetPresence_implicit msg f Hp)) as Hs0.
  pose proof (ClearNonExtensionField_implicit msg f Hp) as Hc.
  split; [|split].
  - eexists. eexists. split; [exact Hs|]. split; [apply Hget|].
    eapply holds_copy_of_same_source; [apply CopyFieldData_holds_copy|].
    cbn [mem with_mem]. rewrite CopyFieldData_memcpy. apply load_memcpy_same.
  - eexists. eexists. split; [exact Hc|]. split; [apply Hget|].
    eapply holds_copy_of_same_source; [apply CopyFieldData_holds_copy|].
    cbn [mem with_mem]. rewrite CopyFieldData_memcpy. apply load_memcpy_same.
  - now rewrite Hs0, Hc.
Qed.

(** A string view without presence at offset 0, default empty. *)
Lemma implicit_field_round_trip_witness :
  let D := {| number := 4; offset := 0; presence := 0;
              rep := kUpb_FieldRep_StringView;
              is_extension := false; is_map := false |} in
  let hi := bytes_of_list [104; 105; 0; 0; 0; 0; 0; 0; 2] in
  (exists m1 out,
      _upb_Message_SetNonExtensionField fresh_message D hi = Ok m1
      /\ _upb_Message_GetNonExtensionField m1 D zero_bytes zero_bytes = Ok out
      /\ load out 0 16 = load hi 0 16)
  /\ _upb_Message_SetNonExtensionField fresh_message D zero_bytes
     = _upb_Message_ClearNonExtensionField fresh_message D.
Proof.
  intros D hi.
  destruct (implicit_field_round_trip fresh_message D hi zero_bytes zero_bytes
              eq_refl eq_refl eq_refl)
    as [[m1 [out [H1 [H2 [H3 _]]]]] [_ H4]].
  split; [|exact H4]. exists m1, out. split; [exact H1|]. split; [exact H2|].
  exact H3.
Defined.

(** ** Fields that share nothing do not disturb each other *)

Lemma apart_sym (a n b k : nat) : apart a n b k = apart b k a n.
Proof. unfold apart. apply orb_comm. Qed.

Lemma HasNonExtensionField_same (m m' : upb_Message) (f : upb_MiniTableField) :
  (0 < presence f ->
   _upb_hasbit m' (Z.to_nat (presence f))
   = _upb_hasbit m (Z.to_nat (presence f))) ->
  (presence f < 0 -> case_of m' f = case_of m f) ->
  _upb_Message_HasNonExtensionField m' f
  = _upb_Message_HasNonExtensionField m f.
Proof.
  intros Hh Hc. unfold _upb_Message_HasNonExtensionField.
  destruct (upb_MiniTableField_HasPresence f); [|reflexivity].
  destruct (upb_MiniTableField_IsExtension f); [reflexivity|].
  cbn [UPB_ASSERT UPB_ASSUME negb bind].
  unfold _upb_MiniTableField_InOneOf, _upb_getoneofcase_field,
    _upb_oneofcase_field, _upb_oneofcase_ofs, _upb_hasbit_field,
    _upb_Message_Hasidx.
  destruct (Z.ltb_spec (presence f) 0) as [Hp|Hp]; cbn [UPB_ASSERT bind].
  - fold (case_slot f). fold (case_of m' f). fold (case_of m f).
    now rewrite Hc.
  - destruct (Z.ltb_spec 0 (presence f)) as [Hq|Hq]; cbn [UPB_ASSERT bind];
      [|reflexivity].
    now rewrite Hh.
Qed.

Lemma GetNonExtensionField_same (m m' : upb_Message) (f : upb_MiniTableField)
  (default_val val : bytes) :
  _upb_Message_HasNonExtensionField m' f
  = _upb_Message_HasNonExtensionField m f ->
  load (mem m') (offset f) (rep_width (rep f))
  = load (mem m) (offset f) (rep_width (rep f)) ->
  same_bytes (_upb_Message_GetNonExtensionField m' f default_val val)
    (_upb_Message_GetNonExtensionField m f default_val val).
Proof.
  intros Hh Hl. unfold _upb_Message_GetNonExtensionField. rewrite Hh.
  assert (Hst : forall a,
    _upb_MiniTable_CopyFieldData val 0 (mem m') (offset f) f a
    = _upb_MiniTable_CopyFieldData val 0 (mem m) (offset f) f a).
  { intros a. rewrite !CopyFieldData_memcpy. unfold memcpy.
    nat_cases; try reflexivity.
    apply (load_eq_inv _ _ _ _ _ _ Hl). lia. }
  destruct (upb_MiniTableField_IsExtension f); [exact I|].
  cbn [UPB_ASSERT UPB_ASSUME negb bind].
  destruct (_upb_MiniTableField_InOneOf f
            || _upb_MiniTable_ValueIsNonZero default_val f);
    [|exact Hst].
  destruct (_upb_Message_HasNonExtensionField m f) as [h|]; [|exact I].
  cbn [bind]. destruct h; cbn [negb same_bytes]; [exact Hst|reflexivity].
Qed.

Lemma positive_presence_index (f g : upb_MiniTableField) :
  0 < presence f -> 0 < presence g -> presence f <> presence g ->
  Z.to_nat (presence f) <> Z.to_nat (presence g).
Proof. lia. Qed.

(** What a writer on [g] leaves alone of the hasbits. *)
Lemma SetNonExtensionField_hasbits (m m' : upb_Message)
  (g : upb_MiniTableField) (v : bytes) (j : nat) :
  _upb_Message_SetNonExtensionField m g v = Ok m' ->
  apart (_upb_hasbit_ofs j) 1 (offset g) (rep_width (rep g)) = true ->
  (0 < presence g -> j <> Z.to_nat (presence g)) ->
  (presence g < 0 -> apart (case_slot g) 4 (_upb_hasbit_ofs j) 1 = true) ->
  _upb_hasbit m' j = _upb_hasbit m j.
Proof.
  intros Hs Hv Hh Hc.
  pose proof (SetNonExtensionField_not_extension _ _ _ _ Hs) as He.
  apply apart_spec in Hv.
  destruct (Z.lt_trichotomy (presence g) 0) as [Hp|[Hp|Hp]].
  - rewrite (SetNonExtensionField_unfold _ _ _ _ He (SetPresence_oneof m g Hp))
      in Hs. injection Hs as <-. apply hasbit_same_byte. cbn [mem with_mem].
    specialize (Hc Hp). apply apart_spec in Hc.
    rewrite CopyFieldData_memcpy, memcpy_outside by lia.
    apply store_uint_outside. fold (case_slot g). lia.
  - rewrite (SetNonExtensionField_unfold _ _ _ _ He
               (SetPresence_implicit m g Hp)) in Hs.
    injection Hs as <-. apply hasbit_same_byte. cbn [mem with_mem].
    rewrite CopyFieldData_memcpy. apply memcpy_outside. lia.
  - rewrite (SetNonExtensionField_unfold _ _ _ _ He (SetPresence_hasbit m g Hp))
      in Hs. injection Hs as <-.
    transitivity (_upb_hasbit (_upb_sethas m (Z.to_nat (presence g))) j).
    + apply hasbit_same_byte. cbn [mem with_mem].
      rewrite CopyFieldData_memcpy. apply memcpy_outside. lia.
    + rewrite hasbit_sethas. specialize (Hh Hp).
      apply Nat.eqb_neq in Hh. now rewrite Hh.
Qed.

Lemma ClearNonExtensionField_hasbits (m m' : upb_Message)
  (g : upb_MiniTableField) (j : nat) :
  _upb_Message_ClearNonExtensionField m g = Ok m' ->
  apart (_upb_hasbit_ofs j) 1 (offset g) (rep_width (rep g)) = true ->
  (0 < presence g -> j <> Z.to_nat (presence g)) ->
  (presence g < 0 -> apart (case_slot g) 4 (_upb_hasbit_ofs j) 1 = true) ->
  _upb_hasbit m' j = _upb_hasbit m j.
Proof.
  intros Hs Hv Hh Hc. apply apart_spec in Hv.
  destruct (Z.lt_trichotomy (presence g) 0) as [Hp|[Hp|Hp]].
  - rewrite (ClearNonExtensionField_oneof m g Hp) in Hs. injection Hs as <-.
    destruct (load_uint (mem m) (Z.to_nat (Z.lnot (presence g))) 4
              =? number g); [|reflexivity].
    apply hasbit_same_byte. cbn [mem with_mem].
    specialize (Hc Hp). apply apart_spec in Hc.
    rewrite CopyFieldData_memcpy, memcpy_outside by lia.
    apply store_uint_outside. fold (case_slot g). lia.
  - rewrite (ClearNonExtensionField_implicit m g Hp) in Hs.
    injection Hs as <-. apply hasbit_same_byte. cbn [mem with_mem].
    rewrite CopyFieldData_memcpy. apply memcpy_outside. lia.
  - rewrite (ClearNonExtensionField_hasbit m g Hp) in Hs. injection Hs as <-.
    transitivity (_upb_hasbit (_upb_clearhas m (Z.to_nat (presence g))) j).
    + apply hasbit_same_byte. cbn [mem with_mem].
      rewrite CopyFieldData_memcpy. apply memcpy_outside. lia.
    + rewrite hasbit_clearhas. specialize (Hh Hp).
      apply Nat.eqb_neq in Hh. now rewrite Hh.
Qed.

(** The facts [fields_apart] packs, as the frame lemmas take them. *)
Lemma fields_apart_inv (f g : upb_MiniTableField) :
  fields_apart f g = true ->
  apart (offset f) (rep_width (rep f)) (offset g) (rep_width (rep g)) = true
  /\ (0 < presence g ->
      apart (offset f) (rep_width (rep f))
        (_upb_hasbit_ofs (Z.to_nat (presence g))) 1 = true)
  /\ (presence g < 0 ->
      apart (offset f) (rep_width (rep f)) (case_slot g) 4 = true)
  /\ (0 < presence f ->
      apart (_upb_hasbit_ofs (Z.to_nat (presence f))) 1
        (offset g) (rep_width (rep g)) = true
      /\ (0 < presence g -> Z.to_nat (presence f) <> Z.to_nat (presence g))
      /\ (presence g < 0 ->
          apart (case_slot g) 4 (_upb_hasbit_ofs (Z.to_nat (presence f))) 1
          = true))
  /\ (presence f < 0 ->
      apart (case_slot f) 4 (offset g) (rep_width (rep g)) = true
      /\ (0 < presence g ->
          apart (case_slot f) 4 (_upb_hasbit_ofs (Z.to_nat (presence g))) 1
          = true)
      /\ (presence g < 0 -> apart (case_slot f) 4 (case_slot g) 4 = true)).
Proof.
  unfold fields_apart. rewrite !andb_true_iff. intros [[[H1 H2] H3] H4].
  split; [exact H1|]. split; [|split; [|split]].
  - intros Hg. apply Z.ltb_lt in Hg. rewrite Hg in H3.
    now rewrite apart_sym.
  - intros Hg. destruct (Z.ltb_spec 0 (presence g)); [lia|].
    apply Z.ltb_lt in Hg. rewrite Hg in H3. now rewrite apart_sym.
  - intros Hf. pose proof Hf as Hf'. apply Z.ltb_lt in Hf'.
    rewrite Hf' in H2, H4. split; [exact H2|]. split.
    + intros Hg. pose proof Hg as Hg'. apply Z.ltb_lt in Hg'.
      rewrite Hg' in H4. apply negb_true_iff, Z.eqb_neq in H4. lia.
    + intros Hg. destruct (Z.ltb_spec 0 (presence g)); [lia|].
      apply Z.ltb_lt in Hg. now rewrite Hg in H4.
  - intros Hf. destruct (Z.ltb_spec 0 (presence f)); [lia|].
    pose proof Hf as Hf'. apply Z.ltb_lt in Hf'. rewrite Hf' in H2, H4.
    split; [exact H2|]. split.
    + intros Hg. apply Z.ltb_lt in Hg. now rewrite Hg in H4.
    + intros Hg. destruct (Z.ltb_spec 0 (presence g)); [lia|].
      apply Z.ltb_lt in Hg. now rewrite Hg in H4.
Qed.

(** X10.  Fields that share nothing do not disturb each other: a plain
    setter or clearer on [g] changes neither what [has] says of [f] nor the
    bytes the getter of [f] hands out, for any default. *)
Theorem apart_fields_do_not_interfere (msg msg' : upb_Message)
  (f g : upb_MiniTableField) (v : bytes) :
  fields_apart f g = true ->
  _upb_Message_SetNonExtensionField msg g v = Ok msg'
  \/ _upb_Message_ClearNonExtensionField msg g = Ok msg' ->
  _upb_Message_HasNonExtensionField msg' f
  = _upb_Message_HasNonExtensionField msg f
  /\ forall default_val val,
       same_bytes (_upb_Message_GetNonExtensionField msg' f default_val val)
         (_upb_Message_GetNonExtensionField msg f default_val val).
Proof.
  intros Ha Hw.
  destruct (fields_apart_inv f g Ha) as [Hs1 [Hs2 [Hs3 [Hh Hc]]]].
  assert (Hst : load (mem msg') (offset f) (rep_width (rep f))
                = load (mem msg) (offset f) (rep_width (rep f))).
  { destruct Hw as [Hw|Hw].
    - now apply (SetNonExtensionField_frame msg msg' g v).
    - now apply (ClearNonExtensionField_frame msg msg' g). }
  assert (Hhas : _upb_Message_HasNonExtensionField msg' f
                 = _upb_Message_HasNonExtensionField msg f).
  { apply HasNonExtensionField_same.
    - intros Hf. destruct (Hh Hf) as [H1 [H2 H3]]. destruct Hw as [Hw|Hw].
      + now apply (SetNonExtensionField_hasbits msg msg' g v).
      + now apply (ClearNonExtensionField_hasbits msg msg' g).
    - intros Hf. destruct (Hc Hf) as [H1 [H2 H3]]. apply case_of_same_load.
      destruct Hw as [Hw|Hw].
      + now apply (SetNonExtensionField_frame msg msg' g v).
      + now apply (ClearNonExtensionField_frame msg msg' g). }
  split; [exact Hhas|]. intros default_val val.
  now apply GetNonExtensionField_same.
Qed.

(** Field A (4 bytes at offset 4, hasbit 1) and field E (4 bytes at offset
    8, hasbit 2, in the same hasbit byte): E is set and cleared, A reads 5
    throughout. *)
Lemma apart_fields_do_not_interfere_witness :
  let A := {| number := 1; offset := 4; presence := 1;
              rep := kUpb_FieldRep_4Byte;
              is_extension := false; is_map := false |} in
  let E := {| number := 2; offset := 8; presence := 2;
              rep := kUpb_FieldRep_4Byte;
              is_extension := false; is_map := false |} in
  let msg := {| internal := None;
                mem := bytes_of_list [2; 0; 0; 0; 5; 0; 0; 0] |} in
  fields_apart A E = true
  /\ exists m1 m2,
       _upb_Message_SetNonExtensionField msg E (bytes_of_list [9]) = Ok m1
       /\ _upb_Message_ClearNonExtensionField m1 E = Ok m2
       /\ load (mem m1) 0 12 = [6; 0; 0; 0; 5; 0; 0; 0; 9; 0; 0; 0]
       /\ _upb_Message_HasNonExtensionField m1 A = Ok true
       /\ _upb_Message_HasNonExtensionField m2 A = Ok true.
Proof.
  intros A E msg. split; [reflexivity|].
  eexists. eexists. split; [reflexivity|]. split; [reflexivity|].
  split; [reflexivity|].
  assert (H0 : _upb_Message_HasNonExtensionField msg A = Ok true)
    by reflexivity.
  split.
  - rewrite <- H0.
    apply (apart_fields_do_not_interfere msg _ A E (bytes_of_list [9])
             eq_refl (or_introl eq_refl)).
  - rewrite <- H0.
    etransitivity;
      [apply (apart_fields_do_not_interfere _ _ A E zero_bytes eq_refl
                (or_intror eq_refl))|].
    apply (apart_fields_do_not_interfere msg _ A E (bytes_of_list [9])
             eq_refl (or_introl eq_refl)).
Defined.

(** ** Field storage and extension window are separate *)

Lemma plain_reads_same_mem (m m' : upb_Message) (f : upb_MiniTableField)
  (default_val val : bytes) :
  mem m' = mem m ->
  _upb_Message_HasNonExtensionField m' f
  = _upb_Message_HasNonExtensionField m f
  /\ _upb_Message_GetNonExtensionField m' f default_val val
     = _upb_Message_GetNonExtensionField m f default_val val.
Proof.
  intros H.
  assert (Hh : _upb_Message_HasNonExtensionField m' f
               = _upb_Message_HasNonExtensionField m f).
  { unfold _upb_Message_HasNonExtensionField, _upb_getoneofcase_field,
      _upb_hasbit_field, _upb_hasbit. now rewrite H. }
  split; [exact Hh|].
  unfold _upb_Message_GetNonExtensionField. now rewrite Hh, H.
Qed.

Lemma extension_reads_same_internal (m m' : upb_Message)
  (e : upb_MiniTableExtension) (default_val val : bytes) :
  internal m' = internal m ->
  _upb_Message_HasExtensionField m' e = _upb_Message_HasExtensionField m e
  /\ _upb_Message_GetExtensionField m' e default_val val
     = _upb_Message_GetExtensionField m e default_val val.
Proof.
  intros H.
  unfold _upb_Message_HasExtensionField, _upb_Message_GetExtensionField,
    _upb_Message_Getext, extension_at. now rewrite H.
Qed.

(** X11.  Plain fields and extensions live apart.  Setting or clearing an
    extension leaves the field storage as it is, so [has] and the getter of
    every plain field answer as before; setting or clearing a plain field
    leaves the internal header as it is, so [has] and the getter of every
    extension answer as before. *)
Theorem plain_fields_and_extensions_are_separate (msg : upb_Message) :
  (forall e v a flag msg' a',
      _upb_Message_SetExtensionField msg e v a = Ok (flag, msg', a') ->
      mem msg' = mem msg
      /\ forall f d val,
           _upb_Message_HasNonExtensionField msg' f
           = _upb_Message_HasNonExtensionField msg f
           /\ _upb_Message_GetNonExtensionField msg' f d val
              = _upb_Message_GetNonExtensionField msg f d val)
  /\ (forall e,
         mem (_upb_Message_ClearExtensionField msg e) = mem msg
         /\ forall f d val,
              _upb_Message_HasNonExtensionField
                (_upb_Message_ClearExtensionField msg e) f
              = _upb_Message_HasNonExtensionField msg f
              /\ _upb_Message_GetNonExtensionField
                   (_upb_Message_ClearExtensionField msg e) f d val
                 = _upb_Message_GetNonExtensionField msg f d val)
  /\ (forall g v msg',
         _upb_Message_SetNonExtensionField msg g v = Ok msg'
         \/ _upb_Message_ClearNonExtensionField msg g = Ok msg' ->
         internal msg' = internal msg
         /\ forall e d val,
              _upb_Message_HasExtensionField msg' e
              = _upb_Message_HasExtensionField msg e
              /\ _upb_Message_GetExtensionField msg' e d val
                 = _upb_Message_GetExtensionField msg e d val).
Proof.
  split; [|split].
  - intros e v a flag msg' a' H.
    pose proof (SetExtensionField_mem _ _ _ _ _ _ _ H) as Hm.
    split; [exact Hm|]. intros f d val. now apply plain_reads_same_mem.
  - intros e. pose proof (ClearExtensionField_mem msg e) as Hm.
    split; [exact Hm|]. intros f d val. now apply plain_reads_same_mem.
  - intros g v msg' H.
    assert (Hi : internal msg' = internal msg).
    { destruct H as [H|H].
      - now apply (SetNonExtensionField_internal msg msg' g v).
      - now apply (ClearNonExtensionField_internal msg msg' g). }
    split; [exact Hi|]. intros e d val.
    now apply extension_reads_same_internal.
Qed.

(** ** Extensions: set, then read *)

Lemma find_extension_same_ids (M M' : nat -> upb_Message_Extension)
  (e p n : nat) :
  (forall k, (k < n)%nat ->
     ext (M' (p + k * sizeof_upb_Message_Extension)%nat)
     = ext (M (p + k * sizeof_upb_Message_Extension)%nat)) ->
  find_extension M' e p n = find_extension M e p n.
Proof.
  revert p. induction n as [|n IH]; intros p H; [reflexivity|].
  cbn [find_extension].
  pose proof (H O ltac:(lia)) as H0. simpl in H0. rewrite Nat.add_0_r in H0.
  rewrite H0. rewrite IH; [reflexivity|].
  intros k Hk. specialize (H (S k) ltac:(lia)).
  replace (p + S k * sizeof_upb_Message_Extension)%nat
    with (p + sizeof_upb_Message_Extension
          + k * sizeof_upb_Message_Extension)%nat in H
    by (unfold sizeof_upb_Message_Extension; lia).
  exact H.
Qed.

Lemma find_extension_shifted (M : nat -> upb_Message_Extension)
  (e p n d : nat) :
  find_extension (fun o => M (o - d)%nat) e (p + d) n
  = option_map (fun q => (q + d)%nat) (find_extension M e p n).
Proof.
  revert p. induction n as [|n IH]; intros p; [reflexivity|].
  cbn [find_extension]. replace (p + d - d)%nat with p by lia.
  destruct (ext (M p) =? e)%nat; [reflexivity|].
  replace (p + d + sizeof_upb_Message_Extension)%nat
    with (p + sizeof_upb_Message_Extension + d)%nat by lia.
  apply IH.
Qed.

(** Writing an entry that refers to the same descriptor as the entry it
    replaces does not change what the lookup finds. *)
Lemma Getext_put_extension (msg : upb_Message) (p : nat)
  (x : upb_Message_Extension) (e : upb_MiniTableExtension) :
  ext x = ext (extension_at msg p) ->
  _upb_Message_Getext (put_extension msg p x) e = _upb_Message_Getext msg e.
Proof.
  unfold _upb_Message_Getext, put_extension, extension_at.
  destruct (internal msg) as [i|] eqn:Hi; [|now rewrite Hi].
  cbn [internal with_internal ext_mem ext_begin]. intros Hx.
  apply find_extension_same_ids. intros k _.
  destruct (Nat.eqb_spec (ext_begin i + k * sizeof_upb_Message_Extension) p)
    as [->|_]; [exact Hx|reflexivity].
Qed.

Lemma extension_at_put_extension (msg : upb_Message) (p q : nat)
  (x : upb_Message_Extension) :
  internal msg <> None ->
  extension_at (put_extension msg p x) q
  = if (q =? p)%nat then x else extension_at msg q.
Proof.
  unfold put_extension, extension_at.
  destruct (internal msg) as [i|]; [|congruence]. reflexivity.
Qed.

Lemma Getext_some_internal (msg : upb_Message) (e : upb_MiniTableExtension)
  (p : nat) :
  _upb_Message_Getext msg e = Some p -> internal msg <> None.
Proof.
  unfold _upb_Message_Getext. destruct (internal msg); [discriminate|].
  discriminate.
Qed.

Lemma realloc_internal_in_block (msg m2 : upb_Message) (a a2 : upb_Arena) :
  realloc_internal msg sizeof_upb_Message_Extension a = (true, m2, a2) ->
  window_in_block msg -> window_in_block m2.
Proof.
  unfold realloc_internal, window_in_block.
  destruct (internal msg) as [i|] eqn:Hi.
  - destruct (ext_begin i <? sizeof_upb_Message_Extension)%nat.
    + destruct (upb_Arena_Malloc a (size i + sizeof_upb_Message_Extension))
        as [p a'].
      destruct (p =? 0); [discriminate|]. intros Hr. injection Hr as <- _.
      cbn [internal with_internal size ext_begin]. lia.
    + intros Hr. injection Hr as <- _. now rewrite Hi.
  - destruct (upb_Arena_Malloc a sizeof_upb_Message_Extension) as [p a'].
    destruct (p =? 0); [discriminate|]. intros Hr. injection Hr as <- _.
    cbn [internal with_internal size ext_begin]. lia.
Qed.

(** The block after a new entry was put in front of the window. *)
Lemma prepended_count (i : upb_Message_InternalData) :
  (sizeof_upb_Message_Extension <= ext_begin i <= size i)%nat ->
  ((size i - (ext_begin i - sizeof_upb_Message_Extension))
   / sizeof_upb_Message_Extension
   = S (extension_count i))%nat.
Proof.
  intros H. unfold extension_count.
  replace (size i - (ext_begin i - sizeof_upb_Message_Extension))%nat
    with (size i - ext_begin i + 1 * sizeof_upb_Message_Extension)%nat by lia.
  rewrite Nat.div_add by (unfold sizeof_upb_Message_Extension; lia). lia.
Qed.

(** The entry [_upb_Message_GetOrCreateExtension] hands out is the one the
    lookup finds afterwards. *)
Lemma GetOrCreateExtension_lookup (msg m1 : upb_Message)
  (e : upb_MiniTableExtension) (a a1 : upb_Arena) (p : nat) :
  window_in_block msg ->
  _upb_Message_GetOrCreateExtension msg e a = (Some p, m1, a1) ->
  _upb_Message_Getext m1 e = Some p.
Proof.
  intros Hb. unfold _upb_Message_GetOrCreateExtension.
  destruct (_upb_Message_Getext msg e) as [q|] eqn:Hg.
  - intros H. injection H as <- <- _. exact Hg.
  - destruct (realloc_internal msg sizeof_upb_Message_Extension a)
      as [[ok m2] a2] eqn:Hr.
    destruct ok; [|discriminate].
    destruct (realloc_internal_window _ _ _ _ Hr) as [i2 [Hi2 [Hge _]]].
    pose proof (realloc_internal_in_block _ _ _ _ Hr Hb) as Hb2.
    unfold window_in_block in Hb2. rewrite Hi2 in *.
    intros H. injection H as <- <- _.
    unfold _upb_Message_Getext, put_extension.
    cbn [internal with_internal size ext_begin ext_mem].
    unfold extension_count. cbn [size ext_begin].
    rewrite prepended_count by lia. cbn [find_extension].
    now rewrite !Nat.eqb_refl.
Qed.

(** X12.  An extension that was set is there.  When [_upb_Message_SetField]
    on an extension descriptor returns true, on a message whose window
    starts inside its block, [has] of the extension is true and
    [_upb_Message_GetField] hands out the value written, whatever the
    default. *)
Theorem extension_set_then_get (msg msg' : upb_Message)
  (e : upb_MiniTableExtension) (v default_val val : bytes)
  (ar : upb_Arena) (a' : option upb_Arena) :
  upb_MiniTableField_IsExtension (field e) = true ->
  window_in_block msg ->
  _upb_Message_SetField msg (extension_field e) v (Some ar)
  = Ok (true, msg', a') ->
  _upb_Message_HasExtensionField msg' e = Ok true
  /\ exists out,
       _upb_Message_GetField msg' (extension_field e) default_val val = Ok out
       /\ holds_copy_of out val v 0 (field e).
Proof.
  intros He Hb Hs. unfold _upb_Message_SetField in Hs.
  cbn [deref as_extension] in Hs. rewrite He in Hs. cbn [bind] in Hs.
  unfold _upb_Message_SetExtensionField in Hs.
  destruct (_upb_Message_GetOrCreateExtension msg e ar) as [[p m1] a1] eqn:Hg.
  destruct p as [p|]; [|discriminate]. injection Hs as <- _.
  pose proof (GetOrCreateExtension_lookup _ _ _ _ _ _ Hb Hg) as Hl.
  set (x := {| ext := ext (extension_at m1 p);
               data := _upb_MiniTable_CopyFieldData
                         (data (extension_at m1 p)) 0 v 0 (field e) |}).
  assert (Hl' : _upb_Message_Getext (put_extension m1 p x) e = Some p)
    by (rewrite Getext_put_extension; [exact Hl|reflexivity]).
  assert (Hx : extension_at (put_extension m1 p x) p = x).
  { rewrite extension_at_put_extension
      by (apply (Getext_some_internal m1 e p Hl)).
    now rewrite Nat.eqb_refl. }
  split.
  - unfold _upb_Message_HasExtensionField, upb_MiniTableField_HasPresence.
    now rewrite He, Hl'.
  - unfold _upb_Message_GetField. cbn [deref as_extension]. rewrite He.
    cbn [bind]. unfold upb_MiniTableField_IsExtension in He.
    rewrite (GetExtensionField_unfold _ _ _ _ He), Hl', Hx.
    eexists. split; [reflexivity|].
    eapply holds_copy_of_same_source; [apply CopyFieldData_holds_copy|].
    cbn [data x]. rewrite CopyFieldData_memcpy. apply load_memcpy_same.
Qed.

(** An extension of 4 bytes set on a fresh message with an arena that hands
    out one address. *)
Lemma extension_set_then_get_witness :
  let e := {| field := {| number := 100; offset := 0; presence := 0;
                          rep := kUpb_FieldRep_4Byte;
                          is_extension := true; is_map := false |};
              ext_id := 7 |} in
  let ar := {| arena_supply := [4096]; arena_maps := [] |} in
  exists msg' a' out,
    _upb_Message_SetField fresh_message (extension_field e)
      (bytes_of_list [9; 8; 7; 6]) (Some ar) = Ok (true, msg', a')
    /\ _upb_Message_HasExtensionField msg' e = Ok true
    /\ _upb_Message_GetField msg' (extension_field e) zero_bytes zero_bytes
       = Ok out
    /\ load out 0 4 = [9; 8; 7; 6].
Proof.
  intros e ar. eexists. eexists.
  assert (Hs : _upb_Message_SetField fresh_message (extension_field e)
                 (bytes_of_list [9; 8; 7; 6]) (Some ar)
               = Ok (true,
                     snd (fst (match _upb_Message_SetField fresh_message
                                       (extension_field e)
                                       (bytes_of_list [9; 8; 7; 6]) (Some ar)
                               with
                               | Ok r => r
                               | Fault => (true, fresh_message, None)
                               end)),
                     Some {| arena_supply := []; arena_maps := [] |}))
    by reflexivity.
  destruct (extension_set_then_get fresh_message _ e
              (bytes_of_list [9; 8; 7; 6]) zero_bytes zero_bytes ar _
              eq_refl I Hs) as [Hh [out [Hg _]]].
  exists out. split; [exact Hs|]. split; [exact Hh|]. split; [exact Hg|].
  vm_compute in Hg. injection Hg as <-. reflexivity.
Defined.

(** ** Extensions: setting one leaves the others *)

Lemma realloc_internal_lookup (msg m2 : upb_Message) (a a2 : upb_Arena)
  (e' : upb_MiniTableExtension) :
  realloc_internal msg sizeof_upb_Message_Extension a = (true, m2, a2) ->
  match _upb_Message_Getext msg e' with
  | Some q => exists q', _upb_Message_Getext m2 e' = Some q'
                         /\ extension_at m2 q' = extension_at msg q
  | None => _upb_Message_Getext m2 e' = None
  end.
Proof.
  unfold realloc_internal, _upb_Message_Getext, extension_at.
  destruct (internal msg) as [i|] eqn:Hi.
  - destruct (ext_begin i <? sizeof_upb_Message_Extension)%nat.
    + destruct (upb_Arena_Malloc a (size i + sizeof_upb_Message_Extension))
        as [p a'].
      destruct (p =? 0); [discriminate|]. intros Hr. injection Hr as <- _.
      cbn [internal with_internal ext_mem ext_begin].
      replace (extension_count
                 {| size := (size i + sizeof_upb_Message_Extension)%nat;
                    ext_begin := (ext_begin i
                                  + sizeof_upb_Message_Extension)%nat;
                    ext_mem := fun o => ext_mem i
                                 (o - sizeof_upb_Message_Extension)%nat |})
        with (extension_count i)
        by (unfold extension_count; cbn [size ext_begin]; f_equal; lia).
      rewrite find_extension_shifted.
      destruct (find_extension (ext_mem i) (ext_id e') (ext_begin i)
                  (extension_count i)) as [q|]; [|reflexivity].
      cbn [option_map]. eexists. split; [reflexivity|]. f_equal. lia.
    + intros Hr. injection Hr as <- _. rewrite Hi.
      destruct (find_extension (ext_mem i) (ext_id e') (ext_begin i)
                  (extension_count i)) as [q|]; [|reflexivity].
      now exists q.
  - destruct (upb_Arena_Malloc a sizeof_upb_Message_Extension) as [p a'].
    destruct (p =? 0); [discriminate|]. intros Hr. injection Hr as <- _.
    cbn [internal with_internal ext_mem ext_begin].
    unfold extension_count. cbn [size ext_begin].
    now rewrite Nat.sub_diag.
Qed.

Lemma GetOrCreateExtension_other (msg m1 : upb_Message)
  (e e' : upb_MiniTableExtension) (a a1 : upb_Arena) (p : option nat) :
  window_in_block msg -> ext_id e' <> ext_id e ->
  _upb_Message_GetOrCreateExtension msg e a = (p, m1, a1) ->
  match _upb_Message_Getext msg e' with
  | Some q => exists q', _upb_Message_Getext m1 e' = Some q'
                         /\ extension_at m1 q' = extension_at msg q
  | None => _upb_Message_Getext m1 e' = None
  end.
Proof.
  intros Hb Hne. unfold _upb_Message_GetOrCreateExtension.
  assert (Hsame :
    match _upb_Message_Getext msg e' with
    | Some q => exists q', _upb_Message_Getext msg e' = Some q'
                           /\ extension_at msg q' = extension_at msg q
    | None => _upb_Message_Getext msg e' = None
    end).
  { destruct (_upb_Message_Getext msg e') as [q|]; [now exists q|reflexivity]. }
  destruct (_upb_Message_Getext msg e) as [q0|] eqn:Hg.
  - intros H. injection H as _ <- _. exact Hsame.
  - destruct (realloc_internal msg sizeof_upb_Message_Extension a)
      as [[ok m2] a2] eqn:Hr.
    destruct ok; [|intros H; injection H as _ <- _; exact Hsame].
    destruct (realloc_internal_window _ _ _ _ Hr) as [i2 [Hi2 [Hge _]]].
    pose proof (realloc_internal_in_block _ _ _ _ Hr Hb) as Hb2.
    pose proof (realloc_internal_lookup _ _ _ _ e' Hr) as Hl2.
    unfold window_in_block in Hb2. rewrite Hi2 in *.
    intros H. injection H as _ <- _.
    set (b := (ext_begin i2 - sizeof_upb_Message_Extension)%nat) in *.
    set (x := {| ext := ext_id e; data := zero_bytes |}).
    assert (Hfind :
      _upb_Message_Getext
        (put_extension
           (with_internal m2 {| size := size i2; ext_begin := b;
                                ext_mem := ext_mem i2 |}) b x) e'
      = _upb_Message_Getext m2 e').
    { unfold _upb_Message_Getext, put_extension.
      cbn [internal with_internal size ext_begin ext_mem]. rewrite Hi2.
      unfold extension_count at 1. cbn [size ext_begin]. unfold b.
      rewrite prepended_count by lia. cbn [find_extension].
      rewrite Nat.eqb_refl. cbn [ext x].
      assert (Hn : (ext_id e =? ext_id e')%nat = false)
        by (apply Nat.eqb_neq; congruence).
      rewrite Hn.
      replace (ext_begin i2 - sizeof_upb_Message_Extension
               + sizeof_upb_Message_Extension)%nat
        with (ext_begin i2) by lia.
      apply find_extension_same_ids. intros k _.
      destruct (Nat.eqb_spec
                  (ext_begin i2 + k * sizeof_upb_Message_Extension)%nat
                  (ext_begin i2 - sizeof_upb_Message_Extension)%nat)
        as [E|_]; [|reflexivity].
      exfalso. unfold sizeof_upb_Message_Extension in *. lia. }
    destruct (_upb_Message_Getext msg e') as [q|].
    + destruct Hl2 as [q' [Hq' Hx']]. exists q'. rewrite Hfind.
      split; [exact Hq'|]. rewrite <- Hx'.
      unfold put_extension, extension_at.
      cbn [internal with_internal ext_mem]. rewrite Hi2.
      destruct (Nat.eqb_spec q' b) as [E|_]; [|reflexivity].
      exfalso. unfold _upb_Message_Getext in Hq'. rewrite Hi2 in Hq'.
      destruct (find_extension_some _ _ _ _ _ Hq') as [k [_ [Hk _]]].
      unfold b, sizeof_upb_Message_Extension in *. lia.
    + now rewrite Hfind.
Qed.

(** X13.  Setting an extension leaves the other extensions as they are: on
    a message whose window starts inside its block, [has] and the getter of
    every other extension descriptor answer after the call as before,
    whether the entry was found, created or refused. *)
Theorem extension_set_keeps_others (msg msg' : upb_Message)
  (e e' : upb_MiniTableExtension) (v default_val val : bytes)
  (a a' : option upb_Arena) (flag : bool) :
  window_in_block msg ->
  ext_id e' <> ext_id e ->
  _upb_Message_SetExtensionField msg e v a = Ok (flag, msg', a') ->
  _upb_Message_HasExtensionField msg' e' = _upb_Message_HasExtensionField msg e'
  /\ _upb_Message_GetExtensionField msg' e' default_val val
     = _upb_Message_GetExtensionField msg e' default_val val.
Proof.
  intros Hb Hne Hs. unfold _upb_Message_SetExtensionField in Hs.
  destruct a as [ar|]; [|discriminate].
  destruct (_upb_Message_GetOrCreateExtension msg e ar) as [[p m1] a1] eqn:Hg.
  pose proof (GetOrCreateExtension_other _ _ _ e' _ _ _ Hb Hne Hg) as Ho.
  assert (Hlook :
    match _upb_Message_Getext msg e' with
    | Some q => exists q', _upb_Message_Getext msg' e' = Some q'
                           /\ extension_at msg' q' = extension_at msg q
    | None => _upb_Message_Getext msg' e' = None
    end).
  { destruct p as [p|]; injection Hs as _ <- _; [|exact Ho].
    pose proof (GetOrCreateExtension_lookup _ _ _ _ _ _ Hb Hg) as Hl.
    rewrite Getext_put_extension by reflexivity.
    destruct (_upb_Message_Getext msg e') as [q|]; [|exact Ho].
    destruct Ho as [q' [Hq' Hx']]. exists q'. split; [exact Hq'|].
    rewrite extension_at_put_extension
      by (apply (Getext_some_internal m1 e p Hl)).
    destruct (Nat.eqb_spec q' p) as [->|_]; [|exact Hx'].
    exfalso. apply Hne.
    assert (Hid : forall d r, _upb_Message_Getext m1 d = Some r ->
                              ext (extension_at m1 r) = ext_id d).
    { intros d r Hd. unfold _upb_Message_Getext, extension_at in *.
      destruct (internal m1) as [i|]; [|discriminate].
      now destruct (find_extension_some _ _ _ _ _ Hd) as [k [_ [_ Hk]]]. }
    now rewrite <- (Hid e' p Hq'), <- (Hid e p Hl). }
  unfold _upb_Message_HasExtensionField, _upb_Message_GetExtensionField.
  destruct (_upb_Message_Getext msg e') as [q|].
  - destruct Hlook as [q' [-> ->]]. auto.
  - rewrite Hlook. auto.
Qed.

(** Extension 7 holds 5; extension 8 is set, in the room in front of the
    window: extension 7 still reads 5. *)
Lemma extension_set_keeps_others_witness :
  let fd := {| number := 100; offset := 0; presence := 0;
               rep := kUpb_FieldRep_4Byte;
               is_extension := true; is_map := false |} in
  let E n := {| field := fd; ext_id := n |} in
  let msg :=
    {| internal :=
         Some {| size := 72; ext_begin := 48;
                 ext_mem := fun o => if (o =? 48)%nat
                                     then {| ext := 7;
                                             data := bytes_of_list [5] |}
                                     else null_extension |};
       mem := zero_bytes |} in
  let ar := {| arena_supply := []; arena_maps := [] |} in
  exists msg' out,
    _upb_Message_SetExtensionField msg (E 8%nat) (bytes_of_list [9])
      (Some ar) = Ok (true, msg', Some ar)
    /\ _upb_Message_Getext msg' (E 8%nat) = Some 24%nat
    /\ _upb_Message_GetExtensionField msg' (E 7%nat) zero_bytes zero_bytes
       = Ok out
    /\ load out 0 4 = [5; 0; 0; 0].
Proof.
  intros fd E msg ar. eexists. eexists.
  split; [reflexivity|]. split; [reflexivity|]. split.
  - eapply eq_trans;
      [apply (extension_set_keeps_others msg _ (E 8%nat) (E 7%nat)
                (bytes_of_list [9]) zero_bytes zero_bytes (Some ar) (Some ar)
                true)|reflexivity].
    + unfold window_in_block. cbn [internal msg size ext_begin]. lia.
    + cbn [ext_id E]. lia.
    + reflexivity.
  - reflexivity.
Defined.

(** ** Extensions: clearing what is not there, clearing twice *)

Lemma ClearExtensionField_absent (msg : upb_Message)
  (e : upb_MiniTableExtension) :
  _upb_Message_Getext msg e = None ->
  _upb_Message_ClearExtensionField msg e = msg.
Proof.
  intros H. unfold _upb_Message_ClearExtensionField. rewrite H.
  now destruct (internal msg).
Qed.

Lemma ClearExtensionField_gone (msg : upb_Message)
  (e : upb_MiniTableExtension) :
  extensions_unique msg ->
  _upb_Message_Getext (_upb_Message_ClearExtensionField msg e) e = None.
Proof.
  intros Hu. destruct (_upb_Message_Getext msg e) as [p|] eqn:Hg.
  - destruct (internal msg) as [i|] eqn:Hi;
      [|unfold _upb_Message_Getext in Hg; rewrite Hi in Hg; discriminate].
    rewrite (ClearExtensionField_found msg e i p Hi Hg).
    unfold extensions_unique in Hu. rewrite Hi in Hu.
    pose proof (proj1 (window_unique_iff i) Hu) as Hinj.
    unfold _upb_Message_Getext in Hg. rewrite Hi in Hg.
    destruct (find_extension_some _ _ _ _ _ Hg) as [k [Hk [Hp Hid]]].
    unfold _upb_Message_Getext. cbn [internal with_internal]. rewrite Hp.
    apply cleared_window_lookup_none; [exact Hk|].
    intros k' Hk' Hne Hid'. apply Hne. apply Hinj; auto.
    rewrite Hid'. now rewrite <- Hp.
  - now rewrite ClearExtensionField_absent.
Qed.

(** X14.  Clearing an extension that has no entry in the message, a message
    without internal block included, returns the message as it is; and on a
    message that holds at most one entry per descriptor, clearing an
    extension a second time changes nothing more. *)
Theorem clear_extension_absent_or_twice (msg : upb_Message)
  (e : upb_MiniTableExtension) :
  (_upb_Message_HasExtensionField msg e = Ok false ->
   _upb_Message_ClearExtensionField msg e = msg)
  /\ (extensions_unique msg ->
      _upb_Message_ClearExtensionField
        (_upb_Message_ClearExtensionField msg e) e
      = _upb_Message_ClearExtensionField msg e).
Proof.
  split.
  - unfold _upb_Message_HasExtensionField. intros H.
    destruct (upb_MiniTableField_HasPresence (field e)); [|discriminate].
    cbn [UPB_ASSERT bind] in H.
    destruct (_upb_Message_Getext msg e) eqn:Hg; [discriminate|].
    now apply ClearExtensionField_absent.
  - intros Hu. apply ClearExtensionField_absent.
    now apply ClearExtensionField_gone.
Qed.

(** A fresh message, and the window of the extensions 1, 2 and 3 with the
    second one cleared twice. *)
Lemma clear_extension_absent_or_twice_witness :
  let fd := {| number := 100; offset := 0; presence := 0;
               rep := kUpb_FieldRep_4Byte;
               is_extension := true; is_map := false |} in
  let E n := {| field := fd; ext_id := n |} in
  let entry n := {| ext := n; data := zero_bytes |} in
  let msg :=
    {| internal :=
         Some {| size := 72; ext_begin := 0;
                 ext_mem := fun o => if (o =? 0)%nat then entry 1%nat
                                     else if (o =? 24)%nat then entry 2%nat
                                     else if (o =? 48)%nat then entry 3%nat
                                     else null_extension |};
       mem := zero_bytes |} in
  _upb_Message_ClearExtensionField fresh_message (E 2%nat) = fresh_message
  /\ _upb_Message_ClearExtensionField
       (_upb_Message_ClearExtensionField msg (E 2%nat)) (E 2%nat)
     = _upb_Message_ClearExtensionField msg (E 2%nat).
Proof.
  intros fd E entry msg.
  destruct (clear_extension_absent_or_twice fresh_message (E 2%nat))
    as [H1 _].
  destruct (clear_extension_absent_or_twice msg (E 2%nat)) as [_ H2].
  split; [apply H1; reflexivity|]. apply H2.
  unfold extensions_unique. cbn [internal msg].
  change (NoDup [1; 2; 3]%nat).
  repeat constructor; simpl; intuition discriminate.
Defined.

(** ** The extension window of every message *)

Lemma window_in_block_same_internal (m m' : upb_Message) :
  internal m' = internal m -> window_in_block m -> window_in_block m'.
Proof. unfold window_in_block. now intros ->. Qed.

Lemma put_extension_in_block (msg : upb_Message) (p : nat)
  (x : upb_Message_Extension) :
  window_in_block msg -> window_in_block (put_extension msg p x).
Proof.
  unfold window_in_block, put_extension.
  destruct (internal msg) as [i|] eqn:Hi; [|now rewrite Hi].
  now cbn [internal with_internal size ext_begin].
Qed.

Lemma GetOrCreateExtension_in_block (msg m1 : upb_Message)
  (e : upb_MiniTableExtension) (a a1 : upb_Arena) (p : option nat) :
  _upb_Message_GetOrCreateExtension msg e a = (p, m1, a1) ->
  window_in_block msg -> window_in_block m1.
Proof.
  unfold _upb_Message_GetOrCreateExtension. intros H Hb.
  destruct (_upb_Message_Getext msg e).
  - now injection H as _ <- _.
  - destruct (realloc_internal msg sizeof_upb_Message_Extension a)
      as [[ok m2] a2] eqn:Hr.
    destruct ok; [|now injection H as _ <- _].
    destruct (realloc_internal_window _ _ _ _ Hr) as [i2 [Hi2 [Hge _]]].
    pose proof (realloc_internal_in_block _ _ _ _ Hr Hb) as Hb2.
    unfold window_in_block in Hb2. rewrite Hi2 in *.
    injection H as _ <- _. apply put_extension_in_block.
    unfold window_in_block. cbn [internal with_internal size ext_begin]. lia.
Qed.

Lemma ClearExtensionField_in_block (msg : upb_Message)
  (e : upb_MiniTableExtension) :
  window_in_block msg ->
  window_in_block (_upb_Message_ClearExtensionField msg e).
Proof.
  intros Hb. destruct (_upb_Message_Getext msg e) as [p|] eqn:Hg;
    [|now rewrite ClearExtensionField_absent].
  destruct (internal msg) as [i|] eqn:Hi;
    [|unfold _upb_Message_Getext in Hg; rewrite Hi in Hg; discriminate].
  rewrite (ClearExtensionField_found msg e i p Hi Hg).
  unfold _upb_Message_Getext in Hg. rewrite Hi in Hg.
  destruct (find_extension_some _ _ _ _ _ Hg) as [k [Hk _]].
  unfold window_in_block. cbn [internal with_internal size ext_begin
                                 cleared_window].
  unfold extension_count in Hk.
  destruct (Nat.lt_ge_cases (size i - ext_begin i)
              sizeof_upb_Message_Extension) as [Hlt|Hge].
  - rewrite (Nat.div_small _ _ Hlt) in Hk. lia.
  - pose proof sizeof_ext_pos. lia.
Qed.

Lemma window_in_block_run (o : accessor_op) (m m' : upb_Message) :
  run o m = Ok m' -> window_in_block m -> window_in_block m'.
Proof.
  destruct o as [g v|g|e v a|e|g ks vs a]; cbn [run]; intros Hr Hb.
  - apply (window_in_block_same_internal m); [|exact Hb].
    now apply (SetNonExtensionField_internal m m' g v).
  - apply (window_in_block_same_internal m); [|exact Hb].
    now apply (ClearNonExtensionField_internal m m' g).
  - bind_inv Hr. destruct a0 as [[b m1] a1]. injection Hr as <-. cbn [fst snd].
    unfold _upb_Message_SetExtensionField in E.
    destruct a as [ar|]; [|discriminate].
    destruct (_upb_Message_GetOrCreateExtension m e ar) as [[p m2] ar2] eqn:Hg.
    pose proof (GetOrCreateExtension_in_block _ _ _ _ _ _ Hg Hb) as Hb2.
    destruct p as [p|]; injection E as _ <- _; [|exact Hb2].
    now apply put_extension_in_block.
  - injection Hr as <-. now apply ClearExtensionField_in_block.
  - bind_inv Hr. destruct a0 as [[p m1] a1]. injection Hr as <-. cbn [fst snd].
    destruct (GetOrCreateMutableMap_message _ _ _ _ _ _ _ _ E) as [->|[v Hs]];
      [exact Hb|].
    apply (window_in_block_same_internal m); [|exact Hb].
    now apply (SetNonExtensionField_internal m m1 g v).
Qed.

(** X15.  The shape of the extension window is kept.  A message made from a
    fresh one by any sequence of plain sets and clears, extension sets and
    clears and map initialisations has a window that starts inside its block
    and holds at most one entry per extension descriptor. *)
Theorem extension_window_invariants (os : list accessor_op) (m : upb_Message) :
  run_all os fresh_message = Ok m ->
  window_in_block m /\ extensions_unique m.
Proof.
  intros Hr. split; [|now apply (extensions_unique_reachable os)].
  assert (H : forall m0, window_in_block m0 ->
                         run_all os m0 = Ok m -> window_in_block m).
  { clear Hr. induction os as [|o os IH]; intros m0 Hb Hr; cbn [run_all] in Hr.
    - now injection Hr as <-.
    - bind_inv Hr. apply (IH a); [|exact Hr].
      now apply (window_in_block_run o m0 a). }
  now apply (H fresh_message I).
Qed.

(** Two extensions are set on a fresh message, the second one twice, and
    the first one is cleared. *)
Lemma extension_window_invariants_witness :
  let fd := {| number := 100; offset := 0; presence := 0;
               rep := kUpb_FieldRep_4Byte;
               is_extension := true; is_map := false |} in
  let E n := {| field := fd; ext_id := n |} in
  let ar := Some {| arena_supply := [4096; 8192; 12288]; arena_maps := [] |} in
  exists m,
    run_all [op_set_extension (E 1%nat) (bytes_of_list [1]) ar;
             op_set_extension (E 2%nat) (bytes_of_list [2]) ar;
             op_set_extension (E 2%nat) (bytes_of_list [3]) ar;
             op_clear_extension (E 1%nat)] fresh_message = Ok m
    /\ _upb_Message_Getext m (E 1%nat) = None
    /\ _upb_Message_Getext m (E 2%nat) = Some 24%nat
    /\ window_in_block m /\ extensions_unique m.
Proof.
  intros fd E ar. eexists. split; [reflexivity|].
  split; [reflexivity|]. split; [reflexivity|].
  apply (extension_window_invariants
           [op_set_extension (E 1%nat) (bytes_of_list [1]) ar;
            op_set_extension (E 2%nat) (bytes_of_list [2]) ar;
            op_set_extension (E 2%nat) (bytes_of_list [3]) ar;
            op_clear_extension (E 1%nat)]).
  reflexivity.
Defined.

(** ** Oneof members exclude each other *)

(** X16.  At most one member of a oneof is set.  In any message, whatever
    its bytes are, if [has] is true of a member of a oneof then it is false
    of every member of that oneof with another number. *)
Theorem oneof_members_exclude (msg : upb_Message) (f g : upb_MiniTableField) :
  upb_MiniTableField_IsExtension f = false ->
  upb_MiniTableField_IsExtension g = false ->
  presence f < 0 -> presence g = presence f -> number g <> number f ->
  _upb_Message_HasNonExtensionField msg f = Ok true ->
  _upb_Message_HasNonExtensionField msg g = Ok false.
Proof.
  unfold upb_MiniTableField_IsExtension. intros Hef Heg Hp Hg Hne Hf.
  rewrite HasNonExtensionField_case_of in Hf by assumption.
  rewrite HasNonExtensionField_case_of by (assumption || lia).
  injection Hf as Hf. apply Z.eqb_eq in Hf.
  rewrite (case_of_same_slot msg f g Hg), Hf. f_equal.
  apply Z.eqb_neq. congruence.
Qed.

(** The case slot holds 11: member C is set, member B is not. *)
Lemma oneof_members_exclude_witness :
  let B := {| number := 10; offset := 8; presence := -1;
              rep := kUpb_FieldRep_StringView;
              is_extension := false; is_map := false |} in
  let C := {| number := 11; offset := 8; presence := -1;
              rep := kUpb_FieldRep_4Byte;
              is_extension := false; is_map := false |} in
  let msg := {| internal := None;
                mem := bytes_of_list [11; 0; 0; 0; 0; 0; 0; 0; 9] |} in
  _upb_Message_HasNonExtensionField msg C = Ok true
  /\ _upb_Message_HasNonExtensionField msg B = Ok false.
Proof.
  intros B C msg. split; [reflexivity|].
  apply (oneof_members_exclude msg C B); try reflexivity; simpl; lia.
Defined.

(** ** A clear after a set, a set after a clear *)

Lemma land_lor_mod (b k : Z) :
  Z.land (Z.lor b k mod 256) (Z.lnot k) mod 256
  = Z.land b (Z.lnot k) mod 256.
Proof.
  change 256 with (2 ^ 8). apply Z.bits_inj'. intros n Hn.
  destruct (Z.lt_ge_cases n 8) as [Hlt|Hge].
  - rewrite !Z.mod_pow2_bits_low by lia.
    rewrite !Z.land_spec, Z.mod_pow2_bits_low by lia.
    rewrite Z.lor_spec, Z.lnot_spec by lia.
    now destruct (Z.testbit b n), (Z.testbit k n).
  - now rewrite !Z.mod_pow2_bits_high by lia.
Qed.

Lemma lor_land_mod (b k : Z) :
  Z.lor (Z.land b (Z.lnot k) mod 256) k mod 256 = Z.lor b k mod 256.
Proof.
  change 256 with (2 ^ 8). apply Z.bits_inj'. intros n Hn.
  destruct (Z.lt_ge_cases n 8) as [Hlt|Hge].
  - rewrite !Z.mod_pow2_bits_low by lia.
    rewrite !Z.lor_spec, Z.mod_pow2_bits_low by lia.
    rewrite Z.land_spec, Z.lnot_spec by lia.
    now destruct (Z.testbit b n), (Z.testbit k n).
  - now rewrite !Z.mod_pow2_bits_high by lia.
Qed.

(** X17.  A clear leaves no trace of the set before it, and a set none of
    the clear before it.  For a plain field with a hasbit or without
    presence, clearing after a set leaves the message byte for byte as
    clearing at once; and setting after a clear leaves it byte for byte as
    setting at once. *)
Theorem set_and_clear_absorb (msg : upb_Message) (f : upb_MiniTableField)
  (v : bytes) :
  upb_MiniTableField_IsExtension f = false ->
  0 <= presence f ->
  exists ms mc msc mcs,
    _upb_Message_SetNonExtensionField msg f v = Ok ms
    /\ _upb_Message_ClearNonExtensionField msg f = Ok mc
    /\ _upb_Message_ClearNonExtensionField ms f = Ok msc
    /\ _upb_Message_SetNonExtensionField mc f v = Ok mcs
    /\ (forall a, mem msc a = mem mc a)
    /\ (forall a, mem mcs a = mem ms a).
Proof.
  unfold upb_MiniTableField_IsExtension. intros He Hp.
  destruct (Z.eq_dec (presence f) 0) as [H0|H0].
  - eexists. eexists. eexists. eexists.
    split; [apply (SetNonExtensionField_unfold _ _ _ _ He
                     (SetPresence_implicit _ f H0))|].
    split; [apply (ClearNonExtensionField_implicit _ f H0)|].
    split; [apply (ClearNonExtensionField_implicit _ f H0)|].
    split; [apply (SetNonExtensionField_unfold _ _ _ _ He
                     (SetPresence_implicit _ f H0))|].
    split; intros a; cbn [mem with_mem]; rewrite !CopyFieldData_memcpy;
      unfold memcpy; nat_cases; reflexivity || lia.
  - assert (Hq : 0 < presence f) by lia.
    eexists. eexists. eexists. eexists.
    split; [apply (SetNonExtensionField_unfold _ _ _ _ He
                     (SetPresence_hasbit _ f Hq))|].
    split; [apply (ClearNonExtensionField_hasbit _ f Hq)|].
    split; [apply (ClearNonExtensionField_hasbit _ f Hq)|].
    split; [apply (SetNonExtensionField_unfold _ _ _ _ He
                     (SetPresence_hasbit _ f Hq))|].
    split; intros a; unfold _upb_sethas, _upb_clearhas; cbn [mem with_mem];
      rewrite !CopyFieldData_memcpy; unfold memcpy, poke;
      nat_cases; try reflexivity; try lia;
      apply land_lor_mod || apply lor_land_mod.
Qed.

(** A 4-byte field at offset 4 with hasbit 1, on a message where it is set
    to 5. *)
Lemma set_and_clear_absorb_witness :
  let f := {| number := 1; offset := 4; presence := 1;
              rep := kUpb_FieldRep_4Byte;
              is_extension := false; is_map := false |} in
  let msg := {| internal := None;
                mem := bytes_of_list [3; 0; 0; 0; 5; 0; 0; 0] |} in
  exists ms msc,
    _upb_Message_SetNonExtensionField msg f (bytes_of_list [9]) = Ok ms
    /\ _upb_Message_ClearNonExtensionField ms f = Ok msc
    /\ load (mem msc) 0 8 = [1; 0; 0; 0; 0; 0; 0; 0].
Proof.
  intros f msg.
  destruct (set_and_clear_absorb msg f (bytes_of_list [9]) eq_refl)
    as [ms [mc [msc [mcs [H1 [H2 [H3 [_ [H4 _]]]]]]]]]; [simpl; lia|].
  exists ms, msc. split; [exact H1|]. split; [exact H3|].
  assert (E : load (mem msc) 0 8 = load (mem mc) 0 8)
    by (apply load_ext; intros i _; apply H4).
  rewrite E. vm_compute in H2. injection H2 as <-. reflexivity.
Defined.
